(** * convert_to_claudeai.py: the skill converter, embedded and verified

    The development follows the script
    [claude-code/skills/instruction-creator/scripts/convert_to_claudeai.py]:
    - [Re]: the fragment of Python's [re] that the script's patterns use
      (a backtracking matcher, [findall], [sub]);
    - [Glob]: [fnmatch.fnmatch] for the wildcard exclusion rules;
    - [Fs]: paths and the file system the converter reads and writes;
    - [Converter]: [SkillConverter] and [main], method by method, in a
      state-and-exception monad over the file system, the change and
      warning lists and the printed output. *)

From stdpp Require Import base list strings gmap.
From Stdlib Require Import Ascii NArith.

(** ** Python's [re], as far as the script uses it *)

Module Re.

(** A Python [str] is a sequence of characters.  Characters are modelled
    by [ascii]; [\w] is its ASCII reading [[a-zA-Z0-9_]]. *)
Definition text := list ascii.

Definition nl : ascii := "010"%char.

Definition chars (s : string) : text := String.list_ascii_of_string s.
Definition str_of (t : text) : string := String.string_of_list_ascii t.

Definition in_range (lo hi c : ascii) : bool :=
  (nat_of_ascii lo <=? nat_of_ascii c)%nat && (nat_of_ascii c <=? nat_of_ascii hi)%nat.

(** [\w] *)
Definition is_word (c : ascii) : bool :=
  in_range "a" "z" c || in_range "A" "Z" c || in_range "0" "9" c
  || Ascii.eqb c "_".

(** [[^)]] *)
Definition not_rparen (c : ascii) : bool := negb (Ascii.eqb c ")").

(** [.] under [re.DOTALL] *)
Definition any_char (c : ascii) : bool := true.

(** The patterns of the script are sequences of literal characters and
    quantified character classes. *)
Inductive atom :=
| Chr (c : ascii)               (* a literal character *)
| Many1 (cls : ascii → bool)    (* [cls+], greedy *)
| Many0 (cls : ascii → bool)    (* [cls*], greedy *)
| Lazy0 (cls : ascii → bool).   (* [cls*?], lazy *)

Definition regex := list atom.

(** A literal string as a pattern. *)
Definition lit (s : string) : regex := Chr <$> chars s.

(** The backtracking matcher.  [k] is the rest of the pattern; a greedy
    quantifier takes as many characters as it can and gives them back one
    by one while [k] fails, a lazy one takes one more only when [k]
    fails.  The result is the text left after the first match found. *)
Fixpoint greedy (cls : ascii → bool) (k : text → option text) (s : text)
  : option text :=
  match s with
  | c :: s' =>
      if cls c then
        match greedy cls k s' with
        | Some rest => Some rest
        | None => k s
        end
      else k s
  | [] => k []
  end.

Fixpoint lazy (cls : ascii → bool) (k : text → option text) (s : text)
  : option text :=
  match k s with
  | Some rest => Some rest
  | None =>
      match s with
      | c :: s' => if cls c then lazy cls k s' else None
      | [] => None
      end
  end.

Fixpoint matcher (r : regex) : text → option text :=
  match r with
  | [] => Some
  | Chr c :: r' => λ s,
      match s with
      | x :: s' => if Ascii.eqb x c then matcher r' s' else None
      | [] => None
      end
  | Many1 cls :: r' => λ s,
      match s with
      | x :: s' => if cls x then greedy cls (matcher r') s' else None
      | [] => None
      end
  | Many0 cls :: r' => greedy cls (matcher r')
  | Lazy0 cls :: r' => lazy cls (matcher r')
  end.

(** Length of the match that starts at the head of [s], if there is one. *)
Definition match_len (r : regex) (s : text) : option nat :=
  (λ rest, length s - length rest) <$> matcher r s.

(** [re.findall(r, s)]: the matches, left to right, not overlapping.
    [skip] counts the characters of the current match still to pass. *)
Fixpoint findall_scan (r : regex) (skip : nat) (s : text) : list text :=
  match s with
  | [] =>
      match skip, match_len r [] with
      | O, Some _ => [[]]
      | _, _ => []
      end
  | c :: s' =>
      match skip with
      | S k => findall_scan r k s'
      | O =>
          match match_len r s with
          | Some (S n) => take (S n) s :: findall_scan r n s'
          | Some O => [] :: findall_scan r 0 s'
          | None => findall_scan r 0 s'
          end
      end
  end.

Definition findall (r : regex) (s : text) : list text := findall_scan r 0 s.

(** [re.sub(r, repl, s)] for a replacement without group references. *)
Fixpoint sub_scan (r : regex) (repl : text) (skip : nat) (s : text) : text :=
  match s with
  | [] =>
      match skip, match_len r [] with
      | O, Some _ => repl
      | _, _ => []
      end
  | c :: s' =>
      match skip with
      | S k => sub_scan r repl k s'
      | O =>
          match match_len r s with
          | Some (S n) => repl ++ sub_scan r repl n s'
          | Some O => repl ++ c :: sub_scan r repl 0 s'
          | None => c :: sub_scan r repl 0 s'
          end
      end
  end.

Definition sub (r : regex) (repl : text) (s : text) : text :=
  sub_scan r repl 0 s.

(** [re.match(r, s)]: a match at the start of [s]. *)
Definition match_start (r : regex) (s : text) : bool :=
  bool_decide (is_Some (matcher r s)).

(** The words a pattern denotes. *)
Fixpoint lang (r : regex) (w : text) : Prop :=
  match r with
  | [] => w = []
  | Chr c :: r' => ∃ w', w = c :: w' ∧ lang r' w'
  | Many1 cls :: r' =>
      ∃ u w', u ≠ [] ∧ forallb cls u = true ∧ w = u ++ w' ∧ lang r' w'
  | Many0 cls :: r' | Lazy0 cls :: r' =>
      ∃ u w', forallb cls u = true ∧ w = u ++ w' ∧ lang r' w'
  end.

(** A pattern that has no empty match. *)
Definition nonempty (r : regex) : Prop := ¬ lang r [].

(** No match starts anywhere in [s]. *)
Definition no_match (r' : regex) (s : text) : Prop :=
  ∀ t, t `suffix_of` s → matcher r' t = None.

(** Every tail of [l] that is not empty satisfies [P]. *)
Fixpoint tails_all (P : text → Prop) (l : text) : Prop :=
  match l with
  | [] => True
  | _ :: l' => P l ∧ tails_all P l'
  end.

End Re.

(** ** Sequences with a given beginning *)

(** [str.startswith] on texts, and "lies under" on paths. *)
Fixpoint starts_with `{EqDecision A} (pre l : list A) : bool :=
  match pre, l with
  | [], _ => true
  | x :: pre', y :: l' => bool_decide (x = y) && starts_with pre' l'
  | _ :: _, [] => false
  end.

(** What is left of [l] after [pre]; [None] when [l] does not start with it. *)
Fixpoint strip_prefix `{EqDecision A} (pre l : list A) : option (list A) :=
  match pre, l with
  | [], _ => Some l
  | x :: pre', y :: l' => if bool_decide (x = y) then strip_prefix pre' l' else None
  | _ :: _, [] => None
  end.

(** ** [fnmatch.fnmatch] *)

Module Glob.
Import Re.

(** [*]: the rest of the pattern matches some suffix. *)
Fixpoint star (k : text → bool) (s : text) : bool :=
  k s || match s with
         | [] => false
         | _ :: s' => star k s'
         end.

(** Shell-style matching of a whole name: [*] stands for any run of
    characters and [?] for one; every other character stands for itself
    (none of the script's rules has a bracket class). *)
Fixpoint fnmatch_chars (pat : text) : text → bool :=
  match pat with
  | [] => λ s, match s with [] => true | _ => false end
  | c :: pat' =>
      if Ascii.eqb c "*" then star (fnmatch_chars pat')
      else if Ascii.eqb c "?" then
        λ s, match s with
             | _ :: s' => fnmatch_chars pat' s'
             | [] => false
             end
      else
        λ s, match s with
             | x :: s' => Ascii.eqb x c && fnmatch_chars pat' s'
             | [] => false
             end
  end.

Definition fnmatch (name pat : string) : bool :=
  fnmatch_chars (chars pat) (chars name).

End Glob.

(** ** Paths and the file system *)

Module Fs.

(** A resolved absolute path: its components from the root. *)
Definition path := list string.

(** [p / name] of [pathlib]: joining the empty segment changes nothing. *)
Definition joinpath (p : path) (name : string) : path :=
  if bool_decide (name = ""%string) then p else p ++ [name].

(** [p.name]: the last component, empty for the root. *)
Definition name_of (p : path) : string := List.last p ""%string.

(** [p.parent] *)
Definition parent (p : path) : path := removelast p.

(** [str(p)] for a relative path. *)
Definition path_str (p : path) : string := String.concat "/" p.

(** [p.relative_to(base)], [None] standing for its [ValueError]. *)
Definition relative_to (p base : path) : option path := strip_prefix base p.

(** [p] is [base] or lies under it. *)
Definition under (base p : path) : bool := starts_with base p.

Inductive node :=
| Dir
| File (data : string).

(** The entries of the file system in the order a directory walk lists
    them.  The root is always there and is not listed. *)
Abbreviation fs := (list (path * node)).

Fixpoint find_entry (p : path) (t : fs) : option node :=
  match t with
  | [] => None
  | (q, n) :: t' => if bool_decide (q = p) then Some n else find_entry p t'
  end.

Definition node_at (p : path) (t : fs) : option node :=
  match p with
  | [] => Some Dir
  | _ => find_entry p t
  end.

(** [p.exists()], [p.is_dir()], [p.is_file()] *)
Definition exists_ (p : path) (t : fs) : bool :=
  match node_at p t with Some _ => true | None => false end.
Definition is_dir (p : path) (t : fs) : bool :=
  match node_at p t with Some Dir => true | _ => false end.
Definition is_file (p : path) (t : fs) : bool :=
  match node_at p t with Some (File _) => true | _ => false end.

(** Put [n] at [p]: in place when [p] is listed, at the end otherwise. *)
Fixpoint put (p : path) (n : node) (t : fs) : fs :=
  match t with
  | [] => [(p, n)]
  | (q, m) :: t' =>
      if bool_decide (q = p) then (q, n) :: t' else (q, m) :: put p n t'
  end.

(** Drop [p] and everything under it. *)
Definition remove_tree (p : path) (t : fs) : fs :=
  filter (λ e, under p e.1 = false) t.

(** Drop the entry [p]. *)
Definition remove_entry (p : path) (t : fs) : fs :=
  filter (λ e, e.1 ≠ p) t.

(** [p.rglob("*")]: everything strictly under [p]. *)
Definition rglob (p : path) (t : fs) : list path :=
  filter (λ q, under p q = true ∧ q ≠ p) (t.*1).

(** The listing is that of a tree: whatever is listed lies in a
    directory. *)
Definition tree (t : fs) : Prop :=
  ∀ q n, node_at q t = Some n → node_at (parent q) t = Some Dir.

Definition tree_b (t : fs) : bool :=
  forallb (λ e, is_dir (parent e.1) t) t.

(** The listing under [b] and the nodes at and under [b] are the same in
    [t'] as in [t]. *)
Definition untouched (b : path) : relation fs :=
  λ t t', rglob b t' = rglob b t ∧
          ∀ q, under b q = true → node_at q t' = node_at q t.

(** Two directories of which neither lies in the other. *)
Definition apart (p q : path) : Prop := under p q = false ∧ under q p = false.

(** [st_size]: the length of the file in bytes. *)
Definition size_of (data : string) : N := N.of_nat (String.length data).

Inductive exn :=
| FileNotFoundError (p : path)
| FileExistsError (p : path)
| NotADirectoryError (p : path)
| IsADirectoryError (p : path)
| YAMLError (msg : string)
| TypeError (msg : string)
| ValueError (msg : string).

Inductive outcome (A : Type) :=
| Ok (a : A)
| Raise (e : exn).
Global Arguments Ok {A} a.
Global Arguments Raise {A} e.

(** The directories [pre ++ take 1 rest], [pre ++ take 2 rest], ... are
    made where missing; [None] when one of them is a file. *)
Fixpoint make_chain (pre : path) (rest : list string) (t : fs) : option fs :=
  match rest with
  | [] => Some t
  | c :: rest' =>
      let p := pre ++ [c] in
      match node_at p t with
      | Some Dir => make_chain p rest' t
      | Some (File _) => None
      | None => make_chain p rest' (put p Dir t)
      end
  end.

(** [p.mkdir(parents=True, exist_ok=exist_ok)] *)
Definition mkdir_parents (exist_ok : bool) (p : path) (t : fs) : outcome fs :=
  match node_at p t with
  | Some Dir => if exist_ok then Ok t else Raise (FileExistsError p)
  | Some (File _) => Raise (FileExistsError p)
  | None =>
      match make_chain [] p t with
      | Some t' => Ok t'
      | None => Raise (NotADirectoryError p)
      end
  end.

(** [shutil.rmtree(p)] *)
Definition rmtree (p : path) (t : fs) : outcome fs :=
  match node_at p t with
  | Some Dir => Ok (remove_tree p t)
  | Some (File _) => Raise (NotADirectoryError p)
  | None => Raise (FileNotFoundError p)
  end.

(** [p.unlink()] *)
Definition unlink (p : path) (t : fs) : outcome fs :=
  match node_at p t with
  | Some (File _) => Ok (remove_entry p t)
  | Some Dir => Raise (IsADirectoryError p)
  | None => Raise (FileNotFoundError p)
  end.

(** [p.read_text()] *)
Definition read_text (p : path) (t : fs) : outcome string :=
  match node_at p t with
  | Some (File data) => Ok data
  | Some Dir => Raise (IsADirectoryError p)
  | None => Raise (FileNotFoundError p)
  end.

(** Writing a file: [open(p, 'w')] and the like. *)
Definition write_file (p : path) (data : string) (t : fs) : outcome fs :=
  match node_at p t with
  | Some Dir => Raise (IsADirectoryError p)
  | Some (File _) => Ok (put p (File data) t)
  | None =>
      match node_at (parent p) t with
      | Some Dir => Ok (put p (File data) t)
      | Some (File _) => Raise (NotADirectoryError p)
      | None => Raise (FileNotFoundError p)
      end
  end.

(** [shutil.copy2(src, dst)]: into [dst] when [dst] is a directory. *)
Definition copy2 (src dst : path) (t : fs) : outcome fs :=
  match read_text src t with
  | Raise e => Raise e
  | Ok data =>
      if is_dir dst t then write_file (joinpath dst (name_of src)) data t
      else write_file dst data t
  end.

End Fs.

(** ** The converter *)

Import Re Fs.

(** The YAML library ([ruamel.yaml], else [PyYAML]) and [zipfile] are not
    part of the script: the converter is stated over any implementation of
    what it calls from them. *)

(** What [yaml.load] hands back, told apart the way the script uses it. *)
Inductive yaml_doc (value : Type) :=
| YMapping (h : gmap string value)   (* a mapping with string keys *)
| YFalsy                             (* [None] or another falsy document *)
| YTruthy.                           (* a truthy scalar or sequence *)
Arguments YMapping {value} h.
Arguments YFalsy {value}.
Arguments YTruthy {value}.

Class Libraries (value : Type) := {
  (** [yaml.load] / [pyyaml.safe_load] *)
  yaml_load : string → outcome (yaml_doc value);
  (** [yaml.dump] of a mapping *)
  yaml_dump : gmap string value → string;
  (** the bytes [zipfile.ZipFile] writes for the members given *)
  zip_bytes : list (path * string) → string;
}.

Record config := {
  skill_path : path;
  output_dir : path;
  verbose : bool;
  dry_run : bool;
  keep_tools : bool;
  inline_refs : bool;
}.

(** The same run with or without [--dry-run]. *)
Definition with_dry_run (b : bool) (self : config) : config :=
  {| skill_path := skill_path self; output_dir := output_dir self;
     verbose := verbose self; dry_run := b; keep_tools := keep_tools self;
     inline_refs := inline_refs self |}.

(** The same run with or without [--verbose]. *)
Definition with_verbose (b : bool) (self : config) : config :=
  {| skill_path := skill_path self; output_dir := output_dir self;
     verbose := b; dry_run := dry_run self; keep_tools := keep_tools self;
     inline_refs := inline_refs self |}.

(** An entry of [self.changes], by the arguments of its format string. *)
Inductive change (value : Type) :=
| RemovedField (field : string) (removed_value : value)
    (* "Removed YAML field: {field}={removed_value}" *)
| ReplacedPattern (count : nat) (pattern30 : string)
    (* "Replaced {len(matches)} instances of pattern: {pattern[:30]}..." *)
| BundledFiles (files_copied : nat) (total_size : N)
    (* "Bundled {files_copied} reference files ({total_size / 1024:.1f}KB)" *)
| CreatedZip (zip_name : string) (zip_size : N).
    (* "Created zip: {zip_name} ({zip_size / 1024:.1f}KB)" *)
Arguments RemovedField {value} field removed_value.
Arguments ReplacedPattern {value} count pattern30.
Arguments BundledFiles {value} files_copied total_size.
Arguments CreatedZip {value} zip_name zip_size.

(** An entry of [self.warnings]. *)
Inductive warning :=
| FoundPattern (count : nat) (description : string)
    (* "Found {len(matches)} {description} - may need manual review" *)
| FileTooLarge (file_size : N) (rel_path : path)
    (* "File too large ({file_size / 1024 / 1024:.1f}MB): {rel_path}" *)
| TotalSizeExceeds (total_size : N).
    (* "Total size ({total_size / 1024 / 1024:.1f}MB) exceeds recommended 10MB" *)

(** The messages of [self.log]. *)
Inductive log_msg :=
| LogConverted                        (* "Converted SKILL.md" *)
| LogRemovedField (field : string)    (* "Removed field: {field}" *)
| LogNoReferences                     (* "No references directory found" *)
| LogExcluded (rel_path : path)       (* "Excluded: {rel_path}" *)
| LogBundled (rel_path : path)        (* "Bundled: {rel_path}" *)
| LogWouldCreate (zip_path : path).   (* "Would create: {zip_path}" *)

(** The lines printed, one constructor for each [print]. *)
Inductive event (value : Type) :=
| PConverting (skill_name : string)   (* "Converting skill: {skill_name}" *)
| PNotExist (p : path)                (* "Error: Skill path does not exist: ..." *)
| PNotDir (p : path)                  (* "Error: Skill path is not a directory: ..." *)
| PNoSkillMd (p : path)               (* "Error: SKILL.md not found in: ..." *)
| PConversionError (e : exn)          (* "Error during conversion: {e}" *)
| PLog (m : log_msg)                  (* "  {message}" *)
| PWarning (w : warning)              (* "  WARNING: {message}" *)
| PChangesMade                        (* "  Changes made:" *)
| PChange (c : change value)          (* "    - {change}" *)
| PWarnings (n : nat)                 (* "  Warnings ({len(self.warnings)}):" *)
| PWarningLine (w : warning)          (* "    ! {warning}" *)
| POutput (zip_path : path)           (* "  Output: ..." *)
| PUploadTo                           (* "  Upload to: ..." *)
| PSuccessful                         (* "Conversion successful!" *)
| PFailed.                            (* "Conversion failed." *)
Arguments PConverting {value} skill_name.
Arguments PNotExist {value} p.
Arguments PNotDir {value} p.
Arguments PNoSkillMd {value} p.
Arguments PConversionError {value} e.
Arguments PLog {value} m.
Arguments PWarning {value} w.
Arguments PChangesMade {value}.
Arguments PChange {value} c.
Arguments PWarnings {value} n.
Arguments PWarningLine {value} w.
Arguments POutput {value} zip_path.
Arguments PUploadTo {value}.
Arguments PSuccessful {value}.
Arguments PFailed {value}.

(** What a run acts on: the file system, the converter's two lists and the
    standard output. *)
Record state (value : Type) := State {
  files : fs;
  changes : list (change value);
  warnings : list warning;
  stdout : list (event value);
}.
Arguments State {value} files changes warnings stdout.
Arguments files {value} s.
Arguments changes {value} s.
Arguments warnings {value} s.
Arguments stdout {value} s.

(** *** Computations that change the state and may raise *)

Definition M (value A : Type) : Type := state value → outcome A * state value.

Section Monad.
Context {value : Type}.

Definition ret {A} (a : A) : M value A := λ st, (Ok a, st).

Definition bind {A B} (c : M value A) (k : A → M value B) : M value B :=
  λ st, match c st with
        | (Ok a, st') => k a st'
        | (Raise e, st') => (Raise e, st')
        end.

Definition raise {A} (e : exn) : M value A := λ st, (Raise e, st).

Definition get_files : M value fs := λ st, (Ok (files st), st).

(** A file-system call: on success the file system is replaced, on an
    exception it is left as it was. *)
Definition fs_call (op : fs → outcome fs) : M value unit :=
  λ st, match op (files st) with
        | Ok t => (Ok tt, State t (changes st) (warnings st) (stdout st))
        | Raise e => (Raise e, st)
        end.

Definition fs_read {A} (op : fs → outcome A) : M value A :=
  λ st, (op (files st), st).

Definition print (e : event value) : M value unit :=
  λ st, (Ok tt, State (files st) (changes st) (warnings st) (stdout st ++ [e])).

Definition add_change (c : change value) : M value unit :=
  λ st, (Ok tt, State (files st) (changes st ++ [c]) (warnings st) (stdout st)).

Definition add_warning (w : warning) : M value unit :=
  λ st, (Ok tt, State (files st) (changes st) (warnings st ++ [w]) (stdout st)).

(** [try: body except Exception as e: handler(e) finally: final] *)
Definition try_except_finally {A}
    (body : M value A) (handler : exn → M value A) (final : M value unit)
  : M value A :=
  λ st,
    let '(r, st1) :=
      match body st with
      | (Ok a, st') => (Ok a, st')
      | (Raise e, st') => handler e st'
      end in
    match final st1 with
    | (Ok _, st2) => (r, st2)
    | (Raise e, st2) => (Raise e, st2)
    end.

(** [for x in l: acc = body(acc, x)] *)
Fixpoint for_each {A B} (l : list A) (body : B → A → M value B) (acc : B)
  : M value B :=
  match l with
  | [] => ret acc
  | x :: l' => bind (body acc x) (for_each l' body)
  end.

End Monad.

(** The notations [x ← c; k] and [c;; k] are those of stdpp's monads. *)
Global Instance M_ret {value} : MRet (M value) := @ret value.
Global Instance M_bind {value} : MBind (M value) := λ A B k c, bind c k.

(** *** [SkillConverter] *)

(** A pattern of the script: its source text and what it compiles to. *)
Record pattern := Pattern {
  source : string;
  compiled : regex;
}.

Definition mcp_call : regex :=
  lit "mcp__" ++ [Many1 is_word] ++ lit "__" ++ [Many1 is_word]
  ++ [Chr "("; Many0 not_rparen; Chr ")"].

Definition backtick_call : regex := lit "`" ++ mcp_call ++ lit "`".

Definition mcp_name : regex :=
  lit "mcp__" ++ [Many1 is_word] ++ lit "__" ++ [Many1 is_word].

Definition bash_call : regex :=
  lit "Bash(" ++ [Many1 not_rparen; Chr ")"].

Definition REMOVE_YAML_FIELDS : list string := ["allowed-tools"].

Definition CC_PATTERNS : list (pattern * string) := [
  (Pattern "`mcp__\w+__\w+\([^)]*\)`" backtick_call,
   "[MCP tool reference removed]"%string);
  (Pattern "mcp__\w+__\w+\([^)]*\)" mcp_call,
   "[MCP tool reference removed]"%string);
  (Pattern "mcp__\w+__\w+" mcp_name,
   "[MCP tool]"%string);
  (Pattern "Bash\([^)]+\)" bash_call,
   "[CLI command]"%string)
]%list.

Definition WARNING_PATTERNS : list (pattern * string) := [
  (Pattern "scripts/\w+\.py" (lit "scripts/" ++ [Many1 is_word] ++ lit ".py"),
   "Python script reference"%string);
  (Pattern "scripts/\w+\.sh" (lit "scripts/" ++ [Many1 is_word] ++ lit ".sh"),
   "Shell script reference"%string);
  (Pattern "```bash\n.*?```"
     (lit "```bash" ++ [Chr nl; Lazy0 any_char] ++ lit "```"),
   "Bash code block"%string);
  (Pattern "```python\n.*?```"
     (lit "```python" ++ [Chr nl; Lazy0 any_char] ++ lit "```"),
   "Python code block"%string)
]%list.

Definition EXCLUDE_PATTERNS : list string := [
  "scripts/"; "*.pyc"; "__pycache__/"; ".DS_Store"; "*.env"; "*.key"; "*.pem"
]%string.

Definition MAX_SINGLE_FILE : N := (30 * 1024 * 1024)%N.
Definition MAX_TOTAL_SIZE : N := (50 * 1024 * 1024)%N.
Definition WARN_TOTAL_SIZE : N := (10 * 1024 * 1024)%N.


Definition closing_marker : text := nl :: chars "---" ++ [nl].

(** The two groups after the opening marker: the text before the first
    closing marker line and the text after it. *)
Fixpoint split_at_marker (s : text) : option (text * text) :=
  match strip_prefix closing_marker s with
  | Some body => Some ([], body)
  | None =>
      match s with
      | c :: s' => (λ g, (c :: g.1, g.2)) <$> split_at_marker s'
      | [] => None
      end
  end.

(** [re.match(pattern, content, re.DOTALL)] with its groups 1 and 2. *)
Definition match_frontmatter (content : text) : option (text * text) :=
  match strip_prefix (chars "---" ++ [nl]) content with
  | Some rest => split_at_marker rest
  | None => None
  end.

(** [pattern.endswith('/')], [pattern[:-1]], ['*' in pattern] *)
Definition ends_with_slash (pat : string) : bool :=
  bool_decide (List.last (chars pat) "a"%char = "/"%char).
Definition drop_last (pat : string) : string := str_of (removelast (chars pat)).
Definition has_star (pat : string) : bool :=
  bool_decide ("*"%char ∈ chars pat).
Definition startswith (s pre : string) : bool :=
  starts_with (chars pre) (chars s).

(** One turn of the loop of [should_exclude]: does the rule exclude? *)
Definition rule_excludes (rel : path) (pat : string) : bool :=
  if ends_with_slash pat then startswith (path_str rel) (drop_last pat)
  else if has_star pat then Glob.fnmatch (name_of rel) pat
  else bool_decide (path_str rel = pat) || bool_decide (name_of rel = pat).

Definition should_exclude (rel : path) : bool :=
  existsb (rule_excludes rel) EXCLUDE_PATTERNS.

Section Converter.
Context {value : Type} `{!Libraries value}.
Variable self : config.

Definition skill_name : string := name_of (skill_path self).

Definition log (m : log_msg) : M value unit :=
  if verbose self then print (PLog m) else mret tt.

Definition warn (w : warning) : M value unit :=
  add_warning w;;
  if verbose self then print (PWarning w) else mret tt.

Definition validate_skill : M value bool :=
  t ← get_files;
  if negb (exists_ (skill_path self) t) then
    print (PNotExist (skill_path self));; mret false
  else if negb (is_dir (skill_path self) t) then
    print (PNotDir (skill_path self));; mret false
  else
    let skill_md := joinpath (skill_path self) "SKILL.md" in
    if negb (exists_ skill_md t) then
      print (PNoSkillMd (skill_path self));; mret false
    else mret true.

(** [frontmatter or {}] *)
Definition or_empty (d : yaml_doc value) : yaml_doc value :=
  match d with
  | YFalsy => YMapping ∅
  | _ => d
  end.

Definition parse_frontmatter (content : string)
  : M value (yaml_doc value * string) :=
  match match_frontmatter (chars content) with
  | Some (frontmatter_str, body) =>
      frontmatter ← fs_read (λ _, yaml_load (str_of frontmatter_str));
      mret (or_empty frontmatter, str_of body)
  | None => mret (YMapping ∅, content)
  end.

Definition remove_field (cleaned : gmap string value) (field : string)
  : M value (gmap string value) :=
  match cleaned !! field with
  | Some removed_value =>
      if keep_tools self then mret cleaned
      else
        add_change (RemovedField field removed_value);;
        log (LogRemovedField field);;
        mret (delete field cleaned)
  | None => mret cleaned
  end.

Definition clean_frontmatter (frontmatter : yaml_doc value)
  : M value (gmap string value) :=
  match frontmatter with
  | YMapping h => for_each REMOVE_YAML_FIELDS remove_field h
  | _ => raise (TypeError "dict")
  end.

Definition apply_removal (cleaned : string) (rule : pattern * string)
  : M value string :=
  let matches := findall (compiled rule.1) (chars cleaned) in
  match matches with
  | [] => mret cleaned
  | _ =>
      add_change (ReplacedPattern (length matches)
                    (String.substring 0 30 (source rule.1)));;
      mret (str_of (sub (compiled rule.1) (chars rule.2) (chars cleaned)))
  end.

Definition check_warning (cleaned : string) (rule : pattern * string)
  : M value string :=
  let matches := findall (compiled rule.1) (chars cleaned) in
  match matches with
  | [] => mret cleaned
  | _ => warn (FoundPattern (length matches) rule.2);; mret cleaned
  end.

Definition clean_content (content : string) : M value string :=
  cleaned ← for_each CC_PATTERNS apply_removal content;
  for_each WARNING_PATTERNS check_warning cleaned.

Definition convert_skill_md (out_dir : path) : M value unit :=
  let skill_md := joinpath (skill_path self) "SKILL.md" in
  content ← fs_read (read_text skill_md);
  parsed ← parse_frontmatter content;
  cleaned_frontmatter ← clean_frontmatter parsed.1;
  cleaned_body ← clean_content parsed.2;
  let frontmatter_str := yaml_dump cleaned_frontmatter in
  let new_content :=
    ("---" +:+ str_of [nl] +:+ frontmatter_str +:+ "---" +:+ str_of [nl]
     +:+ cleaned_body)%string in
  let output_file := joinpath out_dir "SKILL.md" in
  (if dry_run self then mret tt
   else fs_call (write_file output_file new_content));;
  log LogConverted.

(** One turn of the loop of [bundle_references]; [acc] is
    [(total_size, files_copied)]. *)
Definition bundle_one (out_dir : path) (acc : N * nat) (ref_file : path)
  : M value (N * nat) :=
  t ← get_files;
  match node_at ref_file t with
  | Some (File data) =>
      match relative_to ref_file (skill_path self) with
      | None => raise (ValueError "relative_to")
      | Some rel_path =>
          if should_exclude rel_path then
            log (LogExcluded rel_path);; mret acc
          else
            let file_size := size_of data in
            if (MAX_SINGLE_FILE <? file_size)%N then
              warn (FileTooLarge file_size rel_path);; mret acc
            else
              let dest := out_dir ++ rel_path in
              (if dry_run self then mret tt
               else
                 fs_call (mkdir_parents true (parent dest));;
                 fs_call (copy2 ref_file dest));;
              log (LogBundled rel_path);;
              mret ((acc.1 + file_size)%N, S acc.2)
      end
  | _ => mret acc
  end.

(** The walk [refs_dir.rglob] is the listing of what lies under
    [refs_dir] when the loop begins; the script lists each directory as
    it comes to it, which is the same as long as nothing is copied into
    [refs_dir], that is, when the staging directory is apart from it. *)
Definition bundle_references (out_dir : path) : M value unit :=
  let refs_dir := joinpath (skill_path self) "references" in
  t ← get_files;
  if negb (exists_ refs_dir t) then log LogNoReferences
  else
    acc ← for_each (rglob refs_dir t) (bundle_one out_dir) (0%N, 0);
    (if (WARN_TOTAL_SIZE <? acc.1)%N then warn (TotalSizeExceeds acc.1)
     else mret tt);;
    add_change (BundledFiles acc.2 acc.1).

(** One turn of the loop of [create_zip]: [zf.write(file_path, arc_name)]
    for a regular file. *)
Definition zip_one (temp_dir : path) (members : list (path * string))
    (file_path : path) : M value (list (path * string)) :=
  t ← get_files;
  match node_at file_path t with
  | Some (File data) =>
      match relative_to file_path temp_dir with
      | None => raise (ValueError "relative_to")
      | Some arc_name => mret (members ++ [(arc_name, data)])
      end
  | _ => mret members
  end.

Definition create_zip (temp_dir : path) : M value path :=
  let zip_name := (skill_name +:+ ".zip")%string in
  let zip_path := joinpath (output_dir self) zip_name in
  if dry_run self then
    log (LogWouldCreate zip_path);; mret zip_path
  else
    t ← get_files;
    (if exists_ zip_path t then fs_call (unlink zip_path) else mret tt);;
    (* [with zipfile.ZipFile(zip_path, 'w', ...) as zf:] opens the file,
       and writes the archive when the block is left *)
    fs_call (write_file zip_path "");;
    let skill_dir := joinpath temp_dir skill_name in
    t ← get_files;
    members ← for_each (rglob skill_dir t) (zip_one temp_dir) [];
    fs_call (write_file zip_path (zip_bytes members));;
    let zip_size := size_of (zip_bytes members) in
    add_change (CreatedZip zip_name zip_size);;
    mret zip_path.

Definition report : M value unit :=
  print PChangesMade;;
  st ← (λ st, (Ok st, st));
  for_each (changes st) (λ _ c, print (PChange c)) tt;;
  (match warnings st with
   | [] => mret tt
   | ws =>
       print (PWarnings (length ws));;
       for_each ws (λ _ w, print (PWarningLine w)) tt
   end);;
  if dry_run self then mret tt
  else
    print (POutput (joinpath (output_dir self) (skill_name +:+ ".zip")));;
    print PUploadTo.

Definition temp_dir : path :=
  joinpath (output_dir self) ("." +:+ skill_name +:+ "_temp").
Definition converted_dir : path := joinpath temp_dir skill_name.

(** The first two statements of the [try] block: a staging directory left
    by an earlier run is removed, and a new one is made. *)
Definition prepare_staging : M value unit :=
  t ← get_files;
  (if exists_ temp_dir t then fs_call (rmtree temp_dir) else mret tt);;
  fs_call (mkdir_parents false converted_dir).

(** The statements of the [try] block that follow: transform, copy,
    archive, and the report. *)
Definition transform_copy_archive : M value (option path) :=
  convert_skill_md converted_dir;;
  bundle_references converted_dir;;
  zip_path ← create_zip temp_dir;
  report;;
  mret (Some zip_path).

(** The [try] block of [convert]. *)
Definition convert_body : M value (option path) :=
  prepare_staging;;
  transform_copy_archive.

(** The [finally] block of [convert]. *)
Definition cleanup : M value unit :=
  t ← get_files;
  if exists_ temp_dir t && negb (dry_run self) then fs_call (rmtree temp_dir)
  else mret tt.

Definition convert : M value (option path) :=
  print (PConverting skill_name);;
  valid ← validate_skill;
  if negb valid then mret None
  else
    try_except_finally
      convert_body
      (λ e, print (PConversionError e);; mret None)
      cleanup.

(** [main] after the arguments are parsed; the result is the argument of
    [sys.exit]. *)
Definition main : M value nat :=
  fs_call (mkdir_parents true (output_dir self));;
  result ← convert;
  match result with
  | Some _ => print PSuccessful;; mret 0
  | None => print PFailed;; mret 1
  end.

End Converter.

(** The exit status of the process: that of [sys.exit], and 1 when an
    exception is not caught. *)
Definition exit_status {value} (r : outcome nat * state value) : nat :=
  match r.1 with
  | Ok code => code
  | Raise _ => 1
  end.


(** The state in which [convert] validates and converts: the first line
    is printed. *)
Definition started {value} (self : config) (st : state value) : state value :=
  State (files st) (changes st) (warnings st)
    (stdout st ++ [PConverting (skill_name self)]).

(** *** What the loops of [clean_content] compute

    The two loops only read the body, so their results are functions of
    it; they are used to state what [clean_content] returns. *)

Section Passes.
Context {value : Type}.

(** The body after the first loop of [clean_content]. *)
Fixpoint removal_text (rules : list (pattern * string)) (cleaned : string)
  : string :=
  match rules with
  | [] => cleaned
  | rule :: rules' =>
      match findall (compiled rule.1) (chars cleaned) with
      | [] => removal_text rules' cleaned
      | _ =>
          removal_text rules'
            (str_of (sub (compiled rule.1) (chars rule.2) (chars cleaned)))
      end
  end.

(** What the first loop appends to the change list. *)
Fixpoint removal_changes (rules : list (pattern * string)) (cleaned : string)
  : list (change value) :=
  match rules with
  | [] => []
  | rule :: rules' =>
      match findall (compiled rule.1) (chars cleaned) with
      | [] => removal_changes rules' cleaned
      | matches =>
          ReplacedPattern (length matches)
            (String.substring 0 30 (source rule.1))
          :: removal_changes rules'
               (str_of (sub (compiled rule.1) (chars rule.2) (chars cleaned)))
      end
  end.

(** The warnings of the second loop. *)
Fixpoint warning_pass (rules : list (pattern * string)) (cleaned : string)
  : list warning :=
  match rules with
  | [] => []
  | rule :: rules' =>
      match findall (compiled rule.1) (chars cleaned) with
      | [] => warning_pass rules' cleaned
      | matches =>
          FoundPattern (length matches) rule.2 :: warning_pass rules' cleaned
      end
  end.

(** What [warn] prints for the warnings [ws]. *)
Definition echo (self : config) (ws : list warning) : list (event value) :=
  if verbose self then PWarning <$> ws else [].

(** What [parse_frontmatter] returns for a content. *)
Definition parsed `{!Libraries value} (content : string)
  : outcome (yaml_doc value * string) :=
  match match_frontmatter (chars content) with
  | Some (frontmatter_str, body) =>
      match yaml_load (str_of frontmatter_str) with
      | Ok frontmatter => Ok (or_empty frontmatter, str_of body)
      | Raise e => Raise e
      end
  | None => Ok (YMapping ∅, content)
  end.

(** The header after the loop of [clean_frontmatter]. *)
Fixpoint stripped_header (self : config) (fields : list string)
    (h : gmap string value) : gmap string value :=
  match fields with
  | [] => h
  | field :: fields' =>
      match h !! field with
      | Some _ =>
          if keep_tools self then stripped_header self fields' h
          else stripped_header self fields' (delete field h)
      | None => stripped_header self fields' h
      end
  end.

(** What the loop appends to the change list. *)
Fixpoint header_changes (self : config) (fields : list string)
    (h : gmap string value) : list (change value) :=
  match fields with
  | [] => []
  | field :: fields' =>
      match h !! field with
      | Some removed_value =>
          if keep_tools self then header_changes self fields' h
          else RemovedField field removed_value
               :: header_changes self fields' (delete field h)
      | None => header_changes self fields' h
      end
  end.

(** The document [convert_skill_md] writes for a cleaned header and
    body. *)
Definition rendered `{!Libraries value} (h : gmap string value)
    (body : string) : string :=
  ("---" +:+ str_of [nl] +:+ yaml_dump h +:+ "---" +:+ str_of [nl]
   +:+ body)%string.

(** The members the loop of [create_zip] writes for the paths listed:
    the regular files among them, under their names relative to the
    staging directory. *)
Fixpoint archive_members (tmp : path) (t : fs) (paths : list path)
  : list (path * string) :=
  match paths with
  | [] => []
  | file_path :: paths' =>
      match node_at file_path t, relative_to file_path tmp with
      | Some (File data), Some arc_name =>
          (arc_name, data) :: archive_members tmp t paths'
      | _, _ => archive_members tmp t paths'
      end
  end.

End Passes.

(** *** What the loop of [bundle_references] counts

    The loop reads the files it walks; what it counts and what it warns
    of are functions of the bundle [skill] and of the file system. *)

(** One turn: the new [(total_size, files_copied)] and the warning. *)
Definition scan_one (skill : path) (t : fs) (acc : N * nat) (ref_file : path)
  : (N * nat) * list warning :=
  match node_at ref_file t with
  | Some (File data) =>
      match relative_to ref_file skill with
      | None => (acc, [])
      | Some rel_path =>
          if should_exclude rel_path then (acc, [])
          else
            let file_size := size_of data in
            if (MAX_SINGLE_FILE <? file_size)%N then
              (acc, [FileTooLarge file_size rel_path])
            else (((acc.1 + file_size)%N, S acc.2), [])
      end
  | _ => (acc, [])
  end.

Fixpoint scan (skill : path) (t : fs) (paths : list path) (acc : N * nat)
  : (N * nat) * list warning :=
  match paths with
  | [] => (acc, [])
  | ref_file :: paths' =>
      ((scan skill t paths' (scan_one skill t acc ref_file).1).1,
       (scan_one skill t acc ref_file).2
       ++ (scan skill t paths' (scan_one skill t acc ref_file).1).2)
  end.

(** What [bundle_references] appends to the two lists. *)
Definition bundle_report {value} (skill : path) (t : fs)
  : list (change value) * list warning :=
  let refs_dir := joinpath skill "references" in
  if exists_ refs_dir t then
    let counted := scan skill t (rglob refs_dir t) (0%N, 0) in
    ([BundledFiles counted.1.2 counted.1.1],
     counted.2 ++ if (WARN_TOTAL_SIZE <? counted.1.1)%N
                  then [TotalSizeExceeds counted.1.1] else [])
  else ([], []).

(** The text after the four removal rules, in their order. *)
Definition clean_text (s : text) : text :=
  sub bash_call (chars "[CLI command]")
    (sub mcp_name (chars "[MCP tool]")
       (sub mcp_call (chars "[MCP tool reference removed]")
          (sub backtick_call (chars "[MCP tool reference removed]") s))).

(** *** More of what the steps compute *)

(** [m in s] for texts. *)
Fixpoint occurs (m s : text) : bool :=
  starts_with m s
  || match s with
     | [] => false
     | _ :: s' => occurs m s'
     end.

(** [str.endswith] *)
Definition endswith (s suf : string) : bool :=
  starts_with (reverse (chars suf)) (reverse (chars s)).

(** The walked files that [bundle_references] counts: the regular files
    that no rule excludes and that are not over the limit. *)
Definition bundled (skill : path) (t : fs) (ref_file : path) : bool :=
  match node_at ref_file t, relative_to ref_file skill with
  | Some (File data), Some rel_path =>
      negb (should_exclude rel_path)
      && negb (MAX_SINGLE_FILE <? size_of data)%N
  | _, _ => false
  end.

(** The warning for a walked file over the limit. *)
Definition too_large (skill : path) (t : fs) (ref_file : path)
  : option warning :=
  match node_at ref_file t, relative_to ref_file skill with
  | Some (File data), Some rel_path =>
      if should_exclude rel_path then None
      else if (MAX_SINGLE_FILE <? size_of data)%N
           then Some (FileTooLarge (size_of data) rel_path)
           else None
  | _, _ => None
  end.

(** [st_size] of the regular file at [p]. *)
Definition file_size (t : fs) (p : path) : N :=
  match node_at p t with
  | Some (File data) => size_of data
  | _ => 0%N
  end.

Definition sizes (t : fs) (paths : list path) : N :=
  foldr (λ p n, (file_size t p + n)%N) 0%N paths.

(** The lines [report] prints in the state [st]. *)
Definition printed_report {value} (self : config) (st : state value)
  : list (event value) :=
  [PChangesMade] ++ (PChange <$> changes st)
  ++ match warnings st with
     | [] => []
     | ws => PWarnings (length ws) :: (PWarningLine <$> ws)
     end
  ++ if dry_run self then []
     else [POutput (joinpath (output_dir self) (skill_name self +:+ ".zip"));
           PUploadTo].

(** *** What a conversion may touch *)

Section Touched.
Variable self : config.

(** The output directory and the directories above it are there. *)
Definition ready (t : fs) : Prop :=
  ∀ a, under a (output_dir self) = true → node_at a t = Some Dir.

(** From a file system with its output directory, only paths in
    [allowed] are changed. *)
Definition only_touches (allowed : path → bool) : relation fs :=
  λ t t', ready t →
          ready t' ∧ ∀ q, allowed q = false → node_at q t' = node_at q t.

(** No regular file is made or rewritten. *)
Definition no_new_file : relation fs :=
  λ t t', ∀ q data, node_at q t' = Some (File data) →
                    node_at q t = Some (File data).

(** The directories outside the staging directory stay. *)
Definition outer_dirs_kept : relation fs :=
  λ t t', ∀ q, under (temp_dir self) q = false →
               node_at q t = Some Dir → node_at q t' = Some Dir.

End Touched.

(** The directories of [out] in [t] are directories of the bundle
    [skill] in [t0]. *)
Definition mirrors (skill out : path) (t0 t : fs) : Prop :=
  ∀ k, k ≠ [] → node_at (out ++ k) t = Some Dir →
       node_at (skill ++ k) t0 = Some Dir.

(** * What is stated of the script

    The relations and predicates in which the steps of the converter are
    described. *)

Section Vocabulary.
Context {value : Type}.
Implicit Types (self : config) (st : state value).

(** Whatever the outcome, the state after [c] is related to the one
    before. *)
Definition preserves {A} (R : relation (state value)) (c : M value A) : Prop :=
  ∀ st, R st (c st).2.

(** A relation between the file systems before and after. *)
Definition on_files (Rf : relation fs) : relation (state value) :=
  λ st st', Rf (files st) (files st').

(** The two lists of the converter are as before. *)
Definition same_lists : relation (state value) :=
  λ st st', changes st' = changes st ∧ warnings st' = warnings st.

(** The change list is as before. *)
Definition same_changes : relation (state value) :=
  λ st st', changes st' = changes st.

(** The outcome of [c] in [st], the file system it leaves and what it
    appends to the two lists; what it prints is left open. *)
Definition yields {A} (c : M value A) st (r : outcome A) (t' : fs)
    (cs : list (change value)) (ws : list warning) : Prop :=
  ∃ st', c st = (r, st') ∧ files st' = t' ∧
         changes st' = changes st ++ cs ∧ warnings st' = warnings st ++ ws.

(** If [c] returns in [st], it returns [a], leaves a file system related
    by [R] and appends [cs] and [ws] to the two lists. *)
Definition ok_yields {A} (R : relation fs) (c : M value A) st (a : A)
    (cs : list (change value)) (ws : list warning) : Prop :=
  ∀ a' st', c st = (Ok a', st') →
    a' = a ∧ R (files st) (files st') ∧
    changes st' = changes st ++ cs ∧ warnings st' = warnings st ++ ws.

(** Two states with the same file system, change list and warning
    list: they differ at most in what has been printed. *)
Definition same_outcome st st' : Prop :=
  files st = files st' ∧ changes st = changes st' ∧
  warnings st = warnings st'.

(** From such states, [c] and [c'] end alike and leave such states. *)
Definition agree {A} (c c' : M value A) : Prop :=
  ∀ st st', same_outcome st st' →
            (c st).1 = (c' st').1 ∧ same_outcome (c st).2 (c' st').2.

(** [c] only prints. *)
Definition silent (c : M value unit) : Prop :=
  ∀ st, (c st).1 = Ok tt ∧ same_outcome st (c st).2.

End Vocabulary.

(** What [validate_skill] checks. *)
Definition valid (self : config) (t : fs) : bool :=
  exists_ (skill_path self) t && is_dir (skill_path self) t
  && exists_ (joinpath (skill_path self) "SKILL.md") t.

(** Where [create_zip] writes the archive. *)
Definition zip_path (self : config) : path :=
  joinpath (output_dir self) (skill_name self +:+ ".zip").

(** Every directory is still one afterwards. *)
Definition dirs_kept : relation fs :=
  λ t t', ∀ q, node_at q t = Some Dir → node_at q t' = Some Dir.

Section StagedFiles.
Variable self : config.

Let output_file := joinpath (converted_dir self) "SKILL.md".
Let staged_refs := converted_dir self ++ ["references"%string].

(** The files in the staging directory are the document and what lies
    under its [references]. *)
Definition staged_shape (t : fs) : Prop :=
  ∀ q data, node_at q t = Some (File data) →
            under (temp_dir self) q = true →
            q = output_file ∨ under staged_refs q = true.

Definition keeps_shape : relation fs :=
  λ t t', staged_shape t → staged_shape t'.

(** The document staged is still there after the copying. *)
Definition keeps_document : relation fs :=
  λ t t', ∀ n, node_at output_file t = Some n → node_at output_file t' = Some n.

End StagedFiles.

(** ** A small instance, for running the converter on examples *)

Module Demo.

(** One [key: value] pair on each line; values are kept as text. *)
Fixpoint split_on (sep : ascii) (s : text) : list text :=
  match s with
  | [] => [[]]
  | c :: s' =>
      if Ascii.eqb c sep then [] :: split_on sep s'
      else match split_on sep s' with
           | l :: ls => (c :: l) :: ls
           | [] => [[c]]
           end
  end.

Fixpoint key_value (line : text) : option (text * text) :=
  match line with
  | [] => None
  | c :: line' =>
      if Ascii.eqb c ":" then Some ([], List.tl line')
      else (λ kv, (c :: kv.1, kv.2)) <$> key_value line'
  end.

Fixpoint load_lines (lines : list text) : outcome (gmap string string) :=
  match lines with
  | [] => Ok ∅
  | l :: ls =>
      match key_value l, load_lines ls with
      | Some (k, v), Ok m => Ok (<[str_of k := str_of v]> m)
      | None, _ => Raise (YAMLError (str_of l))
      | _, Raise e => Raise e
      end
  end.

Definition load (s : string) : outcome (yaml_doc string) :=
  match chars s with
  | [] => Ok YFalsy
  | cs => match load_lines (split_on nl cs) with
          | Ok m => Ok (YMapping m)
          | Raise e => Raise e
          end
  end.

Definition dump (h : gmap string string) : string :=
  str_of (concat ((λ kv, chars kv.1 ++ chars ": " ++ chars kv.2 ++ [nl])
                    <$> map_to_list h)).

Definition archive (members : list (path * string)) : string :=
  str_of (concat ((λ m, chars (path_str m.1) ++ chars "=" ++ chars m.2 ++ chars ";")
                    <$> members)).

Global Instance libs : Libraries string :=
  {| yaml_load := load; yaml_dump := dump; zip_bytes := archive |}.

Definition lines (ls : list string) : string :=
  str_of (concat ((λ l, chars l ++ [nl]) <$> ls)).

Definition demo_cfg (dry : bool) : config :=
  {| skill_path := ["home"; "skills"; "demo"];
     output_dir := ["home"; "out"];
     verbose := false; dry_run := dry; keep_tools := false;
     inline_refs := false |}%string.

Definition demo_fs : fs :=
  [ (["home"], Dir);
    (["home"; "skills"], Dir);
    (["home"; "skills"; "demo"], Dir);
    (["home"; "skills"; "demo"; "SKILL.md"],
      File (lines ["---"; "allowed-tools: Bash"; "title: Demo"; "---";
                   "Run Bash(ls) now."]));
    (["home"; "skills"; "demo"; "references"], Dir);
    (["home"; "skills"; "demo"; "references"; "guide.md"], File "guide");
    (["home"; "skills"; "demo"; "references"; "scripts"], Dir);
    (["home"; "skills"; "demo"; "references"; "scripts"; "run.py"], File "print(1)");
    (["home"; "skills"; "demo"; "references"; "cache.pyc"], File "xx")
  ]%string.

Definition start (t : fs) : state string := State t [] [] [].

End Demo.

(** A bundle [demo] whose primary document is a directory: reading it
    raises. *)
Definition unreadable_fs : fs :=
  [ (["home"], Dir);
    (["home"; "skills"], Dir);
    (["home"; "skills"; "demo"], Dir);
    (["home"; "skills"; "demo"; "SKILL.md"], Dir);
    (["home"; "out"], Dir)
  ]%string.



(** The bundle [demo] beside an output directory that holds the archive
    of an earlier run and another file. *)
Definition with_output_fs : fs :=
  Demo.demo_fs ++
  [ (["home"; "out"], Dir);
    (["home"; "out"; "demo.zip"], File "old");
    (["home"; "out"; "notes.txt"], File "keep")
  ]%string.

(** The same, with a regular file where the staging directory goes. *)
Definition staging_file_fs : fs :=
  Demo.demo_fs ++
  [ (["home"; "out"], Dir);
    (["home"; "out"; ".demo_temp"], File "x")
  ]%string.

(** The same, with a directory where the archive goes. *)
Definition archive_dir_fs : fs :=
  Demo.demo_fs ++
  [ (["home"; "out"], Dir);
    (["home"; "out"; "demo.zip"], Dir)
  ]%string.

(** A bundle [demo] whose document is the one a conversion of
    [Demo.demo_fs] writes. *)
Definition converted_fs : fs :=
  [ (["home"], Dir);
    (["home"; "skills"], Dir);
    (["home"; "skills"; "demo"], Dir);
    (["home"; "skills"; "demo"; "SKILL.md"],
      File (Demo.lines ["---"; "title: Demo"; "---";
                        "Run [CLI command] now."]));
    (["home"; "out"], Dir)
  ]%string.

(** * Facts about the matcher *)

Module ReFacts.
Import Re.

Lemma chars_str_of (t : text) : chars (str_of t) = t.
Proof. apply String.list_ascii_of_string_of_list_ascii. Qed.

Lemma str_of_chars (s : string) : str_of (chars s) = s.
Proof. apply String.string_of_list_ascii_of_string. Qed.

(** The matcher finds only words of the pattern. *)
Lemma greedy_sound cls k (L : text → Prop) :
  (∀ s rest, k s = Some rest → ∃ w, s = w ++ rest ∧ L w) →
  ∀ s rest, greedy cls k s = Some rest →
    ∃ u w, forallb cls u = true ∧ s = u ++ w ++ rest ∧ L w.
Proof.
  intros Hk s. induction s as [|c s IH]; intros rest; simpl.
  - intros (w & -> & Hw)%Hk. by exists [], w.
  - destruct (cls c) eqn:Hc.
    + destruct (greedy cls k s) as [r'|] eqn:Hg.
      * intros [= ->]. destruct (IH _ eq_refl) as (u & w & Hu & -> & Hw).
        exists (c :: u), w. simpl. by rewrite Hc, Hu.
      * intros (w & Hs & Hw)%Hk. by exists [], w.
    + intros (w & Hs & Hw)%Hk. by exists [], w.
Qed.

Lemma lazy_sound cls k (L : text → Prop) :
  (∀ s rest, k s = Some rest → ∃ w, s = w ++ rest ∧ L w) →
  ∀ s rest, lazy cls k s = Some rest →
    ∃ u w, forallb cls u = true ∧ s = u ++ w ++ rest ∧ L w.
Proof.
  intros Hk s. induction s as [|c s IH]; intros rest; simpl.
  - destruct (k []) eqn:Hk0; [|done].
    intros [= ->]. apply Hk in Hk0 as (w & Hs & Hw). by exists [], w.
  - destruct (k (c :: s)) eqn:Hk0.
    + intros [= ->]. apply Hk in Hk0 as (w & Hs & Hw). by exists [], w.
    + destruct (cls c) eqn:Hc; [|done].
      intros (u & w & Hu & -> & Hw)%IH.
      exists (c :: u), w. simpl. by rewrite Hc, Hu.
Qed.

Lemma matcher_sound r :
  ∀ s rest, matcher r s = Some rest → ∃ w, s = w ++ rest ∧ lang r w.
Proof.
  induction r as [|a r IH]; intros s rest; simpl.
  - intros [= ->]. by exists [].
  - destruct a as [c|cls|cls|cls].
    + destruct s as [|x s]; [done|].
      destruct (Ascii.eqb_spec x c) as [->|]; [|done].
      intros (w & -> & Hw)%IH. exists (c :: w). eauto.
    + destruct s as [|x s]; [done|].
      destruct (cls x) eqn:Hx; [|done].
      intros (u & w & Hu & -> & Hw)%(greedy_sound _ _ (lang r) IH).
      exists ((x :: u) ++ w). split; [by rewrite <-!app_assoc|].
      exists (x :: u), w. simpl. by rewrite Hx, Hu.
    + intros (u & w & Hu & -> & Hw)%(greedy_sound _ _ (lang r) IH).
      exists (u ++ w). split; [by rewrite <-app_assoc|]. by exists u, w.
    + intros (u & w & Hu & -> & Hw)%(lazy_sound _ _ (lang r) IH).
      exists (u ++ w). split; [by rewrite <-app_assoc|]. by exists u, w.
Qed.

(** The matcher finds a match wherever a word of the pattern starts. *)
Lemma greedy_keeps cls k s : is_Some (k s) → is_Some (greedy cls k s).
Proof.
  intros Hk. destruct s as [|c s]; simpl; [done|].
  destruct (cls c); [|done]. by destruct (greedy cls k s).
Qed.

Lemma greedy_complete cls k u s :
  forallb cls u = true → is_Some (k s) → is_Some (greedy cls k (u ++ s)).
Proof.
  intros Hu Hk. induction u as [|c u IH]; simpl.
  - by apply greedy_keeps.
  - simpl in Hu. apply andb_true_iff in Hu as [-> Hu].
    destruct (IH Hu) as [r ->]. eauto.
Qed.

Lemma lazy_complete cls k u s :
  forallb cls u = true → is_Some (k s) → is_Some (lazy cls k (u ++ s)).
Proof.
  intros Hu Hk. induction u as [|c u IH]; simpl.
  - destruct s; simpl; by destruct Hk as [? ->].
  - simpl in Hu. apply andb_true_iff in Hu as [-> Hu].
    destruct (k (c :: u ++ s)); [done|]. by apply IH.
Qed.

Lemma matcher_complete r :
  ∀ w rest, lang r w → is_Some (matcher r (w ++ rest)).
Proof.
  induction r as [|a r IH]; intros w rest; simpl.
  - intros ->. done.
  - destruct a as [c|cls|cls|cls].
    + intros (w' & -> & Hw). simpl. rewrite Ascii.eqb_refl. by apply IH.
    + intros (u & w' & Hne & Hu & -> & Hw).
      destruct u as [|x u]; [done|]. simpl in *.
      apply andb_true_iff in Hu as [-> Hu].
      rewrite <-app_assoc. apply greedy_complete; [done|]. by apply IH.
    + intros (u & w' & Hu & -> & Hw).
      rewrite <-app_assoc. apply greedy_complete; [done|]. by apply IH.
    + intros (u & w' & Hu & -> & Hw).
      rewrite <-app_assoc. apply lazy_complete; [done|]. by apply IH.
Qed.

Lemma lang_app r1 r2 w :
  lang (r1 ++ r2) w ↔ ∃ w1 w2, w = w1 ++ w2 ∧ lang r1 w1 ∧ lang r2 w2.
Proof.
  revert w. induction r1 as [|a r1 IH]; intros w; simpl.
  - split.
    + intros Hw. by exists [], w.
    + by intros (w1 & w2 & -> & -> & Hw).
  - destruct a as [c|cls|cls|cls]; split.
    + intros (w' & -> & (w1 & w2 & -> & H1 & H2)%IH).
      exists (c :: w1), w2. eauto.
    + intros (w1 & w2 & -> & (w' & -> & H1) & H2).
      exists (w' ++ w2). split; [done|]. apply IH. eauto.
    + intros (u & w' & Hne & Hu & -> & (w1 & w2 & -> & H1 & H2)%IH).
      exists (u ++ w1), w2. split; [by rewrite app_assoc|].
      split; [|done]. by exists u, w1.
    + intros (w1 & w2 & -> & (u & w' & Hne & Hu & -> & H1) & H2).
      exists u, (w' ++ w2). split_and!; [done..|by rewrite app_assoc|].
      apply IH. eauto.
    + intros (u & w' & Hu & -> & (w1 & w2 & -> & H1 & H2)%IH).
      exists (u ++ w1), w2. split; [by rewrite app_assoc|].
      split; [|done]. by exists u, w1.
    + intros (w1 & w2 & -> & (u & w' & Hu & -> & H1) & H2).
      exists u, (w' ++ w2). split_and!; [done|by rewrite app_assoc|].
      apply IH. eauto.
    + intros (u & w' & Hu & -> & (w1 & w2 & -> & H1 & H2)%IH).
      exists (u ++ w1), w2. split; [by rewrite app_assoc|].
      split; [|done]. by exists u, w1.
    + intros (w1 & w2 & -> & (u & w' & Hu & -> & H1) & H2).
      exists u, (w' ++ w2). split_and!; [done|by rewrite app_assoc|].
      apply IH. eauto.
Qed.

Lemma lang_chr_list (l : text) w : lang (Chr <$> l) w ↔ w = l.
Proof.
  revert w. induction l as [|c l IH]; intros w; simpl; [done|].
  split.
  - intros (w' & -> & ->%IH). done.
  - intros ->. exists l. split; [done|]. by apply IH.
Qed.

Lemma lang_lit s w : lang (lit s) w ↔ w = chars s.
Proof. apply lang_chr_list. Qed.

(** *** Scanning *)

Lemma match_len_spec r s n :
  match_len r s = Some n →
  ∃ w, length w = n ∧ lang r w ∧ s = w ++ drop n s ∧
       matcher r s = Some (drop n s).
Proof.
  unfold match_len. destruct (matcher r s) as [rest|] eqn:Hm; [|done].
  intros [= <-]. destruct (matcher_sound _ _ _ Hm) as (w & -> & Hw).
  rewrite length_app, Nat.add_sub, drop_app_length. eauto.
Qed.

Lemma match_len_None r s : match_len r s = None ↔ matcher r s = None.
Proof. unfold match_len. by destruct (matcher r s). Qed.

Lemma matcher_nonempty r s rest :
  nonempty r → matcher r s = Some rest → length rest < length s.
Proof.
  intros Hne (w & -> & Hw)%matcher_sound. rewrite length_app.
  destruct w; [done|]. simpl. lia.
Qed.

Lemma sub_scan_skip r repl n s :
  n ≤ length s → sub_scan r repl n s = sub_scan r repl 0 (drop n s).
Proof.
  revert s. induction n as [|n IH]; intros s Hn; [done|].
  destruct s as [|c s]; simpl in *; [lia|]. apply IH. lia.
Qed.

Lemma findall_scan_skip r n s :
  n ≤ length s → findall_scan r n s = findall_scan r 0 (drop n s).
Proof.
  revert s. induction n as [|n IH]; intros s Hn; [done|].
  destruct s as [|c s]; simpl in *; [lia|]. apply IH. lia.
Qed.

Lemma suffix_cons_cases {A} (t : list A) c s :
  t `suffix_of` c :: s → t = c :: s ∨ t `suffix_of` s.
Proof.
  intros [[|a k] Hk]; simplify_eq/=; [by left|]. right. by exists k.
Qed.

Section Scan.
Context (r : regex) (repl : text) (Hne : nonempty r).

Lemma sub_nil : sub r repl [] = [].
Proof.
  unfold sub. simpl. destruct (match_len r []) eqn:Hm; [|done].
  apply match_len_spec in Hm as (w & Hw & Hl & Hs & _).
  destruct w; [by apply Hne in Hl|done].
Qed.

Lemma sub_miss c s :
  matcher r (c :: s) = None → sub r repl (c :: s) = c :: sub r repl s.
Proof.
  intros Hm. unfold sub. simpl.
  by rewrite (proj2 (match_len_None _ _) Hm).
Qed.

Lemma sub_hit s rest :
  matcher r s = Some rest → sub r repl s = repl ++ sub r repl rest.
Proof.
  intros Hm. pose proof (matcher_nonempty _ _ _ Hne Hm) as Hlt.
  destruct s as [|c s]; simpl in *; [lia|].
  unfold sub. simpl. unfold match_len. rewrite Hm. simpl.
  destruct (matcher_sound _ _ _ Hm) as (w & Hs & Hw).
  assert (length (c :: s) = length w + length rest) as Hlen
    by (by rewrite Hs, length_app).
  simpl in Hlen.
  replace (S (length s) - length rest) with (S (length s - length rest))
    by lia.
  f_equal. rewrite sub_scan_skip by lia. f_equal.
  destruct w as [|x w]; simpl in *; [lia|]. injection Hs as -> ->.
  rewrite length_app. replace (length w + length rest - length rest)
    with (length w) by lia.
  by rewrite drop_app_length.
Qed.

Lemma findall_nil : findall r [] = [].
Proof.
  unfold findall. simpl. destruct (match_len r []) eqn:Hm; [|done].
  apply match_len_spec in Hm as (w & Hw & Hl & Hs & _).
  destruct w; [by apply Hne in Hl|done].
Qed.

Lemma findall_miss c s :
  matcher r (c :: s) = None → findall r (c :: s) = findall r s.
Proof.
  intros Hm. unfold findall. simpl.
  by rewrite (proj2 (match_len_None _ _) Hm).
Qed.

Lemma findall_hit s rest :
  matcher r s = Some rest → findall r s ≠ [].
Proof.
  intros Hm. pose proof (matcher_nonempty _ _ _ Hne Hm) as Hlt.
  destruct s as [|c s]; simpl in *; [lia|].
  unfold findall. simpl. unfold match_len. rewrite Hm. simpl.
  by destruct (S (length s) - length rest).
Qed.

(** Induction along the scan of [sub]. *)
Lemma sub_ind (P : text → text → Prop) :
  P [] [] →
  (∀ c s, matcher r (c :: s) = None →
          P s (sub r repl s) → P (c :: s) (c :: sub r repl s)) →
  (∀ w rest, w ≠ [] → lang r w → matcher r (w ++ rest) = Some rest →
             P rest (sub r repl rest) →
             P (w ++ rest) (repl ++ sub r repl rest)) →
  ∀ s, P s (sub r repl s).
Proof.
  intros Hnil Hmiss Hhit s.
  cut (∀ n s', length s' < n → P s' (sub r repl s')).
  { intros H. apply (H (S (length s))). lia. }
  clear s. intros n. induction n as [|n IH']; intros s Hn; [lia|].
  destruct s as [|c s]; [by rewrite sub_nil|].
  destruct (matcher r (c :: s)) as [rest|] eqn:Hm.
  - rewrite (sub_hit _ _ Hm).
    pose proof (matcher_nonempty _ _ _ Hne Hm) as Hlt.
    destruct (matcher_sound _ _ _ Hm) as (w & Hs & Hw).
    rewrite Hs in Hm |- *. apply Hhit; [|done..|apply IH'; lia].
    intros ->. by apply Hne.
  - rewrite (sub_miss _ _ Hm). apply Hmiss; [done|]. apply IH'.
    simpl in Hn. lia.
Qed.

Lemma no_match_suffix r' s t :
  no_match r' s → t `suffix_of` s → no_match r' t.
Proof. intros Hs Ht u Hu. apply Hs. by etrans. Qed.

Lemma no_match_cons r' c s :
  matcher r' (c :: s) = None → no_match r' s → no_match r' (c :: s).
Proof.
  intros Hc Hs t [->|Ht]%suffix_cons_cases; [done|]. by apply Hs.
Qed.

Lemma findall_no_match s : findall r s = [] ↔ no_match r s.
Proof.
  induction s as [|c s IH].
  - rewrite findall_nil. split; [|done].
    intros _ t ->%suffix_nil_inv.
    destruct (matcher r []) eqn:Hm; [|done].
    apply (matcher_nonempty _ _ _ Hne) in Hm. simpl in Hm. lia.
  - destruct (matcher r (c :: s)) as [rest|] eqn:Hm.
    + split.
      * intros Hf. by apply findall_hit in Hm.
      * intros Hs. rewrite Hs in Hm; done.
    + rewrite (findall_miss _ _ Hm), IH. split.
      * intros Hs. by apply no_match_cons.
      * intros Hs. eapply no_match_suffix; [done|]. by apply suffix_cons_r.
Qed.

Lemma sub_no_match s : no_match r s → sub r repl s = s.
Proof.
  induction s as [|c s IH]; intros Hs; [by rewrite sub_nil|].
  rewrite sub_miss by (by apply Hs). f_equal. apply IH.
  eapply no_match_suffix; [done|]. by apply suffix_cons_r.
Qed.

(** A character that does not begin the replacement is copied from
    the input, and so is a run of them. *)
Lemma sub_copied h repl' w :
  repl = h :: repl' → h ∉ w →
  ∀ s out, sub r repl s = w ++ out →
           ∃ s', s = w ++ s' ∧ out = sub r repl s'.
Proof.
  intros Hrepl. induction w as [|a w IH]; intros Hw s out Hs.
  { exists s. done. }
  apply not_elem_of_cons in Hw as [Ha Hw].
  destruct s as [|c s]; [by rewrite sub_nil in Hs|].
  destruct (matcher r (c :: s)) as [rest|] eqn:Hm.
  - rewrite (sub_hit _ _ Hm), Hrepl in Hs. simplify_eq/=.
  - rewrite (sub_miss _ _ Hm) in Hs. simplify_eq/=.
    destruct (IH Hw _ _ H0) as (s' & -> & ->). eauto.
Qed.

(** What [sub] leaves of a character that the replacement lacks was
    in the input. *)
Lemma sub_elem_of c s : c ∉ repl → c ∈ sub r repl s → c ∈ s.
Proof.
  intros Hc. revert s. apply (sub_ind (λ s out, c ∈ out → c ∈ s)).
  - done.
  - intros x s _ IH [->|Hin]%elem_of_cons; [left|right; auto].
  - intros w rest _ _ _ IH [Hin|Hin]%elem_of_app; [done|].
    apply elem_of_app. auto.
Qed.

Lemma tails_all_suffix P l k :
  tails_all P l → k ≠ [] → k `suffix_of` l → P k.
Proof.
  induction l as [|c l IH]; simpl.
  - intros _ Hk ->%suffix_nil_inv. done.
  - intros [Hl Hl'] Hk [->|Hs]%suffix_cons_cases; auto.
Qed.

Lemma suffix_app_cases (t l1 l2 : text) :
  t `suffix_of` l1 ++ l2 →
  t `suffix_of` l2 ∨ ∃ k, k ≠ [] ∧ k `suffix_of` l1 ∧ t = k ++ l2.
Proof.
  induction l1 as [|c l1 IH]; simpl; [by left|].
  intros [->|Hs]%suffix_cons_cases.
  - right. exists (c :: l1). done.
  - destruct (IH Hs) as [?|(k & Hk & Hk1 & ->)]; [by left|].
    right. exists k. split_and!; [done| |done]. by apply suffix_cons_r.
Qed.

(** [sub] leaves no match of [r'] behind when the replacement cannot
    begin one and a match of [r'] in the output at a copied position
    is one in the input. *)
Lemma sub_keeps_no_match r' s :
  tails_all (λ k, ∀ out, matcher r' (k ++ out) = None) repl →
  (∀ c s', matcher r (c :: s') = None →
           is_Some (matcher r' (c :: sub r repl s')) →
           is_Some (matcher r' (c :: s'))) →
  matcher r' [] = None →
  no_match r' s → no_match r' (sub r repl s).
Proof.
  intros Htails Hback Hnil. revert s.
  apply (sub_ind (λ s out, no_match r' s → no_match r' out)).
  - intros _ t ->%suffix_nil_inv. done.
  - intros c s Hm IH Hs. apply no_match_cons.
    + destruct (matcher r' (c :: sub r repl s)) eqn:Hm'; [|done].
      destruct (Hback c s Hm) as [x Hx]; [by rewrite Hm'|].
      rewrite Hs in Hx; done.
    + apply IH. eapply no_match_suffix; [done|]. by apply suffix_cons_r.
  - intros w rest Hw Hl Hm IH Hs t
      [Ht|(k & Hk & Hk1 & ->)]%suffix_app_cases.
    + apply IH; [|done]. eapply no_match_suffix; [done|].
      by apply suffix_app_r.
    + by apply (tails_all_suffix _ _ _ Htails Hk Hk1).
Qed.

(** The same for [r] itself: after [sub] no match of [r] is left. *)
Lemma sub_leaves_no_match s :
  tails_all (λ k, ∀ out, matcher r (k ++ out) = None) repl →
  (∀ c s', matcher r (c :: s') = None →
           is_Some (matcher r (c :: sub r repl s')) →
           is_Some (matcher r (c :: s'))) →
  no_match r (sub r repl s).
Proof.
  intros Htails Hback. revert s.
  apply (sub_ind (λ s out, no_match r out)).
  - intros t ->%suffix_nil_inv.
    destruct (matcher r []) eqn:Hm; [|done].
    apply (matcher_nonempty _ _ _ Hne) in Hm. simpl in Hm. lia.
  - intros c s Hm IH. apply no_match_cons; [|done].
    destruct (matcher r (c :: sub r repl s)) eqn:Hm'; [|done].
    destruct (Hback c s Hm) as [x Hx]; [by rewrite Hm'|]. congruence.
  - intros w rest Hw Hl Hm IH t
      [Ht|(k & Hk & Hk1 & ->)]%suffix_app_cases.
    + by apply IH.
    + by apply (tails_all_suffix _ _ _ Htails Hk Hk1).
Qed.

End Scan.

End ReFacts.

(** * Facts about the script's removal patterns *)

Module PatternFacts.
Import Re ReFacts.

Lemma nonempty_mcp_name : nonempty mcp_name.
Proof. intros (w & Hw & _). done. Qed.
Lemma nonempty_mcp_call : nonempty mcp_call.
Proof. intros (w & Hw & _). done. Qed.
Lemma nonempty_backtick_call : nonempty backtick_call.
Proof. intros (w & Hw & _). done. Qed.
Lemma nonempty_bash_call : nonempty bash_call.
Proof. intros (w & Hw & _). done. Qed.

Lemma is_word_not_bracket c : is_word c = true → c ≠ "["%char.
Proof. by intros Hc ->. Qed.

Lemma word_no_bracket (w : text) : forallb is_word w = true → "["%char ∉ w.
Proof.
  induction w as [|c w IH]; simpl; [intros _; apply not_elem_of_nil|].
  intros [Hc Hw]%andb_true_iff. apply not_elem_of_cons.
  split; [|by apply IH]. intros <-. done.
Qed.

(** A match of [mcp__\w+__\w+] is a run of word characters. *)
Lemma mcp_name_word w :
  lang mcp_name w → ∃ w', w = "m"%char :: w' ∧ forallb is_word w' = true.
Proof.
  intros Hw. cbn in Hw.
  destruct Hw as (w1 & -> & w2 & -> & w3 & -> & w4 & -> & w5 & -> &
    u & w6 & _ & Hu & -> & w7 & -> & w8 & -> & v & w9 & _ & Hv & -> & ->).
  eexists. split; [done|]. cbn.
  rewrite app_nil_r, forallb_app. cbn. by rewrite Hu, Hv.
Qed.

(** A match of [Bash\([^)]+\)]. *)
Lemma bash_call_lang w :
  lang bash_call w ↔
  ∃ x, w = chars "Bash(" ++ x ++ [")"%char] ∧ x ≠ [] ∧
       forallb not_rparen x = true.
Proof.
  cbn. split.
  - intros (w1 & -> & w2 & -> & w3 & -> & w4 & -> & w5 & -> &
      x & w6 & Hx & Hnr & -> & w7 & -> & ->).
    by exists x.
  - intros (x & -> & Hx & Hnr). do 5 (eexists; split; [done|]).
    exists x, [")"%char]. split_and!; [done..|]. by exists [].
Qed.

(** A match of [mcp__\w+__\w+] that starts at a copied character of
    the output of [sub] was in the input, when the replacement begins
    with a bracket. *)
Lemma mcp_name_back r repl' c s :
  nonempty r →
  is_Some (matcher mcp_name (c :: sub r ("["%char :: repl') s)) →
  is_Some (matcher mcp_name (c :: s)).
Proof.
  intros Hne [rest (w & Hs & Hw)%matcher_sound].
  destruct (mcp_name_word _ Hw) as (w' & -> & Hw'). simplify_eq/=.
  destruct (sub_copied r _ Hne "["%char repl' w' eq_refl
              (word_no_bracket _ Hw') _ _ H0) as (s' & -> & _).
  by apply (matcher_complete mcp_name ("m"%char :: w') s').
Qed.

(** The same for [Bash\([^)]+\)] and its own replacement. *)
Lemma bash_call_back c s :
  is_Some (matcher bash_call (c :: sub bash_call (chars "[CLI command]") s)) →
  is_Some (matcher bash_call (c :: s)).
Proof.
  pose proof nonempty_bash_call as Hne.
  intros [rest (w & Hs & (x & -> & Hx & Hnr)%bash_call_lang)%matcher_sound].
  change (chars "Bash(") with ("B"%char :: chars "ash(") in Hs.
  injection Hs as -> Hs.
  destruct (sub_copied bash_call _ Hne "["%char (chars "CLI command]")
              (chars "ash(") eq_refl) with (s := s) (out := x ++ [")"%char] ++ rest)
    as (s5 & -> & Hs5).
  { cbn. rewrite !not_elem_of_cons. split_and!; try done.
    apply not_elem_of_nil. }
  { rewrite <-!app_assoc in Hs. exact Hs. }
  assert (")"%char ∈ s5) as Hin.
  { apply (sub_elem_of bash_call (chars "[CLI command]") Hne).
    - cbn. rewrite !not_elem_of_cons. split_and!; try done.
      apply not_elem_of_nil.
    - change (chars "[CLI command]") with ("["%char :: chars "CLI command]").
      rewrite <-Hs5. set_solver. }
  apply list_elem_of_split_l in Hin as (l1 & l2 & -> & Hl1).
  assert (l1 ≠ []) as Hne1.
  { intros ->. destruct x as [|y x]; [done|]. cbn in Hnr.
    apply andb_true_iff in Hnr as [Hy _].
    destruct (matcher bash_call ([] ++ ")"%char :: l2)) eqn:Hm.
    - by apply matcher_sound in Hm as (w & Hw & (? & -> & _)%bash_call_lang).
    - cbn [app] in Hm, Hs5. rewrite sub_miss in Hs5 by done.
      injection Hs5 as -> _. done. }
  assert (lang bash_call (chars "Bash(" ++ l1 ++ [")"%char])) as Hl.
  { apply bash_call_lang. exists l1. split_and!; [done..|].
    apply forallb_forall. intros y Hy%list_elem_of_In. unfold not_rparen.
    destruct (Ascii.eqb_spec y ")"); [by subst|done]. }
  pose proof (matcher_complete bash_call _ l2 Hl) as Hc.
  rewrite <-!app_assoc in Hc. exact Hc.
Qed.

Local Ltac tails :=
  cbn; repeat split; intros; reflexivity.

Lemma bash_sub_clean s :
  no_match bash_call (sub bash_call (chars "[CLI command]") s).
Proof.
  apply sub_leaves_no_match.
  - apply nonempty_bash_call.
  - tails.
  - intros c s' _. apply bash_call_back.
Qed.

Lemma mcp_sub_clean s :
  no_match mcp_name (sub mcp_name (chars "[MCP tool]") s).
Proof.
  apply sub_leaves_no_match.
  - apply nonempty_mcp_name.
  - tails.
  - intros c s' _. apply mcp_name_back, nonempty_mcp_name.
Qed.

Lemma bash_keeps_mcp s :
  no_match mcp_name s →
  no_match mcp_name (sub bash_call (chars "[CLI command]") s).
Proof.
  apply sub_keeps_no_match.
  - apply nonempty_bash_call.
  - tails.
  - intros c s' _. apply mcp_name_back, nonempty_bash_call.
  - done.
Qed.

(** Where no [mcp__\w+__\w+] starts, neither of the two MCP call
    patterns has a match. *)
Lemma mcp_name_covers_call s : no_match mcp_name s → no_match mcp_call s.
Proof.
  intros Hs t Ht. destruct (matcher mcp_call t) as [rest|] eqn:Hm; [|done].
  apply matcher_sound in Hm as (w & -> & Hw).
  change mcp_call with (mcp_name ++ [Chr "("; Many0 not_rparen; Chr ")"])
    in Hw.
  apply lang_app in Hw as (w1 & w2 & -> & Hw1 & _).
  destruct (matcher_complete mcp_name w1 (w2 ++ rest) Hw1) as [x Hx].
  rewrite <-app_assoc in Ht. rewrite (Hs _ Ht) in Hx. done.
Qed.

Lemma mcp_name_covers_backtick s :
  no_match mcp_name s → no_match backtick_call s.
Proof.
  intros Hs t Ht.
  destruct (matcher backtick_call t) as [rest|] eqn:Hm; [|done].
  apply matcher_sound in Hm as (w & -> & Hw).
  change backtick_call
    with (lit "`" ++ mcp_name ++ [Chr "("; Many0 not_rparen; Chr ")"; Chr "`"])
    in Hw.
  apply lang_app in Hw as (w0 & w' & -> & ->%lang_lit & Hw).
  apply lang_app in Hw as (w1 & w2 & -> & Hw1 & _).
  destruct (matcher_complete mcp_name w1 (w2 ++ rest) Hw1) as [x Hx].
  rewrite (Hs (w1 ++ w2 ++ rest)) in Hx; [done|].
  etrans; [|exact Ht]. rewrite <-!app_assoc. by apply suffix_app_r.
Qed.

Lemma nonempty_removal rule :
  rule ∈ CC_PATTERNS → nonempty (compiled rule.1).
Proof.
  unfold CC_PATTERNS. rewrite !elem_of_cons, elem_of_nil.
  intros [->|[->|[->|[->|[]]]]]; simpl.
  - apply nonempty_backtick_call.
  - apply nonempty_mcp_call.
  - apply nonempty_mcp_name.
  - apply nonempty_bash_call.
Qed.

(** No removal pattern has a match in a cleaned text. *)
Lemma clean_text_no_match s rule :
  rule ∈ CC_PATTERNS → no_match (compiled rule.1) (clean_text s).
Proof.
  assert (no_match mcp_name (clean_text s)) as Hmcp
    by apply bash_keeps_mcp, mcp_sub_clean.
  unfold CC_PATTERNS. rewrite !elem_of_cons, elem_of_nil.
  intros [->|[->|[->|[->|[]]]]]; simpl.
  - by apply mcp_name_covers_backtick.
  - by apply mcp_name_covers_call.
  - done.
  - apply bash_sub_clean.
Qed.

End PatternFacts.

(** * Facts about paths and the file system *)

Module FsFacts.
Import Fs.

Section Lists.
Context `{EqDecision A}.
Implicit Types pre l k : list A.

Lemma starts_with_prefix pre l : starts_with pre l = true ↔ pre `prefix_of` l.
Proof.
  revert l. induction pre as [|x pre IH]; intros [|y l]; simpl.
  - split; [intros _; apply prefix_nil|done].
  - split; [intros _; apply prefix_nil|done].
  - split; [done|]. by intros ?%prefix_nil_inv.
  - rewrite andb_true_iff, bool_decide_eq_true, IH. split.
    + intros [-> Hp]. by apply prefix_cons.
    + intros Hp. split; [by apply prefix_cons_inv_1 in Hp|].
      by apply prefix_cons_inv_2 in Hp.
Qed.

Lemma starts_with_app pre k : starts_with pre (pre ++ k) = true.
Proof. apply starts_with_prefix. by apply prefix_app_r. Qed.

Lemma starts_with_refl l : starts_with l l = true.
Proof. by apply starts_with_prefix. Qed.

Lemma starts_with_inv pre l :
  starts_with pre l = true → ∃ k, l = pre ++ k.
Proof. intros [k ->]%starts_with_prefix. by exists k. Qed.

Lemma starts_with_trans l1 l2 l3 :
  starts_with l1 l2 = true → starts_with l2 l3 = true →
  starts_with l1 l3 = true.
Proof. rewrite !starts_with_prefix. apply transitivity. Qed.

Lemma starts_with_length pre l :
  starts_with pre l = true → length pre ≤ length l.
Proof. intros [k ->]%starts_with_inv. rewrite length_app. lia. Qed.

(** Two beginnings of one list: one begins the other. *)
Lemma starts_with_both l1 l2 l :
  starts_with l1 l = true → starts_with l2 l = true →
  starts_with l1 l2 = true ∨ starts_with l2 l1 = true.
Proof.
  rewrite !starts_with_prefix. intros H1 H2.
  destruct (prefix_weak_total _ _ _ H1 H2); auto.
Qed.

Lemma strip_prefix_Some pre l k : strip_prefix pre l = Some k ↔ l = pre ++ k.
Proof.
  revert l. induction pre as [|x pre IH]; intros [|y l]; simpl.
  - split; [by intros [= <-]|by intros <-].
  - split; [by intros [= <-]|by intros <-].
  - done.
  - case_bool_decide as Hxy.
    + rewrite IH. subst. split; [by intros ->|by intros [= ->]].
    + split; [done|]. intros [= -> _]. done.
Qed.

Lemma strip_prefix_app pre k : strip_prefix pre (pre ++ k) = Some k.
Proof. by apply strip_prefix_Some. Qed.

Lemma strip_prefix_None pre l :
  strip_prefix pre l = None ↔ starts_with pre l = false.
Proof.
  destruct (strip_prefix pre l) as [k|] eqn:Hs.
  - apply strip_prefix_Some in Hs as ->. by rewrite starts_with_app.
  - split; [intros _|done]. destruct (starts_with pre l) eqn:Hp; [|done].
    apply starts_with_inv in Hp as [k ->]. by rewrite strip_prefix_app in Hs.
Qed.

End Lists.

Implicit Types (p q : path) (t : fs) (n : node).

(** *** Joining *)

Lemma joinpath_name p name : name ≠ ""%string → joinpath p name = p ++ [name].
Proof. intros Hn. unfold joinpath. by rewrite bool_decide_eq_false_2. Qed.

Lemma under_joinpath p name : under p (joinpath p name) = true.
Proof.
  unfold joinpath, under. case_bool_decide.
  - apply starts_with_refl.
  - apply starts_with_app.
Qed.

Lemma under_refl p : under p p = true.
Proof. apply starts_with_refl. Qed.

Lemma parent_snoc p name : parent (p ++ [name]) = p.
Proof. apply removelast_last. Qed.

Lemma name_of_snoc p name : name_of (p ++ [name]) = name.
Proof. apply last_last. Qed.

Lemma under_parent p : under (parent p) p = true.
Proof.
  induction p as [|name p' _] using rev_ind; [done|].
  rewrite parent_snoc. apply starts_with_app.
Qed.

(** *** Looking up *)

Lemma find_entry_put_eq p n t : find_entry p (put p n t) = Some n.
Proof.
  induction t as [|[q m] t IH]; simpl.
  - by rewrite bool_decide_eq_true_2.
  - case_bool_decide as Hq; simpl.
    + by rewrite bool_decide_eq_true_2.
    + by rewrite bool_decide_eq_false_2.
Qed.

Lemma find_entry_put_ne p q n t :
  p ≠ q → find_entry q (put p n t) = find_entry q t.
Proof.
  intros Hpq. induction t as [|[r m] t IH]; simpl.
  - by rewrite bool_decide_eq_false_2.
  - case_bool_decide as Hr; simpl.
    + subst. by rewrite !bool_decide_eq_false_2.
    + by rewrite IH.
Qed.

Lemma node_at_put_eq p n t : p ≠ [] → node_at p (put p n t) = Some n.
Proof. destruct p; [done|]. intros _. apply find_entry_put_eq. Qed.

Lemma node_at_put_ne p q n t : p ≠ q → node_at q (put p n t) = node_at q t.
Proof. destruct q; [done|]. apply find_entry_put_ne. Qed.

Lemma node_at_remove_tree p q t :
  q ≠ [] →
  node_at q (remove_tree p t) = if under p q then None else node_at q t.
Proof.
  destruct q as [|c q]; [done|]. intros _. unfold remove_tree, node_at.
  induction t as [|[r m] t IH]; [by destruct (under p (c :: q))|].
  rewrite filter_cons. cbn [fst find_entry].
  case_decide as Hr; cbn [find_entry].
  - case_bool_decide; subst; [by rewrite Hr|done].
  - rewrite IH. case_bool_decide; subst; [|done].
    by destruct (under p (c :: q)).
Qed.

Lemma node_at_remove_entry p q t :
  q ≠ [] →
  node_at q (remove_entry p t) = if decide (q = p) then None else node_at q t.
Proof.
  destruct q as [|c q]; [done|]. intros _. unfold remove_entry, node_at.
  induction t as [|[r m] t IH]; [by case_decide|].
  rewrite filter_cons. cbn [fst find_entry].
  destruct (decide (r ≠ p)) as [Hr|Hr]; cbn [find_entry].
  - case_bool_decide; subst; [by rewrite decide_False|done].
  - rewrite IH. case_bool_decide; subst; [|done].
    apply dec_stable in Hr. subst. by case_decide.
Qed.

Lemma find_entry_Some_elem q n t : find_entry q t = Some n → q ∈ t.*1.
Proof.
  induction t as [|[r m] t IH]; simpl; [done|].
  case_bool_decide; [subst; intros _; left|intros ?; right; auto].
Qed.

Lemma elem_find_entry q t : q ∈ t.*1 → is_Some (find_entry q t).
Proof.
  induction t as [|[r m] t IH]; simpl; [by intros ?%elem_of_nil|].
  intros [->|Hin]%elem_of_cons; [by rewrite bool_decide_eq_true_2|].
  case_bool_decide; [done|auto].
Qed.

Lemma elem_of_rglob p q t :
  q ∈ rglob p t ↔ under p q = true ∧ q ≠ p ∧ q ∈ t.*1.
Proof. unfold rglob. rewrite list_elem_of_filter. tauto. Qed.

(** What lies strictly under [p] is [p] and at least one more component. *)
Lemma rglob_shape p q t : q ∈ rglob p t → ∃ c k, q = p ++ c :: k.
Proof.
  intros (Hu & Hne & _)%elem_of_rglob.
  apply starts_with_inv in Hu as [[|c k] ->]; [by rewrite app_nil_r in Hne|].
  eauto.
Qed.

Lemma fst_put q n t :
  (put q n t).*1 = if decide (q ∈ t.*1) then t.*1 else t.*1 ++ [q].
Proof.
  induction t as [|[r m] t IH]; [done|]. cbn [put].
  case_bool_decide as Hr.
  - subst. rewrite decide_True; [done|]. cbn. left.
  - cbn [fmap list_fmap fst]. rewrite IH.
    destruct (decide (q ∈ t.*1)) as [Hq|Hq].
    + rewrite decide_True; [done|]. by right.
    + rewrite decide_False; [done|].
      intros [?|?]%elem_of_cons; [by subst|done].
Qed.

Lemma rglob_put p q n t :
  under p q = false → rglob p (put q n t) = rglob p t.
Proof.
  intros Hq. unfold rglob. rewrite fst_put. case_decide; [done|].
  rewrite filter_app, filter_cons_False, filter_nil, app_nil_r; [done|].
  intros [? _]. congruence.
Qed.

Lemma rglob_remove_entry p q t :
  under p q = false → rglob p (remove_entry q t) = rglob p t.
Proof.
  intros Hq. unfold rglob, remove_entry.
  induction t as [|[r m] t IH]; [done|].
  rewrite (filter_cons (λ e : path * node, e.1 ≠ q)). cbn [fst].
  destruct (decide (r ≠ q)) as [Hr|Hr]; cbn [fmap list_fmap fst].
  - rewrite !(filter_cons (λ q0, under p q0 = true ∧ q0 ≠ p)).
    fold (fmap (M := list) (@fst path node)). by rewrite IH.
  - apply dec_stable in Hr. subst.
    fold (fmap (M := list) (@fst path node)). rewrite IH.
    rewrite (filter_cons_False _ q); [done|]. intros [? _]. congruence.
Qed.

(** *** What the calls do to the listing *)

Lemma make_chain_keeps rest : ∀ pre t t' q n,
  make_chain pre rest t = Some t' →
  node_at q t = Some n → node_at q t' = Some n.
Proof.
  induction rest as [|c rest IH]; intros pre t t' q n; simpl.
  { by intros [= ->]. }
  destruct (node_at (pre ++ [c]) t) as [[|d]|] eqn:Hp; [|done|].
  - apply IH.
  - intros Hm Hq. eapply IH; [done|].
    rewrite node_at_put_ne; [done|]. intros <-. congruence.
Qed.

Lemma make_chain_new rest : ∀ pre t t' q n,
  make_chain pre rest t = Some t' →
  node_at q t' = Some n →
  node_at q t = Some n ∨
  (n = Dir ∧ node_at q t = None ∧ under q (pre ++ rest) = true ∧
   length pre < length q).
Proof.
  induction rest as [|c rest IH]; intros pre t t' q n; simpl.
  { intros [= ->] ?. by left. }
  destruct (node_at (pre ++ [c]) t) as [[|d]|] eqn:Hp; [|done|].
  - intros Hm Hq. destruct (IH _ _ _ _ _ Hm Hq) as [?|(-> & ? & Hu & Hl)].
    + by left.
    + right. rewrite <-app_assoc in Hu. rewrite length_app in Hl. simpl in Hl.
      split_and!; [done..|lia].
  - intros Hm Hq. destruct (IH _ _ _ _ _ Hm Hq) as [Hq'|(-> & Hq' & Hu & Hl)].
    + destruct (decide (pre ++ [c] = q)) as [<-|Hne].
      * rewrite node_at_put_eq in Hq' by (by destruct pre).
        injection Hq' as <-. right. split_and!; [done..| |].
        -- change (c :: rest) with ([c] ++ rest). rewrite app_assoc.
           apply starts_with_app.
        -- rewrite length_app. simpl. lia.
      * rewrite node_at_put_ne in Hq' by done. by left.
    + right. rewrite <-app_assoc in Hu. rewrite length_app in Hl. simpl in Hl.
      destruct (decide (pre ++ [c] = q)) as [<-|Hne].
      * rewrite length_app in Hl. simpl in Hl. lia.
      * rewrite node_at_put_ne in Hq' by done. split_and!; [done..|lia].
Qed.

Lemma make_chain_dirs rest : ∀ pre t t' k,
  make_chain pre rest t = Some t' →
  k `prefix_of` rest → k ≠ [] → node_at (pre ++ k) t' = Some Dir.
Proof.
  induction rest as [|c rest IH]; intros pre t t' k; simpl.
  { by intros _ ->%prefix_nil_inv. }
  destruct k as [|c' k]; [done|]. intros Hm Hk _.
  pose proof (prefix_cons_inv_1 _ _ _ _ Hk) as ->.
  apply prefix_cons_inv_2 in Hk.
  assert (∃ t1, make_chain (pre ++ [c]) rest t1 = Some t' ∧
                node_at (pre ++ [c]) t1 = Some Dir) as (t1 & Hm1 & Hd).
  { destruct (node_at (pre ++ [c]) t) as [[|d]|] eqn:Hp; [|done|].
    - by exists t.
    - exists (put (pre ++ [c]) Dir t). split; [done|].
      apply node_at_put_eq. by destruct pre. }
  destruct k as [|c'' k].
  - by apply (make_chain_keeps _ _ _ _ _ _ Hm1).
  - rewrite (cons_middle c), app_assoc. by eapply IH.
Qed.

Lemma mkdir_parents_keeps ok p t t' q n :
  mkdir_parents ok p t = Ok t' →
  node_at q t = Some n → node_at q t' = Some n.
Proof.
  unfold mkdir_parents.
  destruct (node_at p t) as [[|d]|]; [destruct ok| |]; try done.
  - by intros [= ->].
  - destruct (make_chain [] p t) as [t1|] eqn:Hm; [|done].
    intros [= ->]. by apply (make_chain_keeps _ _ _ _ _ _ Hm).
Qed.

Lemma mkdir_parents_new ok p t t' q n :
  mkdir_parents ok p t = Ok t' →
  node_at q t' = Some n →
  node_at q t = Some n ∨
  (n = Dir ∧ node_at q t = None ∧ under q p = true).
Proof.
  unfold mkdir_parents.
  destruct (node_at p t) as [[|d]|]; [destruct ok| |]; try done.
  - intros [= ->]. by left.
  - destruct (make_chain [] p t) as [t1|] eqn:Hm; [|done].
    intros [= ->] Hq.
    destruct (make_chain_new _ _ _ _ _ _ Hm Hq) as [?|(? & ? & ? & ?)]; auto.
Qed.

Lemma mkdir_parents_dir ok p t t' :
  mkdir_parents ok p t = Ok t' → node_at p t' = Some Dir.
Proof.
  unfold mkdir_parents.
  destruct (node_at p t) as [[|d]|] eqn:Hp; [destruct ok| |]; try done.
  - by intros [= ->].
  - destruct (make_chain [] p t) as [t1|] eqn:Hm; [|done].
    intros [= ->]. destruct p as [|c p]; [done|].
    by apply (make_chain_dirs _ [] _ _ (c :: p) Hm).
Qed.

(** A directory made anew comes with all the directories above it. *)
Lemma mkdir_parents_fresh p t t' q :
  mkdir_parents false p t = Ok t' →
  under q p = true → node_at q t' = Some Dir.
Proof.
  unfold mkdir_parents.
  destruct (node_at p t) as [[|d]|] eqn:Hp; try done.
  destruct (make_chain [] p t) as [t1|] eqn:Hm; [|done].
  intros [= ->] Hq%starts_with_prefix. destruct q as [|c q]; [done|].
  by apply (make_chain_dirs _ [] _ _ (c :: q) Hm).
Qed.

Lemma write_file_inv p data t t' :
  write_file p data t = Ok t' →
  t' = put p (File data) t ∧ node_at p t ≠ Some Dir ∧ p ≠ [].
Proof.
  unfold write_file. destruct p as [|c p]; [done|].
  destruct (node_at (c :: p) t) as [[|d]|] eqn:Hp; [done| |].
  - by intros [= <-].
  - destruct (node_at (parent (c :: p)) t) as [[|d]|]; [|done..].
    by intros [= <-].
Qed.

Lemma copy2_inv src dst t t' :
  copy2 src dst t = Ok t' →
  ∃ data target,
    node_at src t = Some (File data) ∧
    t' = put target (File data) t ∧
    under dst target = true ∧ node_at target t ≠ Some Dir ∧ target ≠ [].
Proof.
  unfold copy2, read_text.
  destruct (node_at src t) as [[|data]|] eqn:Hs; [done| |done].
  destruct (is_dir dst t) eqn:Hd.
  - intros (-> & ? & ?)%write_file_inv. eexists data, _.
    split_and!; [done..| |done|done]. apply under_joinpath.
  - intros (-> & ? & ?)%write_file_inv. exists data, dst.
    split_and!; [done..| |done|done]. apply starts_with_refl.
Qed.

Lemma rmtree_inv p t t' :
  rmtree p t = Ok t' → t' = remove_tree p t ∧ node_at p t = Some Dir.
Proof.
  unfold rmtree. destruct (node_at p t) as [[|d]|]; [|done..].
  by intros [= <-].
Qed.

Lemma unlink_inv p t t' :
  unlink p t = Ok t' →
  t' = remove_entry p t ∧ ∃ data, node_at p t = Some (File data).
Proof.
  unfold unlink. destruct (node_at p t) as [[|d]|]; [done| |done].
  intros [= <-]. eauto.
Qed.

(** *** What a call leaves of a directory *)

Global Instance untouched_preorder b : PreOrder (untouched b).
Proof.
  split; [done|]. intros t1 t2 t3 [Hg1 Hn1] [Hg2 Hn2]. split.
  - congruence.
  - intros q Hq. rewrite Hn2, Hn1; done.
Qed.

Lemma untouched_put b p n t : under b p = false → untouched b t (put p n t).
Proof.
  intros Hp. split; [by apply rglob_put|].
  intros q Hq. apply node_at_put_ne. congruence.
Qed.

Lemma untouched_remove_entry b p t :
  under b p = false → untouched b t (remove_entry p t).
Proof.
  intros Hp. split; [by apply rglob_remove_entry|].
  intros q Hq. destruct q as [|c q]; [done|].
  rewrite node_at_remove_entry by done. case_decide; congruence.
Qed.

Lemma apart_under p q r :
  apart p q → under p r = true → under q r = false.
Proof.
  unfold apart, under. intros [Hpq Hqp] Hp.
  destruct (starts_with q r) eqn:Hq; [|done].
  destruct (starts_with_both _ _ _ Hp Hq); congruence.
Qed.

Lemma untouched_remove_tree b p t : apart b p → untouched b t (remove_tree p t).
Proof.
  intros Hbp. split.
  - unfold rglob, remove_tree. induction t as [|[r m] t IH]; [done|].
    rewrite (filter_cons (λ e : path * node, under p e.1 = false)). cbn [fst].
    destruct (decide (under p r = false)) as [Hr|Hr];
      cbn [fmap list_fmap fst]; fold (fmap (M := list) (@fst path node)).
    + rewrite !(filter_cons (λ q0, under b q0 = true ∧ q0 ≠ b)). by rewrite IH.
    + rewrite IH. rewrite (filter_cons_False _ r); [done|]. intros [Hb _].
      apply not_false_iff_true in Hr.
      by rewrite (apart_under _ _ _ Hbp Hb) in Hr.
  - intros q Hq. destruct q as [|c q]; [done|].
    rewrite node_at_remove_tree by done.
    by rewrite (apart_under _ _ _ Hbp Hq).
Qed.

Lemma untouched_make_chain b rest : ∀ pre t t',
  under b (pre ++ rest) = false →
  make_chain pre rest t = Some t' → untouched b t t'.
Proof.
  induction rest as [|c rest IH]; intros pre t t' Hb; simpl.
  { by intros [= ->]. }
  assert (under b (pre ++ [c]) = false) as Hb1.
  { destruct (under b (pre ++ [c])) eqn:Hu; [|done]. rewrite <-Hb.
    symmetry. apply (starts_with_trans _ _ _ Hu).
    change (c :: rest) with ([c] ++ rest). rewrite app_assoc.
    apply starts_with_app. }
  change (c :: rest) with ([c] ++ rest) in Hb. rewrite app_assoc in Hb.
  destruct (node_at (pre ++ [c]) t) as [[|d]|]; [|done|].
  - by apply IH.
  - intros Hm. etrans; [by apply untouched_put|]. by eapply IH.
Qed.

Lemma untouched_mkdir_parents b ok p t t' :
  under b p = false → mkdir_parents ok p t = Ok t' → untouched b t t'.
Proof.
  intros Hb. unfold mkdir_parents.
  destruct (node_at p t) as [[|d]|]; [destruct ok| |]; try done.
  - by intros [= ->].
  - destruct (make_chain [] p t) as [t1|] eqn:Hm; [|done].
    intros [= ->]. by apply (untouched_make_chain b p [] t).
Qed.

Lemma untouched_write_file b p data t t' :
  under b p = false → write_file p data t = Ok t' → untouched b t t'.
Proof. intros Hb (-> & _)%write_file_inv. by apply untouched_put. Qed.

Lemma untouched_copy2 b src dst t t' :
  (∀ r, under dst r = true → under b r = false) →
  copy2 src dst t = Ok t' → untouched b t t'.
Proof.
  intros Hb (data & target & _ & -> & Hu & _)%copy2_inv.
  apply untouched_put. by apply Hb.
Qed.

(** In a tree nothing lies under a path that is not there. *)
Lemma tree_nothing_under t p q :
  tree t → node_at p t = None → under p q = true → node_at q t = None.
Proof.
  intros Ht Hp [k ->]%starts_with_inv.
  induction k as [|c k IH] using rev_ind; [by rewrite app_nil_r|].
  destruct (node_at (p ++ k ++ [c]) t) as [n|] eqn:Hq; [|done].
  apply Ht in Hq. rewrite app_assoc, parent_snoc in Hq. congruence.
Qed.

Lemma tree_b_tree t : tree_b t = true → tree t.
Proof.
  unfold tree_b. rewrite forallb_forall. intros Ht q n Hq.
  destruct q as [|c q]; [done|]. simpl in Hq.
  assert (c :: q ∈ t.*1) as Hin by (by eapply find_entry_Some_elem).
  apply list_elem_of_fmap in Hin as ([q' m] & Heq & Hin). simpl in Heq. subst.
  apply list_elem_of_In, Ht in Hin. cbn [fst] in Hin. unfold is_dir in Hin.
  by destruct (node_at (parent (c :: q)) t) as [[|?]|].
Qed.

End FsFacts.

(** * Running the converter's computations *)

Module Run.

Section Laws.
Context {value : Type}.
Implicit Types st : state value.

Lemma bind_run {A B} (c : M value A) (k : A → M value B) st :
  bind c k st =
  match c st with
  | (Ok a, st') => k a st'
  | (Raise e, st') => (Raise e, st')
  end.
Proof. done. Qed.

Lemma bind_ok {A B} (c : M value A) (k : A → M value B) st a st' :
  c st = (Ok a, st') → bind c k st = k a st'.
Proof. intros H. by rewrite bind_run, H. Qed.

Lemma bind_raise {A B} (c : M value A) (k : A → M value B) st e st' :
  c st = (Raise e, st') → bind c k st = (Raise e, st').
Proof. intros H. by rewrite bind_run, H. Qed.

Lemma bind_inv_ok {A B} (c : M value A) (k : A → M value B) st b st' :
  bind c k st = (Ok b, st') →
  ∃ a st1, c st = (Ok a, st1) ∧ k a st1 = (Ok b, st').
Proof.
  rewrite bind_run. destruct (c st) as [[a|e] st1]; [|done]. eauto.
Qed.

Lemma ret_run {A} (a : A) st : ret a st = (Ok a, st).
Proof. done. Qed.

Lemma for_each_nil {A B} (body : B → A → M value B) acc :
  for_each [] body acc = ret acc.
Proof. done. Qed.

Lemma for_each_cons {A B} x l (body : B → A → M value B) acc :
  for_each (x :: l) body acc = bind (body acc x) (for_each l body).
Proof. done. Qed.

Lemma state_eta st :
  State (files st) (changes st) (warnings st) (stdout st) = st.
Proof. by destruct st. Qed.

End Laws.

(** The notations of stdpp's monads stand for [bind] and [ret]. *)
Ltac mnorm := unfold mbind, M_bind, mret, M_ret in *.

(** *** Body cleaning *)

Section Cleaning.
Context {value : Type}.
Implicit Types st : state value.
Import ReFacts PatternFacts.

Lemma echo_app self ws1 ws2 :
  echo (value := value) self (ws1 ++ ws2) = echo self ws1 ++ echo self ws2.
Proof. unfold echo. destruct (verbose self); [apply fmap_app|done]. Qed.

Lemma echo_cons self w ws :
  echo (value := value) self (w :: ws) = echo self [w] ++ echo self ws.
Proof. apply (echo_app self [w] ws). Qed.

Lemma removal_pass_run rules content st :
  for_each rules (@apply_removal value) content st =
    (Ok (removal_text rules content),
     State (files st) (changes st ++ removal_changes rules content)
       (warnings st) (stdout st)).
Proof.
  revert content st. induction rules as [|rule rules IH]; intros content st.
  - simpl. by rewrite app_nil_r, state_eta.
  - simpl. unfold apply_removal at 1.
    destruct (findall _ _) as [|m ms] eqn:Hf.
    + rewrite bind_run. mnorm. rewrite ret_run. apply IH.
    + mnorm. rewrite !bind_run. unfold add_change at 1. rewrite ret_run.
      rewrite IH. simpl. by rewrite <-app_assoc.
Qed.

Lemma warn_run self w st :
  warn self w st =
    (Ok tt, State (files st) (changes st) (warnings st ++ [w])
              (stdout st ++ echo self [w])).
Proof.
  unfold warn, echo. mnorm. rewrite bind_run. unfold add_warning at 1.
  destruct (verbose self); [done|]. by rewrite ret_run, app_nil_r.
Qed.

Lemma warning_pass_run self rules cleaned st :
  for_each rules (check_warning self) cleaned st =
    (Ok cleaned,
     State (files st) (changes st)
       (warnings st ++ warning_pass rules cleaned)
       (stdout st ++ echo self (warning_pass rules cleaned))).
Proof.
  revert st. induction rules as [|rule rules IH]; intros st.
  - simpl. unfold echo. destruct (verbose self);
      by rewrite ret_run, !app_nil_r, state_eta.
  - simpl. unfold check_warning at 1.
    destruct (findall _ _) as [|m ms] eqn:Hf.
    + rewrite bind_run. mnorm. rewrite ret_run. apply IH.
    + mnorm. rewrite !bind_run, warn_run, ret_run, IH. simpl.
      rewrite (echo_cons self _ (warning_pass rules cleaned)).
      by rewrite <-!app_assoc.
Qed.

(** [clean_content] as a function of the body alone. *)
Lemma clean_content_run self content st :
  let out := removal_text CC_PATTERNS content in
  clean_content self content st =
    (Ok out,
     State (files st)
       (changes st ++ removal_changes CC_PATTERNS content)
       (warnings st ++ warning_pass WARNING_PATTERNS out)
       (stdout st ++ echo self (warning_pass WARNING_PATTERNS out))).
Proof.
  unfold clean_content. mnorm.
  by rewrite bind_run, removal_pass_run, warning_pass_run.
Qed.

Lemma removal_text_clean rules cleaned :
  Forall (λ rule, findall (compiled rule.1) (chars cleaned) = []) rules →
  removal_text rules cleaned = cleaned.
Proof. induction 1 as [|rule rules Hr _ IH]; simpl; [done|]. by rewrite Hr. Qed.

Lemma removal_changes_clean rules cleaned :
  Forall (λ rule, findall (compiled rule.1) (chars cleaned) = []) rules →
  removal_changes (value := value) rules cleaned = [].
Proof. induction 1 as [|rule rules Hr _ IH]; simpl; [done|]. by rewrite Hr. Qed.

(** The text the first loop leaves: each rule's [sub] in turn. *)
Lemma removal_text_fold rules content :
  Forall (λ rule, nonempty (compiled rule.1)) rules →
  chars (removal_text rules content) =
  foldl (λ t rule, sub (compiled rule.1) (chars rule.2) t)
    (chars content) rules.
Proof.
  intros Hne. revert content.
  induction Hne as [|rule rules Hr _ IH]; intros content; simpl; [done|].
  destruct (findall _ _) as [|m ms] eqn:Hf.
  - rewrite IH. f_equal. symmetry. apply sub_no_match; [done|].
    by apply findall_no_match.
  - by rewrite IH, chars_str_of.
Qed.

Lemma removal_text_clean_text content :
  chars (removal_text CC_PATTERNS content) = clean_text (chars content).
Proof.
  rewrite removal_text_fold; [done|].
  apply Forall_forall. intros rule. apply nonempty_removal.
Qed.

End Cleaning.

(** *** What a computation leaves as it was *)

Section Preserves.
Context {value : Type}.
Implicit Types st : state value.

Global Instance on_files_preorder Rf :
  PreOrder Rf → PreOrder (on_files (value := value) Rf).
Proof.
  intros HR. split.
  - intros st. unfold on_files. reflexivity.
  - intros st1 st2 st3. unfold on_files. apply transitivity.
Qed.

Global Instance same_lists_preorder : PreOrder (same_lists (value := value)).
Proof.
  split; [done|]. intros st1 st2 st3 [? ?] [? ?]. split; congruence.
Qed.

Global Instance same_changes_preorder :
  PreOrder (same_changes (value := value)).
Proof. split; [done|]. intros st1 st2 st3. unfold same_changes. congruence. Qed.

Context (R : relation (state value)) `{!PreOrder R}.

Lemma preserves_ret {A} (a : A) : preserves R (ret a).
Proof. intros st. simpl. reflexivity. Qed.

Lemma preserves_raise {A} e : preserves R (raise (A := A) e).
Proof. intros st. simpl. reflexivity. Qed.

Lemma preserves_get_files : preserves R get_files.
Proof. intros st. simpl. reflexivity. Qed.

Lemma preserves_fs_read {A} (op : fs → outcome A) : preserves R (fs_read op).
Proof. intros st. simpl. reflexivity. Qed.

Lemma preserves_bind {A B} (c : M value A) (k : A → M value B) :
  preserves R c → (∀ a, preserves R (k a)) → preserves R (bind c k).
Proof.
  intros Hc Hk st. rewrite bind_run. specialize (Hc st).
  destruct (c st) as [[a|e] st1]; simpl in *; [|done].
  etrans; [done|]. apply Hk.
Qed.

Lemma preserves_for_each {A B} (l : list A) (body : B → A → M value B) acc :
  (∀ acc x, x ∈ l → preserves R (body acc x)) →
  preserves R (for_each l body acc).
Proof.
  revert acc. induction l as [|x l IH]; intros acc Hb; simpl.
  - apply preserves_ret.
  - apply preserves_bind; [apply Hb; left|].
    intros acc'. apply IH. intros ???. apply Hb. by right.
Qed.

Lemma preserves_try {A} (body : M value A) handler final :
  preserves R body → (∀ e, preserves R (handler e)) → preserves R final →
  preserves R (try_except_finally body handler final).
Proof.
  intros Hb Hh Hf st. unfold try_except_finally.
  specialize (Hb st). destruct (body st) as [[a|e] st1]; simpl in *.
  - specialize (Hf st1). destruct (final st1) as [[[]|e] st2]; simpl in *;
      by etrans.
  - specialize (Hh e st1). destruct (handler e st1) as [r st2]; simpl in *.
    specialize (Hf st2). destruct (final st2) as [[[]|e'] st3]; simpl in *;
      etrans; [done| |done|]; by etrans.
Qed.

End Preserves.

(** [preserves] goals: the structure of the computation is followed down
    to its calls. *)
Ltac preserves_step :=
  lazymatch goal with
  | |- preserves _ (bind _ _) => apply preserves_bind; [tc_solve| |intros ?]
  | |- preserves _ (ret _) => apply preserves_ret; tc_solve
  | |- preserves _ (raise _) => apply preserves_raise; tc_solve
  | |- preserves _ get_files => apply preserves_get_files; tc_solve
  | |- preserves _ (fs_read _) => apply preserves_fs_read; tc_solve
  | |- preserves _ (if ?b then _ else _) => destruct b eqn:?
  | |- preserves _ (match ?x with _ => _ end) => destruct x eqn:?
  end.

Section PreservesCalls.
Context {value : Type}.
Implicit Types st : state value.

Lemma preserves_files_print Rf `{!PreOrder Rf} (e : event value) :
  preserves (on_files Rf) (print e).
Proof. intros st. unfold on_files. simpl. reflexivity. Qed.

Lemma preserves_files_add_change Rf `{!PreOrder Rf} (c : change value) :
  preserves (on_files Rf) (add_change c).
Proof. intros st. unfold on_files. simpl. reflexivity. Qed.

Lemma preserves_files_add_warning Rf `{!PreOrder Rf} w :
  preserves (value := value) (on_files Rf) (add_warning w).
Proof. intros st. unfold on_files. simpl. reflexivity. Qed.

Lemma preserves_files_call Rf `{!PreOrder Rf} (op : fs → outcome fs) :
  (∀ t t', op t = Ok t' → Rf t t') →
  preserves (value := value) (on_files Rf) (fs_call op).
Proof.
  intros Hop st. unfold on_files, fs_call.
  destruct (op (files st)) as [t'|e] eqn:Ht; simpl; [auto|reflexivity].
Qed.

Lemma preserves_lists_print (e : event value) : preserves same_lists (print e).
Proof. by intros st. Qed.

Lemma preserves_lists_call (op : fs → outcome fs) :
  preserves (value := value) same_lists (fs_call op).
Proof. intros st. unfold fs_call. by destruct (op (files st)). Qed.




End PreservesCalls.

End Run.

(** * Facts about the steps of the converter *)

Module Steps.
Import ReFacts FsFacts Run.

(** *** Names *)

Lemma append_not_empty (s1 s2 : string) : s2 ≠ ""%string → (s1 +:+ s2)%string ≠ ""%string.
Proof. by destruct s1, s2. Qed.

Lemma length_append (s1 s2 : string) :
  String.length (s1 +:+ s2) = String.length s1 + String.length s2.
Proof. induction s1 as [|c s1 IH]; simpl; [done|]. by rewrite IH. Qed.

Lemma zip_name_not_temp_name (name : string) :
  (name +:+ ".zip")%string ≠ ("." +:+ name +:+ "_temp")%string.
Proof.
  intros Heq. apply (f_equal String.length) in Heq.
  rewrite !length_append in Heq. simpl in Heq. lia.
Qed.

Section Paths.
Variable self : config.

Lemma temp_dir_eq :
  temp_dir self = output_dir self ++ ["." +:+ skill_name self +:+ "_temp"]%string.
Proof. by apply joinpath_name. Qed.

Lemma zip_path_eq :
  zip_path self = output_dir self ++ [skill_name self +:+ ".zip"]%string.
Proof. by apply joinpath_name, append_not_empty. Qed.

Lemma temp_dir_not_nil : temp_dir self ≠ [].
Proof. rewrite temp_dir_eq. by destruct (output_dir self). Qed.

Lemma zip_path_not_nil : zip_path self ≠ [].
Proof. rewrite zip_path_eq. by destruct (output_dir self). Qed.

Lemma under_temp_dir_converted : under (temp_dir self) (converted_dir self) = true.
Proof. apply under_joinpath. Qed.

(** The archive is written beside the staging directory, not in it. *)
Lemma zip_path_outside : under (temp_dir self) (zip_path self) = false.
Proof.
  destruct (under (temp_dir self) (zip_path self)) eqn:Hu; [|done].
  apply starts_with_inv in Hu as [k Hk].
  rewrite temp_dir_eq, zip_path_eq, <-app_assoc in Hk.
  apply app_inv_head in Hk. destruct k; simplify_eq/=.
  by apply zip_name_not_temp_name in H.
Qed.

(** Neither lies above the output directory. *)
Lemma temp_dir_below p :
  under (temp_dir self) p = true → under p (output_dir self) = false.
Proof.
  intros Hp. destruct (under p (output_dir self)) eqn:Hu; [|done].
  apply starts_with_length in Hp, Hu.
  rewrite temp_dir_eq, length_app in Hp. simpl in Hp. lia.
Qed.

Lemma zip_path_below : under (zip_path self) (output_dir self) = false.
Proof.
  destruct (under (zip_path self) (output_dir self)) eqn:Hu; [|done].
  apply starts_with_length in Hu.
  rewrite zip_path_eq, length_app in Hu. simpl in Hu. lia.
Qed.

End Paths.

Lemma mkdir_parents_elsewhere ok p t t' q :
  mkdir_parents ok p t = Ok t' → under q p = false →
  node_at q t' = node_at q t.
Proof.
  intros Hm Hq. destruct (node_at q t) as [n|] eqn:Hn.
  - by apply (mkdir_parents_keeps _ _ _ _ _ _ Hm).
  - destruct (node_at q t') as [n|] eqn:Hn'; [|done].
    destruct (mkdir_parents_new _ _ _ _ _ _ Hm Hn') as [?|(_ & _ & ?)];
      congruence.
Qed.

(** *** The header pattern *)

Lemma split_at_marker_unfold s :
  split_at_marker s =
  match strip_prefix closing_marker s with
  | Some body => Some ([], body)
  | None =>
      match s with
      | c :: s' => (λ g, (c :: g.1, g.2)) <$> split_at_marker s'
      | [] => None
      end
  end.
Proof. by destruct s. Qed.

Lemma split_at_marker_Some s h b :
  split_at_marker s = Some (h, b) → s = h ++ closing_marker ++ b.
Proof.
  revert h. induction s as [|c s IH]; intros h;
    rewrite split_at_marker_unfold.
  - done.
  - destruct (strip_prefix closing_marker (c :: s)) as [body|] eqn:Hs.
    + intros ?. simplify_eq. by apply strip_prefix_Some in Hs.
    + destruct (split_at_marker s) as [[h' b']|]; [|done].
      intros ?. simplify_eq/=. f_equal. by apply IH.
Qed.






(** *** What a step yields *)

Section Yields.
Context {value : Type} `{!Libraries value}.
Implicit Types (self : config) (st : state value).

Lemma yields_ret {A} (a : A) st : yields (ret a) st (Ok a) (files st) [] [].
Proof. exists st. by rewrite !app_nil_r. Qed.

Lemma yields_bind {A B} (c : M value A) (k : A → M value B)
    st a t1 cs1 ws1 r t2 cs2 ws2 cs ws :
  yields c st (Ok a) t1 cs1 ws1 →
  (∀ st1, files st1 = t1 → yields (k a) st1 r t2 cs2 ws2) →
  cs = cs1 ++ cs2 → ws = ws1 ++ ws2 →
  yields (bind c k) st r t2 cs ws.
Proof.
  intros (st1 & Hc & Hf1 & Hc1 & Hw1) Hk -> ->.
  destruct (Hk st1 Hf1) as (st2 & Hk2 & Hf2 & Hc2 & Hw2).
  exists st2. rewrite (bind_ok _ _ _ _ _ Hc).
  split_and!; [done..| |]; rewrite ?Hc2, ?Hw2, ?Hc1, ?Hw1;
    by rewrite app_assoc.
Qed.

Lemma yields_bind_raise {A B} (c : M value A) (k : A → M value B)
    st e t1 cs1 ws1 :
  yields c st (Raise e) t1 cs1 ws1 →
  yields (bind c k) st (Raise e) t1 cs1 ws1.
Proof.
  intros (st1 & Hc & ?). exists st1. by rewrite (bind_raise _ _ _ _ _ Hc).
Qed.

Lemma yields_log self m st : yields (log self m) st (Ok tt) (files st) [] [].
Proof.
  unfold log. destruct (verbose self); eexists; rewrite !app_nil_r; done.
Qed.

Lemma yields_print (e : event value) st :
  yields (print e) st (Ok tt) (files st) [] [].
Proof. eexists. by rewrite !app_nil_r. Qed.

Lemma yields_warn self w st : yields (warn self w) st (Ok tt) (files st) [] [w].
Proof. eexists. rewrite warn_run. by rewrite !app_nil_r. Qed.

Lemma yields_add_change (c : change value) st :
  yields (add_change c) st (Ok tt) (files st) [c] [].
Proof. eexists. by rewrite !app_nil_r. Qed.

Lemma yields_fs_call (op : fs → outcome fs) st :
  yields (fs_call op) st
    (match op (files st) with Ok _ => Ok tt | Raise e => Raise e end)
    (match op (files st) with Ok t' => t' | Raise _ => files st end) [] [].
Proof.
  unfold yields, fs_call.
  destruct (op (files st)); eexists; by rewrite !app_nil_r.
Qed.

Lemma yields_fs_read {A} (op : fs → outcome A) st :
  yields (fs_read op) st (op (files st)) (files st) [] [].
Proof. eexists. by rewrite !app_nil_r. Qed.

Lemma yields_clean_content self content st :
  yields (clean_content self content) st
    (Ok (removal_text CC_PATTERNS content)) (files st)
    (removal_changes CC_PATTERNS content)
    (warning_pass WARNING_PATTERNS (removal_text CC_PATTERNS content)).
Proof. eexists. by rewrite clean_content_run. Qed.

Lemma yields_parse_frontmatter content st :
  yields (parse_frontmatter content) st (parsed content) (files st) [] [].
Proof.
  unfold parse_frontmatter, parsed.
  destruct (match_frontmatter (chars content)) as [[f body]|].
  - mnorm. unfold yields, bind, fs_read.
    destruct (yaml_load (str_of f)); eexists; by rewrite !app_nil_r.
  - eexists. by rewrite !app_nil_r.
Qed.

Lemma yields_strip_fields self fields h st :
  yields (for_each fields (remove_field self) h) st
    (Ok (stripped_header self fields h)) (files st)
    (header_changes self fields h) [].
Proof.
  revert h st. induction fields as [|field fields IH]; intros h st.
  { apply yields_ret. }
  cbn [for_each stripped_header header_changes]. unfold remove_field at 1.
  destruct (h !! field) as [v|]; [destruct (keep_tools self)|].
  - mnorm. eapply yields_bind; [apply yields_ret|intros st1 <-; apply IH|..];
      done.
  - mnorm. eapply yields_bind; [|intros st1 <-; apply IH|..].
    + eapply yields_bind; [apply yields_add_change| |..].
      * intros st1 <-.
        eapply yields_bind;
          [apply yields_log|intros st2 <-; apply yields_ret|..]; done.
      * done.
      * done.
    + done.
    + done.
  - mnorm. eapply yields_bind; [apply yields_ret|intros st1 <-; apply IH|..];
      done.
Qed.

Lemma yields_inv {A} (c : M value A) st r t' cs ws r' st' :
  yields c st r t' cs ws → c st = (r', st') →
  r' = r ∧ files st' = t' ∧ changes st' = changes st ++ cs ∧
  warnings st' = warnings st ++ ws.
Proof. intros (st1 & Hc & ?) Hc'. rewrite Hc in Hc'. by simplify_eq. Qed.

Lemma validate_skill_valid self st :
  valid self (files st) = true → validate_skill self st = (Ok true, st).
Proof.
  unfold valid. intros [[He Hd]%andb_true_iff Hm]%andb_true_iff.
  unfold validate_skill. mnorm. unfold bind, get_files.
  by rewrite He, Hd, Hm.
Qed.

Lemma validate_skill_invalid self st :
  valid self (files st) = false →
  ∃ message,
    validate_skill self st =
      (Ok false,
       State (files st) (changes st) (warnings st) (stdout st ++ [message])) ∧
    message ∈ [PNotExist (value := value) (skill_path self);
               PNotDir (skill_path self); PNoSkillMd (skill_path self)].
Proof.
  unfold valid. intros Hv.
  unfold validate_skill. mnorm. unfold bind, get_files.
  destruct (exists_ (skill_path self) (files st)); cbn [negb].
  - destruct (is_dir (skill_path self) (files st)); cbn [negb].
    + destruct (exists_ (joinpath (skill_path self) "SKILL.md") (files st));
        [done|].
      eexists. split; [done|]. set_solver.
    + eexists. split; [done|]. set_solver.
  - eexists. split; [done|]. set_solver.
Qed.

Lemma yields_result {A} (c : M value A) st r r' t' cs ws :
  yields c st r t' cs ws → r = r' → yields c st r' t' cs ws.
Proof. by intros ? <-. Qed.

Section ConvertSkillMd.
Variables (self : config) (out : path).

Let skill_md := joinpath (skill_path self) "SKILL.md".
Let output_file := joinpath out "SKILL.md".

Lemma yields_convert_skill_md st content h body :
  node_at skill_md (files st) = Some (File content) →
  parsed content = Ok (YMapping h, body) →
  let new_content :=
    rendered (stripped_header self REMOVE_YAML_FIELDS h)
      (removal_text CC_PATTERNS body) in
  let written := write_file output_file new_content (files st) in
  yields (convert_skill_md self out) st
    (if dry_run self then Ok tt
     else match written with Ok _ => Ok tt | Raise e => Raise e end)
    (if dry_run self then files st
     else match written with Ok t' => t' | Raise _ => files st end)
    (header_changes self REMOVE_YAML_FIELDS h
     ++ removal_changes CC_PATTERNS body)
    (warning_pass WARNING_PATTERNS (removal_text CC_PATTERNS body)).
Proof.
  intros Hread Hparsed new_content written. subst written.
  unfold convert_skill_md. mnorm.
  eapply yields_bind; [eapply yields_result; [apply yields_fs_read|]| |done..].
  { unfold read_text. fold skill_md. by rewrite Hread. }
  intros st1 <-.
  eapply yields_bind;
    [eapply yields_result; [apply yields_parse_frontmatter|done]| |done..].
  intros st2 <-. cbn [fst snd clean_frontmatter].
  eapply yields_bind; [apply yields_strip_fields| |done..].
  intros st3 <-.
  eapply yields_bind; [apply yields_clean_content| | |].
  - intros st4 <-. fold output_file. fold (rendered
      (stripped_header self REMOVE_YAML_FIELDS h)
      (removal_text CC_PATTERNS body)). fold new_content.
    destruct (dry_run self).
    + eapply yields_bind; [apply yields_ret| |done..].
      intros st5 <-. apply yields_log.
    + pose proof (yields_fs_call
        (write_file output_file new_content) st4) as Hw.
      destruct (write_file output_file new_content (files st4)) as [t'|e].
      * eapply yields_bind; [apply Hw| |done..].
        intros st5 <-. rewrite <-(app_nil_r []) at 1. apply yields_log.
      * by apply yields_bind_raise.
  - by rewrite app_nil_r.
  - by rewrite app_nil_r.
Qed.

(** A conversion of the document that succeeds has read it and found a
    mapping for its header. *)
Lemma convert_skill_md_ok st st' :
  convert_skill_md self out st = (Ok tt, st') →
  ∃ content h body,
    node_at skill_md (files st) = Some (File content) ∧
    parsed content = Ok (YMapping h, body).
Proof.
  unfold convert_skill_md. mnorm.
  intros (content & st1 & Hread & Hrest)%bind_inv_ok.
  unfold fs_read, read_text in Hread. fold skill_md in Hread.
  destruct (node_at skill_md (files st)) as [[|c]|]; simplify_eq.
  apply bind_inv_ok in Hrest as (pr & st2 & Hparse & Hrest).
  destruct (yields_inv _ _ _ _ _ _ _ _ (yields_parse_frontmatter content st1)
              Hparse) as (Hp & _).
  apply bind_inv_ok in Hrest as (h' & st3 & Hclean & _).
  destruct pr as [[h| |] body]; simpl in Hclean; [|done..].
  exists content, h, body. eauto.
Qed.

End ConvertSkillMd.

End Yields.

(** *** What the steps leave of the file system *)

Global Instance dirs_kept_preorder : PreOrder dirs_kept.
Proof. split; [by intros t q|]. intros t1 t2 t3 H12 H23 q Hq. auto. Qed.

Lemma dirs_kept_put p data t :
  node_at p t ≠ Some Dir → dirs_kept t (put p (File data) t).
Proof.
  intros Hp q Hq. rewrite node_at_put_ne; [done|]. intros ->. done.
Qed.

Lemma dirs_kept_write_file p data t t' :
  write_file p data t = Ok t' → dirs_kept t t'.
Proof. intros (-> & ? & _)%write_file_inv. by apply dirs_kept_put. Qed.

Lemma dirs_kept_mkdir_parents ok p t t' :
  mkdir_parents ok p t = Ok t' → dirs_kept t t'.
Proof. intros Hm q. by apply (mkdir_parents_keeps _ _ _ _ _ _ Hm). Qed.

Lemma dirs_kept_copy2 src dst t t' : copy2 src dst t = Ok t' → dirs_kept t t'.
Proof.
  intros (data & target & _ & -> & _ & ? & _)%copy2_inv.
  by apply dirs_kept_put.
Qed.

Lemma dirs_kept_unlink p t t' : unlink p t = Ok t' → dirs_kept t t'.
Proof.
  intros (-> & data & Hp)%unlink_inv q Hq.
  destruct q as [|c q]; [done|].
  rewrite node_at_remove_entry by done. case_decide; [congruence|done].
Qed.

Section KeepsFiles.
Context {value : Type} `{!Libraries value}.
Context (Rf : relation fs) `{!PreOrder Rf}.
Implicit Types (self : config) (st : state value).

Lemma preserves_files_log self m :
  preserves (value := value) (on_files Rf) (log self m).
Proof.
  unfold log. destruct (verbose self);
    [by apply preserves_files_print|apply preserves_ret; tc_solve].
Qed.

Lemma preserves_files_warn self w :
  preserves (value := value) (on_files Rf) (warn self w).
Proof. intros st. rewrite warn_run. unfold on_files. simpl. reflexivity. Qed.

Lemma preserves_files_clean_content self content :
  preserves (value := value) (on_files Rf) (clean_content self content).
Proof.
  intros st. rewrite clean_content_run. unfold on_files. simpl. reflexivity.
Qed.

Lemma preserves_files_parse content :
  preserves (on_files Rf) (parse_frontmatter content).
Proof.
  intros st. destruct (yields_parse_frontmatter content st)
    as (st' & -> & Hf & _).
  unfold on_files. simpl. rewrite Hf. reflexivity.
Qed.

Lemma preserves_files_clean_frontmatter self (doc : yaml_doc value) :
  preserves (on_files Rf) (clean_frontmatter self doc).
Proof.
  destruct doc as [h| |]; cbn [clean_frontmatter];
    [|apply preserves_raise; tc_solve..].
  intros st. destruct (yields_strip_fields self REMOVE_YAML_FIELDS h st)
    as (st' & -> & Hf & _).
  unfold on_files. simpl. rewrite Hf. reflexivity.
Qed.

Lemma preserves_files_report self :
  preserves (value := value) (on_files Rf) (report self).
Proof.
  assert (∀ A (l : list A) (f : A → event value),
            preserves (on_files Rf) (for_each l (λ _ x, print (f x)) tt))
    as Hloop.
  { intros A l f. apply preserves_for_each; [tc_solve|].
    intros [] x _. by apply preserves_files_print. }
  unfold report. mnorm.
  apply preserves_bind; [tc_solve|by apply preserves_files_print|].
  intros _. apply preserves_bind; [tc_solve|by intros st|]. intros st.
  apply preserves_bind; [tc_solve|apply (Hloop _ _ PChange)|]. intros _.
  apply preserves_bind; [tc_solve| |].
  { destruct (warnings st) as [|w ws]; [apply preserves_ret; tc_solve|].
    apply preserves_bind; [tc_solve|by apply preserves_files_print|].
    intros _. apply (Hloop _ _ PWarningLine). }
  intros _. destruct (dry_run self); [apply preserves_ret; tc_solve|].
  apply preserves_bind; [tc_solve|by apply preserves_files_print|].
  intros _. by apply preserves_files_print.
Qed.

End KeepsFiles.

(** The structure of a step is followed down to its file-system calls,
    which are left as goals. *)
Ltac preserves_files :=
  repeat first
    [ apply preserves_files_log; tc_solve
    | apply preserves_files_warn; tc_solve
    | apply preserves_files_print; tc_solve
    | apply preserves_files_add_change; tc_solve
    | apply preserves_files_add_warning; tc_solve
    | apply preserves_files_clean_content; tc_solve
    | apply preserves_files_parse; tc_solve
    | apply preserves_files_clean_frontmatter; tc_solve
    | apply preserves_files_report; tc_solve
    | apply preserves_for_each; [tc_solve|intros ???]
    | apply preserves_files_call; [tc_solve|intros ??]
    | progress cbv zeta
    | preserves_step ].

Section KeepsDirs.
Context {value : Type} `{!Libraries value}.
Implicit Types (self : config) (st : state value).

Lemma convert_skill_md_keeps_dirs self out :
  preserves (on_files dirs_kept) (convert_skill_md self out).
Proof.
  unfold convert_skill_md. mnorm. preserves_files.
  apply dirs_kept_write_file.
Qed.

Lemma bundle_references_keeps_dirs self out :
  preserves (value := value) (on_files dirs_kept)
    (bundle_references self out).
Proof.
  unfold bundle_references, bundle_one. mnorm. preserves_files.
  - apply dirs_kept_mkdir_parents.
  - apply dirs_kept_copy2.
Qed.

Lemma create_zip_keeps_dirs self tmp :
  preserves (on_files dirs_kept) (create_zip self tmp).
Proof.
  unfold create_zip, zip_one. mnorm. preserves_files.
  - apply dirs_kept_unlink.
  - apply dirs_kept_write_file.
  - apply dirs_kept_write_file.
Qed.

End KeepsDirs.

(** *** The frame of [convert] *)

Section Frame.
Context {value : Type} `{!Libraries value}.
Implicit Types (self : config) (st : state value).

Lemma transform_copy_archive_keeps_dirs self :
  preserves (on_files dirs_kept) (transform_copy_archive self).
Proof.
  unfold transform_copy_archive. mnorm.
  apply preserves_bind; [tc_solve|apply convert_skill_md_keeps_dirs|].
  intros _.
  apply preserves_bind; [tc_solve|apply bundle_references_keeps_dirs|].
  intros _. apply preserves_bind; [tc_solve|apply create_zip_keeps_dirs|].
  intros z. preserves_files.
Qed.

(** [convert] on a bundle that passes validation. *)
Lemma convert_valid self st :
  valid self (files st) = true →
  convert self st =
  try_except_finally (convert_body self)
    (λ e, print (PConversionError e);; mret None)
    (cleanup self) (started self st).
Proof.
  intros Hv. unfold convert. mnorm. rewrite bind_run. cbn [print].
  fold (started self st).
  by rewrite (bind_ok _ _ _ _ _ (validate_skill_valid self (started self st) Hv)).
Qed.

Lemma convert_invalid self st :
  valid self (files st) = false →
  ∃ message,
    convert self st =
      (Ok None,
       State (files st) (changes st) (warnings st)
         (stdout st ++ [PConverting (skill_name self); message])) ∧
    message ∈ [PNotExist (value := value) (skill_path self);
               PNotDir (skill_path self); PNoSkillMd (skill_path self)].
Proof.
  intros Hv. unfold convert. mnorm. rewrite bind_run. cbn [print].
  fold (started self st).
  destruct (validate_skill_invalid self (started self st) Hv)
    as (message & Hval & Hmsg).
  rewrite (bind_ok _ _ _ _ _ Hval). cbn.
  exists message. by rewrite <-(app_assoc _ [_] [_]).
Qed.

(** What the staging directory is made from: the file system as it is, or
    without the staging directory of an earlier run. *)
Lemma prepare_staging_ok self st st' :
  prepare_staging self st = (Ok tt, st') →
  ∃ t0,
    (exists_ (temp_dir self) (files st) = false ∧ t0 = files st ∨
     node_at (temp_dir self) (files st) = Some Dir ∧
     t0 = remove_tree (temp_dir self) (files st)) ∧
    mkdir_parents false (converted_dir self) t0 = Ok (files st') ∧
    changes st' = changes st ∧ warnings st' = warnings st ∧
    stdout st' = stdout st.
Proof.
  unfold prepare_staging. mnorm. unfold bind at 1, get_files.
  destruct (exists_ (temp_dir self) (files st)) eqn:He.
  - intros ([] & st1 & Hrm & Hmk)%bind_inv_ok.
    unfold fs_call in Hrm, Hmk.
    destruct (rmtree (temp_dir self) (files st)) as [t0|] eqn:Hr; [|done].
    apply rmtree_inv in Hr as (-> & Hd). injection Hrm as <-.
    cbn [files] in Hmk.
    destruct (mkdir_parents false _ _) as [t1|] eqn:Hm; [|done].
    injection Hmk as <-. eexists. split; [by right|]. done.
  - rewrite bind_run, ret_run. unfold fs_call.
    destruct (mkdir_parents false _ _) as [t1|] eqn:Hm; [|done].
    intros [= <-]. eexists. split; [by left|]. done.
Qed.

(** Once made, the staging directory is a directory. *)
Lemma prepare_staging_dir self st st' :
  prepare_staging self st = (Ok tt, st') →
  node_at (temp_dir self) (files st') = Some Dir ∧
  node_at (converted_dir self) (files st') = Some Dir.
Proof.
  intros (t0 & _ & Hmk & _)%prepare_staging_ok. split.
  - apply (mkdir_parents_fresh _ _ _ _ Hmk), under_temp_dir_converted.
  - by apply (mkdir_parents_dir _ _ _ _ Hmk).
Qed.

(** When the staging directory cannot be made, there is none. *)
Lemma prepare_staging_raise self st e st' :
  prepare_staging self st = (Raise e, st') →
  node_at (temp_dir self) (files st') ≠ Some Dir.
Proof.
  unfold prepare_staging. mnorm. unfold bind at 1, get_files.
  destruct (exists_ (temp_dir self) (files st)) eqn:He.
  - rewrite bind_run. unfold fs_call.
    destruct (rmtree (temp_dir self) (files st)) as [t0|] eqn:Hr.
    + apply rmtree_inv in Hr as (-> & Hd).
      destruct (mkdir_parents false _ _) as [t1|] eqn:Hm; [done|].
      intros [= <- <-]. cbn [files].
      rewrite node_at_remove_tree by apply temp_dir_not_nil.
      by rewrite under_refl.
    + intros [= <- <-]. unfold rmtree in Hr.
      by destruct (node_at (temp_dir self) (files st)) as [[|d]|].
  - rewrite bind_run, ret_run. unfold fs_call.
    destruct (mkdir_parents false _ _) as [t1|] eqn:Hm; [done|].
    intros [= <- <-]. unfold exists_ in He.
    by destruct (node_at (temp_dir self) (files st)).
Qed.

Lemma cleanup_dry_run self st :
  dry_run self = true → cleanup self st = (Ok tt, st).
Proof.
  intros Hdry. unfold cleanup. mnorm. unfold bind, get_files.
  by rewrite Hdry, andb_false_r.
Qed.

Lemma cleanup_staging self st :
  dry_run self = false →
  node_at (temp_dir self) (files st) = Some Dir →
  cleanup self st =
    (Ok tt,
     State (remove_tree (temp_dir self) (files st)) (changes st) (warnings st)
       (stdout st)).
Proof.
  intros Hdry Hd. unfold cleanup. mnorm. unfold bind, get_files.
  unfold exists_, fs_call, rmtree. rewrite Hdry, Hd. cbn. by rewrite Hd.
Qed.

End Frame.

(** *** What the staging directory is prepared from *)

Section Prepared.
Context {value : Type} `{!Libraries value}.
Implicit Types (self : config) (st : state value).

(** A file there after the preparation was there before. *)
Lemma prepare_staging_file self st st' q data :
  prepare_staging self st = (Ok tt, st') →
  node_at q (files st') = Some (File data) →
  node_at q (files st) = Some (File data) ∧
  (exists_ (temp_dir self) (files st) = true → under (temp_dir self) q = false).
Proof.
  intros (t0 & Ht0 & Hmk & _)%prepare_staging_ok Hq.
  destruct (mkdir_parents_new _ _ _ _ _ _ Hmk Hq) as [Hq0|(? & _)]; [|done].
  destruct Ht0 as [[He ->]|[Hd ->]]; [split; [done|congruence]|].
  destruct q as [|c q]; [done|].
  rewrite node_at_remove_tree in Hq0 by done.
  destruct (under (temp_dir self) (c :: q)); done.
Qed.

(** A directory outside the staging directory is kept. *)
Lemma prepare_staging_keeps_dir self st st' q :
  prepare_staging self st = (Ok tt, st') →
  under (temp_dir self) q = false →
  node_at q (files st) = Some Dir → node_at q (files st') = Some Dir.
Proof.
  intros (t0 & Ht0 & Hmk & _)%prepare_staging_ok Hu Hq.
  apply (mkdir_parents_keeps _ _ _ _ _ _ Hmk).
  destruct Ht0 as [[He ->]|[Hd ->]]; [done|].
  destruct q as [|c q]; [done|]. by rewrite node_at_remove_tree, Hu.
Qed.


End Prepared.

(** *** What the steps append to the change list *)

Section Changes.
Context {value : Type} `{!Libraries value}.
Implicit Types (self : config) (st : state value).



Lemma preserves_lists_log self m :
  preserves (value := value) same_lists (log self m).
Proof. unfold log. by destruct (verbose self). Qed.

Lemma preserves_lists_report self :
  preserves (value := value) same_lists (report self).
Proof.
  assert (∀ A (l : list A) (f : A → event value),
            preserves same_lists (for_each l (λ _ x, print (f x)) tt))
    as Hloop.
  { intros A l f. apply preserves_for_each; [tc_solve|].
    intros [] x _. apply preserves_lists_print. }
  unfold report. mnorm.
  apply preserves_bind; [tc_solve|apply preserves_lists_print|].
  intros _. apply preserves_bind; [tc_solve|by intros st|]. intros st.
  apply preserves_bind; [tc_solve|apply (Hloop _ _ PChange)|]. intros _.
  apply preserves_bind; [tc_solve| |].
  { destruct (warnings st) as [|w ws]; [apply preserves_ret; tc_solve|].
    apply preserves_bind; [tc_solve|apply preserves_lists_print|].
    intros _. apply (Hloop _ _ PWarningLine). }
  intros _. destruct (dry_run self); [apply preserves_ret; tc_solve|].
  apply preserves_bind; [tc_solve|apply preserves_lists_print|].
  intros _. apply preserves_lists_print.
Qed.

Lemma preserves_lists_cleanup self :
  preserves (value := value) same_lists (cleanup self).
Proof.
  unfold cleanup. mnorm.
  apply preserves_bind; [tc_solve|apply preserves_get_files; tc_solve|].
  intros t. destruct (_ && _);
    [apply preserves_lists_call|apply preserves_ret; tc_solve].
Qed.


End Changes.


Section Inversion.
Context {value : Type} `{!Libraries value}.
Implicit Types (self : config) (st : state value).

(** A conversion that returns an archive path went through every step. *)
Lemma convert_ok_inv self st z st' :
  convert self st = (Ok (Some z), st') →
  valid self (files st) = true ∧
  ∃ st1 st2,
    prepare_staging self (started self st) = (Ok tt, st1) ∧
    transform_copy_archive self st1 = (Ok (Some z), st2) ∧
    cleanup self st2 = (Ok tt, st').
Proof.
  intros Hconv. destruct (valid self (files st)) eqn:Hv; last first.
  { destruct (convert_invalid _ _ Hv) as (m & Hc & _). congruence. }
  split; [done|]. rewrite (convert_valid _ _ Hv) in Hconv.
  unfold try_except_finally, convert_body in Hconv. mnorm.
  rewrite bind_run in Hconv.
  destruct (prepare_staging self (started self st)) as [[[]|e] st1] eqn:Hprep.
  - destruct (transform_copy_archive self st1) as [[r|e] st2] eqn:Htca.
    + destruct (cleanup self st2) as [[[]|e] st3] eqn:Hclean; [|done].
      injection Hconv as -> ->. eauto.
    + rewrite bind_run in Hconv. cbn [print] in Hconv.
      rewrite ret_run in Hconv.
      by destruct (cleanup self _) as [[[]|?] ?].
  - rewrite bind_run in Hconv. cbn [print] in Hconv.
    rewrite ret_run in Hconv.
    by destruct (cleanup self _) as [[[]|?] ?].
Qed.

Lemma transform_copy_archive_ok_inv self st z st' :
  transform_copy_archive self st = (Ok (Some z), st') →
  ∃ st1 st2 st3,
    convert_skill_md self (converted_dir self) st = (Ok tt, st1) ∧
    bundle_references self (converted_dir self) st1 = (Ok tt, st2) ∧
    create_zip self (temp_dir self) st2 = (Ok z, st3) ∧
    report self st3 = (Ok tt, st').
Proof.
  unfold transform_copy_archive. mnorm.
  intros ([] & st1 & H1 & ([] & st2 & H2 & (z' & st3 & H3 &
            ([] & st4 & H4 & H5)%bind_inv_ok)%bind_inv_ok)%bind_inv_ok
         )%bind_inv_ok.
  rewrite ret_run in H5. simplify_eq. eauto 10.
Qed.


End Inversion.

(** *** What is staged *)

Section Staged.
Context {value : Type} `{!Libraries value}.
Variable self : config.
Implicit Types (st : state value) (t : fs).

Let output_file := joinpath (converted_dir self) "SKILL.md".
Let staged_refs := converted_dir self ++ ["references"%string].

Global Instance keeps_shape_preorder : PreOrder (keeps_shape self).
Proof.
  split; [by intros t Ht|]. intros t1 t2 t3 H12 H23 H1.
  unfold keeps_shape in *. auto.
Qed.

Lemma keeps_shape_files t t' :
  (∀ q data, node_at q t' = Some (File data) →
             node_at q t = Some (File data)) →
  keeps_shape self t t'.
Proof. intros Hsub Ht q data Hq. apply (Ht q data). auto. Qed.

Lemma keeps_shape_put p data t :
  (under (temp_dir self) p = true →
   p = output_file ∨ under staged_refs p = true) →
  keeps_shape self t (put p (File data) t).
Proof.
  intros Hp Ht q d Hq Hu. destruct (decide (p = q)) as [<-|Hne]; [auto|].
  rewrite node_at_put_ne in Hq by done. eauto.
Qed.


Lemma keeps_shape_unlink p t t' : unlink p t = Ok t' → keeps_shape self t t'.
Proof.
  intros (-> & _)%unlink_inv. apply keeps_shape_files. intros q data Hq.
  destruct q as [|c q]; [done|]. rewrite node_at_remove_entry in Hq by done.
  by case_decide.
Qed.

(** A file listed under the references directory, relative to the
    bundle. *)
Lemma reference_relative_path ref_file rel t :
  ref_file ∈ rglob (joinpath (skill_path self) "references") t →
  relative_to ref_file (skill_path self) = Some rel →
  ∃ c k, rel = "references"%string :: c :: k.
Proof.
  rewrite joinpath_name by done.
  intros (c & k & ->)%rglob_shape Hrel%strip_prefix_Some.
  rewrite <-app_assoc in Hrel. apply app_inv_head in Hrel as <-. eauto.
Qed.



Lemma create_zip_keeps_shape :
  preserves (on_files (keeps_shape self)) (create_zip self (temp_dir self)).
Proof.
  unfold create_zip, zip_one. fold (zip_path self). mnorm. preserves_files.
  - apply keeps_shape_unlink.
  - intros (-> & _)%write_file_inv. apply keeps_shape_put.
    by rewrite zip_path_outside.
  - intros (-> & _)%write_file_inv. apply keeps_shape_put.
    by rewrite zip_path_outside.
Qed.

(** A staging directory made in a tree has no file in it. *)
Lemma prepare_staging_empty st st' :
  tree (files st) →
  prepare_staging self st = (Ok tt, st') →
  ∀ q data, node_at q (files st') = Some (File data) →
            under (temp_dir self) q = false.
Proof.
  intros Htree Hprep q data Hq.
  destruct (prepare_staging_file _ _ _ _ _ Hprep Hq) as [Hq0 Hout].
  destruct (exists_ (temp_dir self) (files st)) eqn:He; [auto|].
  destruct (under (temp_dir self) q) eqn:Hu; [|done].
  unfold exists_ in He.
  destruct (node_at (temp_dir self) (files st)) eqn:Hn; [done|].
  rewrite (tree_nothing_under _ _ _ Htree Hn Hu) in Hq0. done.
Qed.


Global Instance keeps_document_preorder : PreOrder (keeps_document self).
Proof.
  split; [by intros t n|]. intros t1 t2 t3 H12 H23 n Hn.
  unfold keeps_document in *. auto.
Qed.


(** What [cleanup] leaves outside the staging directory. *)
Lemma cleanup_outside st st' q :
  cleanup self st = (Ok tt, st') →
  under (temp_dir self) q = false →
  node_at q (files st') = node_at q (files st).
Proof.
  unfold cleanup. mnorm. unfold bind, get_files.
  destruct (_ && _).
  - unfold fs_call.
    destruct (rmtree (temp_dir self) (files st)) as [t'|] eqn:Hrm; [|done].
    apply rmtree_inv in Hrm as (-> & _). intros [= <-] Hq. cbn [files].
    destruct q as [|c q]; [done|]. by rewrite node_at_remove_tree, Hq.
  - rewrite ret_run. by intros [= <-].
Qed.

End Staged.

(** *** The archive *)

Section Archive.
Context {value : Type} `{!Libraries value}.
Implicit Types (self : config) (st : state value).

Lemma zip_loop_run tmp paths : ∀ acc st r st',
  for_each paths (zip_one (value := value) tmp) acc st = (r, st') →
  st' = st ∧
  ∀ members, r = Ok members →
             members = acc ++ archive_members tmp (files st) paths.
Proof.
  induction paths as [|file_path paths IH]; intros acc st r st'.
  { cbn. intros [= <- <-]. split; [done|]. intros ? [= <-].
    by rewrite app_nil_r. }
  cbn [for_each archive_members]. rewrite bind_run.
  unfold zip_one at 1. mnorm. unfold bind at 1, get_files.
  destruct (node_at file_path (files st)) as [[|data]|].
  - rewrite ret_run. apply IH.
  - destruct (relative_to file_path tmp) as [arc|].
    + rewrite ret_run. intros Hrest.
      destruct (IH _ _ _ _ Hrest) as [-> Hm]. split; [done|].
      intros members ->%Hm. by rewrite <-app_assoc.
    + intros [= <- <-]. done.
  - rewrite ret_run. apply IH.
Qed.

Lemma elem_of_archive_members tmp t paths arc data :
  (arc, data) ∈ archive_members tmp t paths ↔
  ∃ file_path, file_path ∈ paths ∧ node_at file_path t = Some (File data) ∧
               relative_to file_path tmp = Some arc.
Proof.
  induction paths as [|p paths IH]; cbn [archive_members].
  { split; [by intros ?%elem_of_nil|]. by intros (? & ?%elem_of_nil & _). }
  assert ((arc, data) ∈ archive_members tmp t paths →
          ∃ file_path, file_path ∈ p :: paths ∧
            node_at file_path t = Some (File data) ∧
            relative_to file_path tmp = Some arc) as Htail.
  { intros (q & ? & ?)%IH. exists q. split; [by right|done]. }
  split.
  - destruct (node_at p t) as [[|d]|] eqn:Hp; [done| |done].
    destruct (relative_to p tmp) as [a|] eqn:Hr; [|done].
    intros [[= -> ->]|?]%elem_of_cons; [|auto].
    exists p. split; [left|done].
  - intros (q & [->|Hq]%elem_of_cons & Hn & Hr).
    + rewrite Hn, Hr. left.
    + assert ((arc, data) ∈ archive_members tmp t paths) as Hin
        by (apply IH; eauto).
      destruct (node_at p t) as [[|d]|]; [done| |done].
      destruct (relative_to p tmp); [by right|done].
Qed.

(** The archive a run that is not a dry run writes. *)
Lemma create_zip_ok self st z st' :
  dry_run self = false →
  create_zip self (temp_dir self) st = (Ok z, st') →
  z = zip_path self ∧
  ∃ t members,
    members = archive_members (temp_dir self) t
                (rglob (converted_dir self) t) ∧
    files st' = put (zip_path self) (File (zip_bytes members)) t ∧
    (∀ q, under (temp_dir self) q = true → node_at q t = node_at q (files st)) ∧
    rglob (converted_dir self) t = rglob (converted_dir self) (files st) ∧
    changes st' =
      changes st ++ [CreatedZip (skill_name self +:+ ".zip")
                       (size_of (zip_bytes members))] ∧
    warnings st' = warnings st.
Proof.
  intros Hdry. unfold create_zip. rewrite Hdry. fold (zip_path self).
  fold (converted_dir self). mnorm. unfold bind at 1, get_files.
  intros ([] & st1 & Hunlink & Hrest)%bind_inv_ok.
  apply bind_inv_ok in Hrest as ([] & st2 & Hopen & Hrest).
  unfold bind at 1, get_files in Hrest.
  apply bind_inv_ok in Hrest as (members & st3 & Hloop & Hrest).
  apply bind_inv_ok in Hrest as ([] & st4 & Hclose & Hrest).
  apply bind_inv_ok in Hrest as ([] & st5 & Hadd & Hret).
  rewrite ret_run in Hret. injection Hret as <- <-.
  unfold add_change in Hadd. injection Hadd as <-.
  destruct (zip_loop_run _ _ _ _ _ _ Hloop) as [-> Hm].
  specialize (Hm _ eq_refl). cbn [app] in Hm.
  unfold fs_call in Hopen, Hclose.
  destruct (write_file (zip_path self) "" (files st1)) as [t2|] eqn:Hw1;
    [|done]. injection Hopen as <-. cbn [files] in *.
  destruct (write_file (zip_path self) (zip_bytes members) t2) as [t3|]
    eqn:Hw2; [|done]. injection Hclose as <-. cbn [files changes warnings].
  apply write_file_inv in Hw1 as (-> & _ & _).
  apply write_file_inv in Hw2 as (-> & _ & _).
  pose proof (zip_path_outside self) as Hout.
  assert (under (converted_dir self) (zip_path self) = false) as Hout'.
  { destruct (under (converted_dir self) (zip_path self)) eqn:Hu; [|done].
    rewrite <-Hout. symmetry.
    by apply (starts_with_trans _ _ _ (under_temp_dir_converted self)). }
  assert ((∀ q, under (temp_dir self) q = true →
                node_at q (files st1) = node_at q (files st)) ∧
          rglob (converted_dir self) (files st1)
            = rglob (converted_dir self) (files st) ∧
          changes st1 = changes st ∧ warnings st1 = warnings st)
    as (Hsame & Hglob & Hc & Hw).
  { destruct (exists_ (zip_path self) (files st)).
    - unfold fs_call in Hunlink.
      destruct (unlink (zip_path self) (files st)) as [t1|] eqn:Hu; [|done].
      injection Hunlink as <-. cbn [files changes warnings].
      apply unlink_inv in Hu as (-> & _). split_and!; [|by apply rglob_remove_entry|done..].
      intros q Hq. rewrite node_at_remove_entry.
      + case_decide; [congruence|done].
      + intros ->. pose proof (temp_dir_not_nil self).
        by destruct (temp_dir self).
    - rewrite ret_run in Hunlink. by injection Hunlink as <-. }
  split; [done|].
  exists (put (zip_path self) (File "") (files st1)), members.
  split_and!.
  - done.
  - done.
  - intros q Hq. rewrite node_at_put_ne; [by apply Hsame|]. congruence.
  - by rewrite rglob_put.
  - by rewrite Hc.
  - done.
Qed.

End Archive.

(** *** The archive of a conversion *)

Section Conversion.
Context {value : Type} `{!Libraries value}.
Implicit Types (self : config) (st : state value).



End Conversion.

(** *** Dry runs and real runs *)

Section OkYields.
Context {value : Type} `{!Libraries value}.
Implicit Types (self : config) (st : state value).

Lemma ok_yields_of_yields {A} R `{!Reflexive R} (c : M value A) st a cs ws :
  yields c st (Ok a) (files st) cs ws → ok_yields R c st a cs ws.
Proof.
  intros Hy a' st' Hc.
  destruct (yields_inv _ _ _ _ _ _ _ _ Hy Hc) as (Ha & Hf & ? & ?).
  simplify_eq. by rewrite Hf.
Qed.

Lemma ok_yields_raise {A} R (e : exn) st (a : A) cs ws :
  ok_yields R (raise e) st a cs ws.
Proof. by intros a' st'. Qed.

Lemma ok_yields_bind {A B} R `{!Transitive R} (c : M value A)
    (k : A → M value B) st a cs1 ws1 b cs2 ws2 cs ws :
  ok_yields R c st a cs1 ws1 →
  (∀ st1, R (files st) (files st1) → ok_yields R (k a) st1 b cs2 ws2) →
  cs = cs1 ++ cs2 → ws = ws1 ++ ws2 →
  ok_yields R (bind c k) st b cs ws.
Proof.
  intros Hc Hk -> -> b' st' (a' & st1 & Hc1 & Hk1)%bind_inv_ok.
  destruct (Hc _ _ Hc1) as (-> & HR & Hcs & Hws).
  destruct (Hk st1 HR _ _ Hk1) as (-> & HR' & Hcs' & Hws').
  split_and!; [done|by etrans|..]; rewrite ?Hcs', ?Hws', ?Hcs, ?Hws;
    by rewrite app_assoc.
Qed.

Lemma ok_yields_fs_call R (op : fs → outcome fs) st :
  (∀ t', op (files st) = Ok t' → R (files st) t') →
  ok_yields R (fs_call op) st tt [] [].
Proof.
  intros HR [] st'. unfold fs_call.
  destruct (op (files st)) as [t'|e] eqn:Hop; [|done].
  intros [= <-]. cbn. rewrite !app_nil_r. split_and!; auto.
Qed.

Lemma ok_yields_get_files {A} R (k : fs → M value A) st a cs ws :
  ok_yields R (k (files st)) st a cs ws →
  ok_yields R (bind get_files k) st a cs ws.
Proof. intros Hk. exact Hk. Qed.

Lemma yields_get_files {A} (k : fs → M value A) st r t cs ws :
  yields (k (files st)) st r t cs ws →
  yields (bind get_files k) st r t cs ws.
Proof. intros Hk. exact Hk. Qed.

Lemma yields_files {A} (c : M value A) st r t t' cs ws :
  yields c st r t cs ws → t = t' → yields c st r t' cs ws.
Proof. by intros ? <-. Qed.

Lemma yields_warn_total self total st :
  yields (if (WARN_TOTAL_SIZE <? total)%N
          then warn self (TotalSizeExceeds total) else ret tt)
    st (Ok tt) (files st) []
    (if (WARN_TOTAL_SIZE <? total)%N then [TotalSizeExceeds total] else []).
Proof.
  destruct (WARN_TOTAL_SIZE <? total)%N; [apply yields_warn|apply yields_ret].
Qed.

Lemma yields_get_state {A} (k : state value → M value A) st r t cs ws :
  yields (k st) st r t cs ws →
  yields (bind (λ st0, (Ok st0, st0)) k) st r t cs ws.
Proof. intros Hk. exact Hk. Qed.

Lemma yields_print_each {A} (l : list A) (f : A → event value) st :
  yields (for_each l (λ _ x, print (f x)) tt) st (Ok tt) (files st) [] [].
Proof.
  revert st. induction l as [|x l IH]; intros st; [apply yields_ret|].
  cbn [for_each].
  eapply yields_bind; [apply yields_print|intros st1 <-; apply IH|done..].
Qed.

Lemma yields_report self st :
  yields (report self) st (Ok tt) (files st) [] [].
Proof.
  unfold report. mnorm.
  eapply yields_bind; [apply yields_print|intros st1 <-|done..].
  apply yields_get_state.
  eapply yields_bind; [apply yields_print_each|intros st2 <-|done..].
  eapply yields_bind with (cs1 := []) (ws1 := []) (cs2 := []) (ws2 := []);
    [|intros st3 <-|done..].
  - destruct (warnings st1); [apply yields_ret|].
    eapply yields_bind;
      [apply yields_print|intros st3 <-; apply yields_print_each|done..].
  - destruct (dry_run self); [apply yields_ret|].
    eapply yields_bind;
      [apply yields_print|intros st4 <-; apply yields_print|done..].
Qed.

Lemma header_changes_with_dry_run b self fields (h : gmap string value) :
  header_changes (with_dry_run b self) fields h = header_changes self fields h.
Proof.
  revert h. induction fields as [|field fields IH]; intros h; [done|].
  cbn [header_changes]. rewrite !IH. done.
Qed.

Lemma stripped_header_with_dry_run b self fields (h : gmap string value) :
  stripped_header (with_dry_run b self) fields h = stripped_header self fields h.
Proof.
  revert h. induction fields as [|field fields IH]; intros h; [done|].
  cbn [stripped_header]. rewrite !IH. done.
Qed.

End OkYields.

Section DryRun.
Context {value : Type} `{!Libraries value}.
Variable self : config.
Implicit Types (st : state value) (t : fs).

Local Abbreviation skill := (skill_path self).
Local Abbreviation refs := (joinpath (skill_path self) "references").

Lemma scan_one_untouched t t' acc p :
  untouched refs t t' → under refs p = true →
  scan_one skill t' acc p = scan_one skill t acc p.
Proof. intros [_ Hn] Hp. unfold scan_one. by rewrite Hn. Qed.

Lemma scan_untouched t t' paths : ∀ acc,
  untouched refs t t' → Forall (λ p, under refs p = true) paths →
  scan skill t' paths acc = scan skill t paths acc.
Proof.
  induction paths as [|p paths IH]; intros acc Hun Hall; [done|].
  apply Forall_cons in Hall as [Hp Hall]. cbn [scan].
  by rewrite (scan_one_untouched _ _ _ _ Hun Hp), !IH.
Qed.

Lemma rglob_under p t : Forall (λ q, under p q = true) (rglob p t).
Proof. apply Forall_forall. by intros q (Hq & _)%elem_of_rglob. Qed.

Lemma bundle_report_untouched t t' :
  untouched refs t t' →
  bundle_report (value := value) skill t' = bundle_report skill t.
Proof.
  intros Hun. unfold bundle_report.
  destruct Hun as [Hg Hn] eqn:Hu. clear Hu.
  unfold exists_. rewrite Hn by apply under_refl. rewrite Hg.
  rewrite (scan_untouched t t') by (done || apply rglob_under). done.
Qed.

(** A turn of the loop in a dry run. *)
Lemma yields_bundle_one_dry out acc p st :
  dry_run self = true → under skill p = true →
  yields (bundle_one self out acc p) st
    (Ok (scan_one skill (files st) acc p).1) (files st) []
    (scan_one skill (files st) acc p).2.
Proof.
  intros Hdry [k Hk]%starts_with_inv. unfold bundle_one, scan_one. mnorm.
  apply yields_get_files.
  destruct (node_at p (files st)) as [[|data]|];
    [apply yields_ret| |apply yields_ret].
  unfold relative_to. rewrite Hk, strip_prefix_app.
  destruct (should_exclude k).
  { eapply yields_bind;
      [apply yields_log|intros st1 <-; apply yields_ret|done..]. }
  cbv zeta. destruct (MAX_SINGLE_FILE <? size_of data)%N.
  { eapply yields_bind;
      [apply yields_warn|intros st1 <-; apply yields_ret|done..]. }
  rewrite Hdry.
  eapply yields_bind; [apply yields_ret|intros st1 <-|done..].
  eapply yields_bind;
    [apply yields_log|intros st2 <-; apply yields_ret|done..].
Qed.

Lemma yields_bundle_loop_dry out paths : ∀ acc st,
  dry_run self = true → Forall (λ p, under skill p = true) paths →
  yields (for_each paths (bundle_one self out) acc) st
    (Ok (scan skill (files st) paths acc).1) (files st) []
    (scan skill (files st) paths acc).2.
Proof.
  induction paths as [|p paths IH]; intros acc st Hdry Hall.
  { apply yields_ret. }
  apply Forall_cons in Hall as [Hp Hall]. cbn [for_each scan fst snd].
  eapply yields_bind; [by apply yields_bundle_one_dry| |done..].
  intros st1 Hf. rewrite <-Hf. by apply IH.
Qed.

Lemma under_refs_skill p : under refs p = true → under skill p = true.
Proof.
  apply starts_with_trans.
  rewrite joinpath_name by done. apply starts_with_app.
Qed.

Lemma yields_bundle_references_dry out st :
  dry_run self = true →
  yields (bundle_references self out) st (Ok tt) (files st)
    (bundle_report skill (files st)).1 (bundle_report (value := value) skill (files st)).2.
Proof.
  intros Hdry. unfold bundle_references, bundle_report. mnorm. cbv zeta.
  apply yields_get_files.
  destruct (exists_ refs (files st)); cbn [negb fst snd];
    [|apply yields_log].
  eapply yields_bind; [apply yields_bundle_loop_dry; [done|]| | |].
  - eapply Forall_impl; [apply rglob_under|]. apply under_refs_skill.
  - intros st1 Hf1.
    eapply yields_bind; [|intros st2 Hf2|..].
    + eapply yields_files; [apply yields_warn_total|exact Hf1].
    + eapply yields_files; [apply yields_add_change|exact Hf2].
    + reflexivity.
    + symmetry. apply app_nil_r.
  - reflexivity.
  - reflexivity.
Qed.

(** A turn of the loop in any run, read from the file system [t0] the
    walk began with. *)
Lemma ok_yields_bundle_one out acc p st t0 :
  p ∈ rglob refs t0 → untouched refs t0 (files st) →
  (∀ r, under out r = true → under refs r = false) →
  ok_yields (untouched refs) (bundle_one self out acc p) st
    (scan_one skill t0 acc p).1 [] (scan_one skill t0 acc p).2.
Proof.
  intros Hin Hun Hout.
  assert (under refs p = true) as Hp by (by apply elem_of_rglob in Hin as []).
  rewrite <-(scan_one_untouched _ _ _ _ Hun Hp).
  unfold bundle_one, scan_one. mnorm. apply ok_yields_get_files.
  destruct (node_at p (files st)) as [[|data]|];
    [apply ok_yields_of_yields; [tc_solve|apply yields_ret]|
    |apply ok_yields_of_yields; [tc_solve|apply yields_ret]].
  destruct (relative_to p skill) as [rel|] eqn:Hrel; [|apply ok_yields_raise].
  destruct (reference_relative_path self _ _ _ Hin Hrel) as (c & k & ->).
  destruct (should_exclude _).
  { apply ok_yields_of_yields; [tc_solve|].
    eapply yields_bind;
      [apply yields_log|intros st1 <-; apply yields_ret|done..]. }
  cbv zeta. destruct (MAX_SINGLE_FILE <? size_of data)%N.
  { apply ok_yields_of_yields; [tc_solve|].
    eapply yields_bind;
      [apply yields_warn|intros st1 <-; apply yields_ret|done..]. }
  cbn [fst snd].
  eapply ok_yields_bind
    with (a := tt) (cs1 := []) (ws1 := []) (cs2 := []) (ws2 := []);
    [tc_solve| | |done..]; last first.
  { intros st1 _. apply ok_yields_of_yields; [tc_solve|].
    eapply yields_bind;
      [apply yields_log|intros st2 <-; apply yields_ret|done..]. }
  destruct (dry_run self);
    [apply ok_yields_of_yields; [tc_solve|apply yields_ret]|].
  eapply ok_yields_bind
    with (a := tt) (cs1 := []) (ws1 := []) (cs2 := []) (ws2 := []);
    [tc_solve| | |done..].
  - apply ok_yields_fs_call. intros t' Hmk.
    eapply untouched_mkdir_parents; [|exact Hmk].
    apply Hout. unfold parent.
    rewrite removelast_app by done. apply starts_with_app.
  - intros st1 _. apply ok_yields_fs_call. intros t' Hcp.
    eapply untouched_copy2; [|exact Hcp].
    intros r Hr. apply Hout.
    eapply starts_with_trans; [apply starts_with_app|exact Hr].
Qed.

Lemma ok_yields_bundle_loop out t0 paths : ∀ acc st,
  (∀ p, p ∈ paths → p ∈ rglob refs t0) → untouched refs t0 (files st) →
  (∀ r, under out r = true → under refs r = false) →
  ok_yields (untouched refs) (for_each paths (bundle_one self out) acc) st
    (scan skill t0 paths acc).1 [] (scan skill t0 paths acc).2.
Proof.
  induction paths as [|p paths IH]; intros acc st Hall Hun Hout.
  { apply ok_yields_of_yields; [tc_solve|apply yields_ret]. }
  cbn [for_each scan fst snd].
  eapply ok_yields_bind; [tc_solve| | | |].
  - apply ok_yields_bundle_one; [apply Hall; left|done..].
  - intros st1 Hst1. apply IH; [|by etrans|done].
    intros q Hq. apply Hall. by right.
  - reflexivity.
  - reflexivity.
Qed.

Lemma ok_yields_bundle_references out st :
  (∀ r, under out r = true → under refs r = false) →
  ok_yields (untouched refs) (bundle_references self out) st tt
    (bundle_report skill (files st)).1 (bundle_report (value := value) skill (files st)).2.
Proof.
  intros Hout. unfold bundle_references, bundle_report. mnorm. cbv zeta.
  apply ok_yields_get_files.
  destruct (exists_ refs (files st)); cbn [negb fst snd];
    [|apply ok_yields_of_yields; [tc_solve|apply yields_log]].
  eapply ok_yields_bind; [tc_solve| | | |].
  - by apply (ok_yields_bundle_loop out (files st)).
  - intros st1 _. apply ok_yields_of_yields; [tc_solve|].
    eapply yields_bind;
      [apply yields_warn_total|intros st2 <-; apply yields_add_change| |].
    + reflexivity.
    + symmetry. apply app_nil_r.
  - reflexivity.
  - reflexivity.
Qed.

(** The steps of a dry run after the staging directory is made. *)
Lemma yields_transform_copy_archive_dry st content (h : gmap string value) body :
  dry_run self = true →
  node_at (joinpath (skill_path self) "SKILL.md") (files st)
    = Some (File content) →
  parsed content = Ok (YMapping h, body) →
  yields (transform_copy_archive self) st (Ok (Some (zip_path self))) (files st)
    ((header_changes self REMOVE_YAML_FIELDS h
      ++ removal_changes CC_PATTERNS body)
     ++ (bundle_report skill (files st)).1)
    (warning_pass WARNING_PATTERNS (removal_text CC_PATTERNS body)
     ++ (bundle_report (value := value) skill (files st)).2).
Proof.
  intros Hdry Hread Hparsed. unfold transform_copy_archive. mnorm.
  eapply yields_bind; [| |reflexivity..].
  { eapply yields_result.
    - eapply (yields_convert_skill_md self _ st content h body Hread Hparsed).
    - by rewrite Hdry. }
  rewrite Hdry. intros st1 Hf1. rewrite <-Hf1.
  eapply yields_bind with (cs2 := []) (ws2 := []);
    [by apply yields_bundle_references_dry| |by rewrite app_nil_r..].
  intros st2 Hf2.
  eapply yields_bind
    with (cs1 := []) (ws1 := []) (cs2 := []) (ws2 := []); [| |done..].
  { unfold create_zip. rewrite Hdry. fold (zip_path self).
    eapply yields_bind;
      [apply yields_log|
       intros st3 Hf3; eapply yields_files; [apply yields_ret|exact Hf3]|
       done..]. }
  intros st3 Hf3.
  eapply yields_bind
    with (cs1 := []) (ws1 := []) (cs2 := []) (ws2 := []);
    [apply yields_report| |done..].
  intros st4 Hf4.
  eapply yields_files; [apply yields_ret|congruence].
Qed.

End DryRun.

End Steps.

(** * The claims *)

Section Claims.
Context {value : Type} `{!Libraries value}.
Implicit Types (self : config) (st : state value).
Import ReFacts PatternFacts FsFacts Run Steps.

(** C6.  Body cleaning is idempotent: cleaning a body that
    [clean_content] has returned gives the same body back, no removal
    pattern has a match in it, and no entry is added to the change list
    (the file system is not touched either). *)
Theorem clean_content_idempotent self body st :
  ∃ cleaned st1 st2,
    clean_content self body st = (Ok cleaned, st1) ∧
    clean_content self cleaned st1 = (Ok cleaned, st2) ∧
    Forall (λ rule, findall (compiled rule.1) (chars cleaned) = [])
      CC_PATTERNS ∧
    changes st2 = changes st1 ∧
    files st2 = files st1.
Proof.
  set (cleaned := removal_text CC_PATTERNS body).
  assert (Forall (λ rule, findall (compiled rule.1) (chars cleaned) = [])
            CC_PATTERNS) as Hnone.
  { apply Forall_forall. intros rule Hrule.
    apply findall_no_match; [by apply nonempty_removal|].
    unfold cleaned. rewrite removal_text_clean_text.
    by apply clean_text_no_match. }
  eexists cleaned, _, _. split; [apply clean_content_run|].
  rewrite clean_content_run.
  rewrite (removal_text_clean _ _ Hnone), (removal_changes_clean _ _ Hnone).
  cbn [files changes]. rewrite app_nil_r.
  split_and!; [reflexivity|exact Hnone|reflexivity..].
Qed.

(** C7.  For a header that has a restricted field: without the keep flag
    the cleaned header lacks the field and its removal is recorded in the
    change list with the value removed; with the keep flag the header is
    returned as it is and the change list is as before. *)
Theorem restricted_field_removed_unless_kept
    self (h : gmap string value) field v st :
  field ∈ REMOVE_YAML_FIELDS →
  h !! field = Some v →
  ∃ h' st',
    clean_frontmatter self (YMapping h) st = (Ok h', st') ∧
    files st' = files st ∧
    (keep_tools self = false →
       h' !! field = None ∧
       (∀ k, k ≠ field → h' !! k = h !! k) ∧
       changes st' = changes st ++ [RemovedField field v]) ∧
    (keep_tools self = true → h' = h ∧ changes st' = changes st).
Proof.
  unfold REMOVE_YAML_FIELDS. intros ->%list_elem_of_singleton Hv.
  unfold clean_frontmatter, REMOVE_YAML_FIELDS. cbn [for_each].
  rewrite bind_run. unfold remove_field. rewrite Hv.
  destruct (keep_tools self) eqn:Hkeep.
  - exists h, st. done.
  - mnorm. rewrite !bind_run. unfold add_change at 1. unfold log.
    destruct (verbose self); simpl.
    + eexists _, _. split; [done|]. split; [done|]. split; [|done].
      intros _. split_and!; [apply lookup_delete_eq| |done].
      intros k Hk. by apply lookup_delete_ne.
    + eexists _, _. split; [done|]. split; [done|]. split; [|done].
      intros _. split_and!; [apply lookup_delete_eq| |done].
      intros k Hk. by apply lookup_delete_ne.
Qed.


(** C5.  When the source path does not exist, is not a directory or has
    no primary document, [convert] returns [None] and changes nothing but
    the printed output; [main], which has made the output directory
    before, ends with exit status 1, and the archive path and everything at
    or under the staging path are as they were when [main] began. *)
Theorem invalid_bundle_fails_without_work self st :
  exists_ (skill_path self) (files st) = false ∨
  is_dir (skill_path self) (files st) = false ∨
  exists_ (joinpath (skill_path self) "SKILL.md") (files st) = false →
  (∃ message,
     convert self st =
       (Ok None,
        State (files st) (changes st) (warnings st)
          (stdout st ++ [PConverting (skill_name self); message])) ∧
     message ∈ [PNotExist (skill_path self); PNotDir (skill_path self);
                PNoSkillMd (skill_path self)]) ∧
  ∀ st0,
    fs_call (mkdir_parents true (output_dir self)) st0 = (Ok tt, st) →
    exit_status (main self st0) = 1 ∧
    files (main self st0).2 = files st ∧
    changes (main self st0).2 = changes st0 ∧
    warnings (main self st0).2 = warnings st0 ∧
    node_at (zip_path self) (files st) = node_at (zip_path self) (files st0) ∧
    ∀ p, under (temp_dir self) p = true →
         node_at p (files st) = node_at p (files st0).
Proof.
  intros Hbad.
  assert (valid self (files st) = false) as Hinvalid.
  { unfold valid. destruct Hbad as [Hb|[Hb|Hb]]; rewrite Hb;
      by rewrite ?andb_false_r. }
  assert (∃ message,
     convert self st =
       (Ok None,
        State (files st) (changes st) (warnings st)
          (stdout st ++ [PConverting (skill_name self); message])) ∧
     message ∈ [PNotExist (skill_path self); PNotDir (skill_path self);
                PNoSkillMd (skill_path self)]) as (message & Hconv & Hmsg).
  { unfold convert. mnorm. rewrite bind_run. cbn [print].
    match goal with |- context [bind (validate_skill self) _ ?s] =>
      destruct (validate_skill_invalid self s Hinvalid)
        as (message & Hval & Hmsg)
    end.
    rewrite (bind_ok _ _ _ _ _ Hval). cbn.
    exists message. by rewrite <-(app_assoc _ [_] [_]). }
  split; [by exists message|].
  intros st0 Hmk. unfold main. mnorm.
  rewrite (bind_ok _ _ _ _ _ Hmk), (bind_ok _ _ _ _ _ Hconv).
  unfold fs_call in Hmk.
  destruct (mkdir_parents true (output_dir self) (files st0)) as [t1|e]
    eqn:Hmk1; [|done].
  injection Hmk as <-. cbn.
  split_and!; [done..| |].
  - apply (mkdir_parents_elsewhere _ _ _ _ _ Hmk1), zip_path_below.
  - intros p Hp.
    by apply (mkdir_parents_elsewhere _ _ _ _ _ Hmk1), temp_dir_below.
Qed.

(** C9, amended.  In a run that is not a dry run, an exception raised by
    the transform, copy or archive step is caught: [convert] prints it and
    returns [None], nothing is left at or under the staging path, and
    [main] ends with exit status 1. *)
Theorem failure_after_staging_is_cleaned_up self st st1 e st2 :
  dry_run self = false →
  valid self (files st) = true →
  prepare_staging self (started self st) = (Ok tt, st1) →
  transform_copy_archive self st1 = (Raise e, st2) →
  ∃ st',
    convert self st = (Ok None, st') ∧
    PConversionError e ∈ stdout st' ∧
    (∀ p, under (temp_dir self) p = true → node_at p (files st') = None) ∧
    ∀ st0,
      fs_call (mkdir_parents true (output_dir self)) st0 = (Ok tt, st) →
      exit_status (main self st0) = 1.
Proof.
  intros Hdry Hvalid Hprep Hfail.
  destruct (prepare_staging_dir _ _ _ Hprep) as [Htemp _].
  assert (node_at (temp_dir self) (files st2) = Some Dir) as Htemp2.
  { pose proof (transform_copy_archive_keeps_dirs self st1) as Hkeep.
    rewrite Hfail in Hkeep. by apply Hkeep. }
  set (st3 := State (files st2) (changes st2) (warnings st2)
                (stdout st2 ++ [PConversionError e])).
  assert (convert self st =
            (Ok None,
             State (remove_tree (temp_dir self) (files st2)) (changes st2)
               (warnings st2) (stdout st3))) as Hconv.
  { rewrite (convert_valid _ _ Hvalid). unfold try_except_finally.
    unfold convert_body. mnorm.
    rewrite (bind_ok _ _ _ _ _ Hprep), Hfail.
    rewrite bind_run. cbn [print]. rewrite ret_run. fold st3.
    by rewrite (cleanup_staging self st3 Hdry Htemp2). }
  eexists. split; [exact Hconv|]. cbn [stdout files]. split_and!.
  - set_solver.
  - intros p Hp. rewrite node_at_remove_tree, Hp; [done|].
    intros ->. pose proof (temp_dir_not_nil self). by destruct (temp_dir self).
  - intros st0 Hmk. unfold main. mnorm.
    by rewrite (bind_ok _ _ _ _ _ Hmk), (bind_ok _ _ _ _ _ Hconv).
Qed.

(** In a dry run the staging directory is made all the same, and it is
    left behind, whether the conversion succeeds or fails. *)
Lemma dry_run_leaves_staging_directory self st st1 :
  dry_run self = true →
  valid self (files st) = true →
  prepare_staging self (started self st) = (Ok tt, st1) →
  node_at (temp_dir self) (files (convert self st).2) = Some Dir ∧
  node_at (converted_dir self) (files (convert self st).2) = Some Dir.
Proof.
  intros Hdry Hvalid Hprep.
  destruct (prepare_staging_dir _ _ _ Hprep) as [Htemp Hconv].
  pose proof (transform_copy_archive_keeps_dirs self st1) as Hkeep.
  rewrite (convert_valid _ _ Hvalid). unfold try_except_finally.
  unfold convert_body. mnorm. rewrite (bind_ok _ _ _ _ _ Hprep).
  destruct (transform_copy_archive self st1) as [[z|e] st2]; cbn [snd] in Hkeep.
  - rewrite cleanup_dry_run by done. split; by apply Hkeep.
  - rewrite bind_run. cbn [print]. rewrite ret_run.
    rewrite cleanup_dry_run by done. split; by apply Hkeep.
Qed.




(** C2, amended.  When the conversion of a bundle succeeds, so does its
    dry run, with the same warning list; the change list of the
    conversion is that of the dry run followed by the entry for the
    archive.  (The staging directory is taken apart from the references
    directory.) *)
Theorem dry_run_report_lacks_archive_entry self st z st_real :
  apart (joinpath (skill_path self) "references") (temp_dir self) →
  convert (with_dry_run false self) st = (Ok (Some z), st_real) →
  ∃ st_dry zip_size,
    convert (with_dry_run true self) st = (Ok (Some z), st_dry) ∧
    warnings st_dry = warnings st_real ∧
    changes st_real =
      changes st_dry ++ [CreatedZip (skill_name self +:+ ".zip") zip_size].
Proof.
  intros Hapart Hconv.
  set (real := with_dry_run false self) in *.
  set (dry := with_dry_run true self).
  assert (∀ r, under (temp_dir self) r = true →
               under (joinpath (skill_path self) "references") r = false)
    as Houtside.
  { intros r. apply apart_under. destruct Hapart. by split. }
  apply convert_ok_inv in Hconv as (Hvalid & st1 & st2 & Hprep & Htca & Hclean).
  apply transform_copy_archive_ok_inv in Htca
    as (sta & stb & stc & Hmd & Hbundle & Hzip & Hreport).
  destruct (convert_skill_md_ok _ _ _ _ Hmd)
    as (content & h & body & Hread & Hparsed).
  (* the conversion: the document *)
  destruct (yields_inv _ _ _ _ _ _ _ _
              (yields_convert_skill_md real _ st1 content h body
                 Hread Hparsed) Hmd) as (Hr & Hfa & Hca & Hwa).
  change (dry_run real) with false in Hr, Hfa.
  destruct (write_file _ _ (files st1)) as [ta|] eqn:Hw; [|done].
  assert (untouched (joinpath (skill_path self) "references")
            (files st1) (files sta)) as Hun.
  { rewrite Hfa. eapply untouched_write_file; [|exact Hw].
    apply Houtside.
    eapply starts_with_trans;
      [apply (under_temp_dir_converted self)|apply under_joinpath]. }
  (* the conversion: the copying *)
  assert (∀ r, under (converted_dir real) r = true →
               under (joinpath (skill_path real) "references") r = false)
    as Hout.
  { intros r Hunder. apply Houtside.
    eapply starts_with_trans;
      [apply (under_temp_dir_converted self)|exact Hunder]. }
  destruct (ok_yields_bundle_references real (converted_dir real) sta Hout
              _ _ Hbundle) as (_ & _ & Hcb & Hwb).
  rewrite (bundle_report_untouched real _ _ Hun) in Hcb, Hwb.
  (* the conversion: the archive, the report, the cleanup *)
  destruct (create_zip_ok real _ _ _ eq_refl Hzip)
    as (-> & t & members & _ & _ & _ & _ & Hcc & Hwc).
  pose proof (preserves_lists_report real stc) as [Hc2 Hw2].
  rewrite Hreport in Hc2, Hw2. cbn [snd] in Hc2, Hw2.
  pose proof (preserves_lists_cleanup real st2) as [Hc3 Hw3].
  rewrite Hclean in Hc3, Hw3. cbn [snd] in Hc3, Hw3.
  (* the dry run *)
  destruct (yields_transform_copy_archive_dry dry st1 content h body
              eq_refl Hread Hparsed) as (sd & Htd & Hfd & Hcd & Hwd).
  exists sd, (size_of (zip_bytes members)). split_and!.
  - rewrite (convert_valid dry st Hvalid).
    unfold try_except_finally, convert_body. mnorm.
    rewrite (bind_ok _ _ _ _ _
               (Hprep : prepare_staging dry (started dry st) = _)).
    rewrite Htd. by rewrite cleanup_dry_run.
  - rewrite Hwd, Hw3, Hw2, Hwc, Hwb, Hwa. by rewrite app_assoc.
  - rewrite Hcd, Hc3, Hc2, Hcc, Hcb, Hca.
    unfold dry, real. rewrite !header_changes_with_dry_run.
    by rewrite !app_assoc.
Qed.

End Claims.

(** * The claims on concrete bundles *)

(** C1, at a bundle the converter accepts.  The dry run of [demo] ends
    with exit status 0 and no archive, but the staging directory
    [.demo_temp] and its subdirectory [demo], which were not there
    before, are there afterwards. *)
Theorem dry_run_creates_staging_directory :
  let r := main (Demo.demo_cfg true) (Demo.start Demo.demo_fs) in
  exit_status r = 0 ∧
  exists_ ["home"; "out"; ".demo_temp"]%string Demo.demo_fs = false ∧
  is_dir ["home"; "out"; ".demo_temp"]%string (files r.2) = true ∧
  is_dir ["home"; "out"; ".demo_temp"; "demo"]%string (files r.2) = true ∧
  exists_ ["home"; "out"; "demo.zip"]%string (files r.2) = false.
Proof. vm_compute. done. Qed.

Lemma restricted_field_removed_unless_kept_witness :
  ∃ h' st',
    clean_frontmatter (Demo.demo_cfg false)
      (YMapping {[ "allowed-tools"%string := "Bash"%string ]})
      (Demo.start []) = (Ok h', st') ∧
    h' !! "allowed-tools"%string = None ∧
    changes st' = [RemovedField "allowed-tools" "Bash"%string].
Proof.
  destruct (restricted_field_removed_unless_kept (Demo.demo_cfg false)
              {[ "allowed-tools"%string := "Bash"%string ]}
              "allowed-tools" "Bash"%string (Demo.start []))
    as (h' & st' & Hrun & _ & Hremoved & _).
  - by apply list_elem_of_singleton.
  - apply lookup_singleton_eq.
  - exists h', st'. destruct (Hremoved eq_refl) as (? & _ & ?). done.
Defined.


Lemma invalid_bundle_fails_without_work_witness :
  exit_status
    (main (Demo.demo_cfg false) (Demo.start [(["home"%string], Dir)])) = 1.
Proof.
  destruct (invalid_bundle_fails_without_work (Demo.demo_cfg false)
              (Demo.start [(["home"%string], Dir);
                           (["home"; "out"]%string, Dir)]))
    as [_ Hmain].
  - left. vm_compute. reflexivity.
  - apply (Hmain (Demo.start [(["home"%string], Dir)])).
    vm_compute. reflexivity.
Defined.

(** C9 as stated fails in a dry run: the exception of the transform step
    is caught and reported and the exit status is 1, but the staging
    directory stays. *)
Lemma dry_run_failure_leaves_staging :
  let r := main (Demo.demo_cfg true) (Demo.start unreadable_fs) in
  exit_status r = 1 ∧
  PConversionError
    (IsADirectoryError ["home"; "skills"; "demo"; "SKILL.md"]%string)
    ∈ stdout r.2 ∧
  is_dir ["home"; "out"; ".demo_temp"]%string (files r.2) = true.
Proof. vm_compute. split_and!; [done| |done]. set_solver. Qed.

Lemma failure_after_staging_is_cleaned_up_witness :
  ∃ e st',
    convert (Demo.demo_cfg false) (Demo.start unreadable_fs) = (Ok None, st') ∧
    PConversionError e ∈ stdout st' ∧
    node_at ["home"; "out"; ".demo_temp"]%string (files st') = None.
Proof.
  edestruct (failure_after_staging_is_cleaned_up (Demo.demo_cfg false)
               (Demo.start unreadable_fs))
    as (st' & Hconv & Hprint & Hgone & _).
  - reflexivity.
  - vm_compute. reflexivity.
  - vm_compute. reflexivity.
  - vm_compute. reflexivity.
  - eexists _, st'. split_and!; [exact Hconv|exact Hprint|].
    apply Hgone. vm_compute. reflexivity.
Defined.





(** The directory rules are tested against the path relative to the
    bundle, which for a walked file begins with [references]: the file
    [references/scripts/run.py] of [demo] is bundled. *)
Lemma scripts_under_references_are_bundled :
  should_exclude ["references"; "scripts"; "run.py"]%string = false ∧
  node_at ["home"; "out"; "demo.zip"]%string
    (files (convert (Demo.demo_cfg false) (Demo.start Demo.demo_fs)).2) =
    Some (File (zip_bytes
      [(["demo"; "SKILL.md"],
        Demo.lines ["---"; "title: Demo"; "---"; "Run [CLI command] now."]);
       (["demo"; "references"; "guide.md"], "guide");
       (["demo"; "references"; "scripts"; "run.py"], "print(1)")]%string)).
Proof. vm_compute. split; reflexivity. Qed.


(** C2 as stated fails: the dry run of [demo] ends with three entries in
    the change list, its conversion with four. *)
Lemma dry_run_change_list_is_shorter :
  let dry := (convert (Demo.demo_cfg true) (Demo.start Demo.demo_fs)).2 in
  let real := (convert (Demo.demo_cfg false) (Demo.start Demo.demo_fs)).2 in
  changes dry =
    [RemovedField "allowed-tools" "Bash"%string;
     ReplacedPattern 1 "Bash\([^)]+\)";
     BundledFiles 2 13] ∧
  changes real = changes dry ++ [CreatedZip "demo.zip" 129] ∧
  changes dry ≠ changes real.
Proof. vm_compute. split_and!; [reflexivity..|discriminate]. Qed.

Lemma dry_run_report_lacks_archive_entry_witness :
  let dry := (convert (Demo.demo_cfg true) (Demo.start Demo.demo_fs)).2 in
  let real := (convert (Demo.demo_cfg false) (Demo.start Demo.demo_fs)).2 in
  ∃ zip_size,
    warnings dry = warnings real ∧
    changes real = changes dry ++ [CreatedZip "demo.zip" zip_size].
Proof.
  edestruct (dry_run_report_lacks_archive_entry (Demo.demo_cfg false)
               (Demo.start Demo.demo_fs))
    as (st_dry & zip_size & Hdry & Hw & Hc).
  - vm_compute. split; reflexivity.
  - vm_compute. reflexivity.
  - intros dry real. exists zip_size.
    assert (dry = st_dry) as ->.
    { subst dry.
      change (Demo.demo_cfg true)
        with (with_dry_run true (Demo.demo_cfg false)).
      by rewrite Hdry. }
    split; [exact Hw|exact Hc].
Defined.

(** * Further properties of the script *)

Module Further.
Import ReFacts FsFacts Run Steps.

(** *** Texts *)

Lemma starts_with_app_l `{EqDecision A} (m x y : list A) :
  starts_with m (x ++ y) = true → length m ≤ length x →
  starts_with m x = true.
Proof.
  revert x. induction m as [|c m IH]; intros [|d x]; simpl; try done.
  - lia.
  - intros [? ?]%andb_true_iff ?. apply andb_true_iff. split; [done|].
    apply IH; [done|lia].
Qed.

Lemma occurs_cons m c s :
  occurs m (c :: s) = starts_with m (c :: s) || occurs m s.
Proof. done. Qed.

(** The header group ends where the closing marker first occurs. *)
Lemma split_at_first_marker h b :
  occurs closing_marker (h ++ nl :: chars "---") = false →
  split_at_marker (h ++ closing_marker ++ b) = Some (h, b).
Proof.
  induction h as [|c h IH]; intros Hocc; rewrite split_at_marker_unfold.
  - change ([] ++ closing_marker ++ b) with (closing_marker ++ b).
    by rewrite strip_prefix_app.
  - change ((c :: h) ++ nl :: chars "---")
      with (c :: (h ++ nl :: chars "---")) in Hocc.
    rewrite occurs_cons in Hocc.
    apply orb_false_iff in Hocc as [Hhere Hlater].
    change ((c :: h) ++ closing_marker ++ b)
      with (c :: h ++ closing_marker ++ b).
    destruct (strip_prefix closing_marker (c :: h ++ closing_marker ++ b))
      as [rest|] eqn:Hs.
    + apply strip_prefix_Some in Hs.
      assert (starts_with closing_marker
                ((c :: h ++ nl :: chars "---") ++ nl :: b) = true) as Hsw.
      { assert ((c :: h ++ nl :: chars "---") ++ nl :: b
                = c :: h ++ closing_marker ++ b) as ->.
        { rewrite <-app_comm_cons, <-app_assoc. reflexivity. }
        rewrite Hs. apply starts_with_app. }
      apply starts_with_app_l in Hsw; [congruence|].
      simpl. rewrite length_app. simpl. lia.
    + rewrite (IH Hlater). done.
Qed.

(** *** Shell patterns *)

Lemma fnmatch_literal (lit s : text) :
  Forall (λ c, c ≠ "*"%char ∧ c ≠ "?"%char) lit →
  Glob.fnmatch_chars lit s = bool_decide (s = lit).
Proof.
  intros Hlit. revert s. induction Hlit as [|c lit [Hs Hq] _ IH]; intros s.
  { by destruct s. }
  cbn [Glob.fnmatch_chars].
  rewrite (proj2 (Ascii.eqb_neq c "*") Hs), (proj2 (Ascii.eqb_neq c "?") Hq).
  destruct s as [|x s]; [done|]. rewrite IH.
  destruct (Ascii.eqb_spec x c) as [->|Hne]; cbn [andb].
  - apply bool_decide_ext. split; [by intros ->|by intros [= ->]].
  - symmetry. apply bool_decide_eq_false_2. by intros [= ? ?].
Qed.

Lemma star_suffix (k : text → bool) (s : text) :
  Glob.star k s = true ↔ ∃ t, t `suffix_of` s ∧ k t = true.
Proof.
  induction s as [|c s IH]; cbn [Glob.star].
  - rewrite orb_false_r. split.
    + intros Hk. by exists [].
    + intros (t & ->%suffix_nil_inv & Hk). done.
  - rewrite orb_true_iff, IH. split.
    + intros [Hk|(t & Ht & Hk)].
      * by exists (c :: s).
      * exists t. split; [by apply suffix_cons_r|done].
    + intros (t & Ht & Hk).
      apply suffix_cons_cases in Ht as [->|Ht]; [by left|right; eauto].
Qed.

Lemma endswith_suffix (s suf : string) :
  endswith s suf = true ↔ chars suf `suffix_of` chars s.
Proof.
  unfold endswith. rewrite starts_with_prefix. symmetry.
  apply suffix_prefix_reverse.
Qed.

(** A pattern [*] followed by plain characters matches the names that
    end with them. *)
Lemma fnmatch_star_literal (name lit : string) :
  Forall (λ c, c ≠ "*"%char ∧ c ≠ "?"%char) (chars lit) →
  Glob.fnmatch name (String "*" lit) = endswith name lit.
Proof.
  intros Hlit. unfold Glob.fnmatch.
  change (chars (String "*" lit)) with ("*"%char :: chars lit).
  cbn [Glob.fnmatch_chars]. change (Ascii.eqb "*" "*") with true. cbv iota.
  apply eq_true_iff_eq. rewrite star_suffix, endswith_suffix. split.
  - intros (t & Ht & Hk). rewrite fnmatch_literal in Hk by done.
    by apply bool_decide_eq_true in Hk as ->.
  - intros Hsuf. exists (chars lit). split; [done|].
    rewrite fnmatch_literal by done. by apply bool_decide_eq_true.
Qed.

Lemma name_of_app (p q : path) : q ≠ [] → name_of (p ++ q) = name_of q.
Proof.
  destruct q as [|x q _] using rev_ind; [done|]. intros _.
  unfold name_of. by rewrite app_assoc, !last_last.
Qed.

Lemma print_each_run {value A} (l : list A) (f : A → event value) st :
  for_each l (λ _ x, print (f x)) tt st =
  (Ok tt, State (files st) (changes st) (warnings st) (stdout st ++ (f <$> l))).
Proof.
  revert st. induction l as [|x l IH]; intros st.
  { cbn. by rewrite app_nil_r, state_eta. }
  cbn [for_each]. rewrite bind_run. cbn [print]. rewrite IH. cbn.
  by rewrite <-app_assoc.
Qed.

(** *** Single steps *)

Section Single.
Context {value : Type} `{!Libraries value}.
Implicit Types (self : config) (st : state value).

Lemma log_run self m st :
  ∃ out, log self m st =
         (Ok tt, State (files st) (changes st) (warnings st) (stdout st ++ out)).
Proof.
  unfold log. destruct (verbose self).
  - by exists [PLog m].
  - exists []. by rewrite app_nil_r, state_eta.
Qed.

Lemma log_then_ret_inv {A} self m (x : A) st a st' :
  bind (log self m) (λ _, ret x) st = (Ok a, st') →
  a = x ∧ files st' = files st ∧ changes st' = changes st ∧
  warnings st' = warnings st.
Proof.
  destruct (log_run self m st) as [out Hlog].
  rewrite (bind_ok _ _ _ _ _ Hlog), ret_run. by intros [= <- <-].
Qed.

Lemma fs_call_inv (op : fs → outcome fs) st st' :
  fs_call op st = (Ok tt, st') →
  op (files st) = Ok (files st') ∧ changes st' = changes st ∧
  warnings st' = warnings st ∧ stdout st' = stdout st.
Proof.
  unfold fs_call. destruct (op (files st)) as [t'|e]; [|done].
  by intros [= <-].
Qed.

Lemma scan_one_counts skill t acc p :
  scan_one skill t acc p =
  (if bundled skill t p then ((acc.1 + file_size t p)%N, S acc.2) else acc,
   match too_large skill t p with Some w => [w] | None => [] end).
Proof.
  unfold scan_one, bundled, too_large, file_size.
  destruct (node_at p t) as [[|data]|]; [done| |done].
  destruct (relative_to p skill) as [rel|]; [|done].
  destruct (should_exclude rel); [done|]. cbv zeta.
  by destruct (MAX_SINGLE_FILE <? size_of data)%N.
Qed.

(** [scan] as a count and a sum over the files it keeps. *)
Lemma scan_counts skill t paths : ∀ acc,
  scan skill t paths acc =
  (((acc.1 + sizes t (filter (λ p, bundled skill t p = true) paths))%N,
    acc.2 + length (filter (λ p, bundled skill t p = true) paths)),
   omap (too_large skill t) paths).
Proof.
  induction paths as [|p paths IH]; intros [total copied].
  { cbn. by rewrite N.add_0_r, Nat.add_0_r. }
  cbn [scan]. rewrite !IH, scan_one_counts. cbn [fst snd].
  assert (match too_large skill t p with Some w => [w] | None => [] end
          ++ omap (too_large skill t) paths
          = omap (too_large skill t) (p :: paths)) as ->.
  { cbn [omap list_omap]. by destruct (too_large skill t p). }
  destruct (bundled skill t p) eqn:Hb.
  - rewrite (filter_cons_True (λ p, bundled skill t p = true)) by done.
    unfold sizes. cbn [fst snd foldr length]. f_equal. f_equal; lia.
  - by rewrite (filter_cons_False (λ p, bundled skill t p = true))
      by (by rewrite Hb).
Qed.

End Single.

(** *** The calls of a conversion *)

Lemma under_snoc (q l : path) x :
  under q (l ++ [x]) = true → q = l ++ [x] ∨ under q l = true.
Proof.
  intros [k Hk]%starts_with_inv.
  destruct k as [|y k _] using rev_ind.
  - left. by rewrite app_nil_r in Hk.
  - right. rewrite app_assoc in Hk. apply app_inj_tail in Hk as [-> _].
    apply starts_with_app.
Qed.

Lemma tree_above t p a n :
  tree t → node_at p t = Some n → under a p = true → a ≠ p →
  node_at a t = Some Dir.
Proof.
  intros Ht Hp [k ->]%starts_with_inv Hne. revert n Hp.
  induction k as [|c k IH] using rev_ind; intros n Hp.
  { by rewrite app_nil_r in Hne. }
  apply Ht in Hp. rewrite app_assoc, parent_snoc in Hp.
  destruct (decide (k = [])) as [->|Hk]; [by rewrite app_nil_r in Hp|].
  apply (IH (λ Heq, Hk (app_inv_head a k [] (eq_trans (eq_sym Heq)
                                              (eq_sym (app_nil_r a)))))
           _ Hp).
Qed.

Section Calls.
Context {value : Type} `{!Libraries value}.
Variable self : config.
Implicit Types (st : state value) (t : fs).

(** A relation that holds of the calls a conversion makes holds of the
    conversion, whatever its outcome. *)
Lemma convert_preserves (Rf : relation fs) `{!PreOrder Rf} :
  (∀ t t', rmtree (temp_dir self) t = Ok t' → Rf t t') →
  (∀ ok p t t', under (temp_dir self) p = true →
                mkdir_parents ok p t = Ok t' → Rf t t') →
  (dry_run self = false →
   ∀ p data t, under (temp_dir self) p = true ∨ p = zip_path self →
               node_at p t ≠ Some Dir → p ≠ [] →
               Rf t (put p (File data) t)) →
  (dry_run self = false →
   ∀ t t', unlink (zip_path self) t = Ok t' → Rf t t') →
  preserves (on_files Rf) (convert self).
Proof.
  intros Hrm Hmk Hput Hunlink.
  assert (preserves (value := value) (on_files Rf) (prepare_staging self))
    as Hprepare.
  { unfold prepare_staging. mnorm. preserves_files.
    - apply Hrm.
    - apply Hmk, under_temp_dir_converted. }
  assert (preserves (on_files Rf)
            (convert_skill_md self (converted_dir self))) as Hmd.
  { unfold convert_skill_md. mnorm. preserves_files.
    intros (-> & Hnd & Hne)%write_file_inv. apply Hput; [done| |done..].
    left. eapply starts_with_trans;
      [apply under_temp_dir_converted|apply under_joinpath]. }
  assert (preserves (value := value) (on_files Rf)
            (bundle_references self (converted_dir self))) as Hbundle.
  { unfold bundle_references, bundle_one. mnorm. preserves_files.
    - match goal with
      | Hin : _ ∈ rglob _ _, Hrel : relative_to _ _ = Some _ |- _ =>
          destruct (reference_relative_path self _ _ _ Hin Hrel)
            as (c & k & ->)
      end.
      apply Hmk. unfold parent. rewrite removelast_app by done.
      eapply starts_with_trans;
        [apply under_temp_dir_converted|apply starts_with_app].
    - intros (copied & target & _ & -> & Hu & Hnd & Hne)%copy2_inv.
      apply Hput; [done| |done..]. left.
      eapply starts_with_trans; [apply under_temp_dir_converted|].
      eapply starts_with_trans; [apply starts_with_app|exact Hu]. }
  assert (preserves (on_files Rf) (create_zip self (temp_dir self))) as Hzip.
  { unfold create_zip, zip_one. fold (zip_path self). mnorm. preserves_files.
    - by apply Hunlink.
    - intros (-> & Hnd & Hne)%write_file_inv. apply Hput; auto.
    - intros (-> & Hnd & Hne)%write_file_inv. apply Hput; auto. }
  assert (preserves (value := value) (on_files Rf) (cleanup self)) as Hclean.
  { unfold cleanup. mnorm. preserves_files. apply Hrm. }
  unfold convert. mnorm.
  apply preserves_bind; [tc_solve|by apply preserves_files_print|intros _].
  apply preserves_bind; [tc_solve| |intros ok].
  { unfold validate_skill. mnorm. preserves_files. }
  destruct (negb ok); [apply preserves_ret; tc_solve|].
  apply preserves_try; [tc_solve| | |done].
  - unfold convert_body, transform_copy_archive. mnorm.
    apply preserves_bind; [tc_solve|done|intros _].
    apply preserves_bind; [tc_solve|done|intros _].
    apply preserves_bind; [tc_solve|done|intros _].
    apply preserves_bind; [tc_solve|done|intros z].
    preserves_files.
  - intros e. preserves_files.
Qed.

(** [main] makes the output directory and converts. *)
Lemma main_preserves (Rf : relation fs) `{!PreOrder Rf} :
  (∀ t t', mkdir_parents true (output_dir self) t = Ok t' → Rf t t') →
  preserves (on_files Rf) (convert self) →
  preserves (on_files Rf) (main self).
Proof.
  intros Hmk Hconv. unfold main. mnorm.
  apply preserves_bind; [tc_solve| |intros _].
  { apply preserves_files_call; [tc_solve|exact Hmk]. }
  apply preserves_bind; [tc_solve|done|intros r].
  destruct r; preserves_files.
Qed.

Global Instance only_touches_preorder allowed :
  PreOrder (only_touches self allowed).
Proof.
  split.
  - by intros t Ht.
  - intros t1 t2 t3 H12 H23 H1. destruct (H12 H1) as [H2 Hs12].
    destruct (H23 H2) as [H3 Hs23]. split; [done|].
    intros q Hq. by rewrite Hs23, Hs12.
Qed.

Global Instance no_new_file_preorder : PreOrder no_new_file.
Proof.
  split; [by intros t q data|]. intros t1 t2 t3 H12 H23 q data Hq.
  unfold no_new_file in *. auto.
Qed.

Global Instance outer_dirs_kept_preorder : PreOrder (outer_dirs_kept self).
Proof.
  split; [by intros t q|]. intros t1 t2 t3 H12 H23 q Hq Hd.
  unfold outer_dirs_kept in *. auto.
Qed.

Lemma above_temp_dir a :
  under a (temp_dir self) = true →
  a = temp_dir self ∨ under a (output_dir self) = true.
Proof. rewrite temp_dir_eq. apply under_snoc. Qed.

Section Allowed.
Variable allowed : path → bool.
Hypothesis Hstaging : ∀ p, under (temp_dir self) p = true → allowed p = true.
Hypothesis Habove : ∀ p, allowed p = true → under p (output_dir self) = false.

Lemma only_touches_put p n t :
  allowed p = true → only_touches self allowed t (put p n t).
Proof.
  intros Hp Hready. split.
  - intros a Ha. rewrite node_at_put_ne; [by apply Hready|].
    intros ->. apply Habove in Hp. congruence.
  - intros q Hq. apply node_at_put_ne. congruence.
Qed.

Lemma only_touches_mkdir_parents ok p t t' :
  under (temp_dir self) p = true →
  mkdir_parents ok p t = Ok t' → only_touches self allowed t t'.
Proof.
  intros Hp Hmk Hready. split.
  - intros a Ha. by apply (mkdir_parents_keeps _ _ _ _ _ _ Hmk), Hready.
  - intros q Hq. destruct (under q p) eqn:Hqp;
      [|by apply (mkdir_parents_elsewhere _ _ _ _ _ Hmk)].
    destruct (starts_with_both _ _ _ Hqp Hp) as [Hab|Hin];
      [|apply Hstaging in Hin; congruence].
    apply above_temp_dir in Hab as [->|Hab].
    { rewrite Hstaging in Hq by apply under_refl. done. }
    rewrite (Hready _ Hab).
    by apply (mkdir_parents_keeps _ _ _ _ _ _ Hmk), Hready.
Qed.

Lemma only_touches_remove_tree t :
  only_touches self allowed t (remove_tree (temp_dir self) t).
Proof.
  intros Hready. split.
  - intros a Ha. destruct a as [|c a]; [done|].
    rewrite node_at_remove_tree by done.
    destruct (under (temp_dir self) (c :: a)) eqn:Hu; [|by apply Hready].
    apply temp_dir_below in Hu. congruence.
  - intros q Hq. destruct q as [|c q]; [done|].
    rewrite node_at_remove_tree by done.
    destruct (under (temp_dir self) (c :: q)) eqn:Hu; [|done].
    apply Hstaging in Hu. congruence.
Qed.

Lemma only_touches_remove_entry p t :
  allowed p = true → only_touches self allowed t (remove_entry p t).
Proof.
  intros Hp Hready. split.
  - intros a Ha. destruct a as [|c a]; [done|].
    rewrite node_at_remove_entry by done. case_decide as Heq.
    + rewrite Heq in Ha. apply Habove in Hp. congruence.
    + by apply Hready.
  - intros q Hq. destruct q as [|c q]; [done|].
    rewrite node_at_remove_entry by done. case_decide; [|done]. congruence.
Qed.

(** A conversion changes only what is allowed, when the staging
    directory is and, unless the run is a dry run, the archive. *)
Lemma convert_only_touches :
  (dry_run self = false → allowed (zip_path self) = true) →
  preserves (value := value) (on_files (only_touches self allowed))
    (convert self).
Proof.
  intros Hzip. apply convert_preserves; [tc_solve|..].
  - intros t t' (-> & _)%rmtree_inv. apply only_touches_remove_tree.
  - intros ok p t t'. apply only_touches_mkdir_parents.
  - intros Hdry p data t [Hp| ->] _ _; apply only_touches_put; auto.
  - intros Hdry t t' (-> & _)%unlink_inv. apply only_touches_remove_entry.
    auto.
Qed.

End Allowed.

Lemma convert_no_new_file :
  dry_run self = true →
  preserves (value := value) (on_files no_new_file) (convert self).
Proof.
  intros Hdry. apply convert_preserves; [tc_solve|..]; try congruence.
  - intros t t' (-> & _)%rmtree_inv q data Hq.
    destruct q as [|c q]; [done|].
    rewrite node_at_remove_tree in Hq by done.
    by destruct (under (temp_dir self) (c :: q)).
  - intros ok p t t' _ Hmk q data Hq.
    by destruct (mkdir_parents_new _ _ _ _ _ _ Hmk Hq) as [?|[? _]].
Qed.

Lemma convert_outer_dirs_kept :
  preserves (value := value) (on_files (outer_dirs_kept self)) (convert self).
Proof.
  apply convert_preserves; [tc_solve|..].
  - intros t t' (-> & _)%rmtree_inv q Hq Hd.
    destruct q as [|c q]; [done|].
    by rewrite node_at_remove_tree, Hq.
  - intros ok p t t' _ Hmk q _. by apply (mkdir_parents_keeps _ _ _ _ _ _ Hmk).
  - intros _ p data t _ Hnd _ q _ Hd. rewrite node_at_put_ne; [done|].
    intros ->. done.
  - intros _ t t' (-> & data & Hp)%unlink_inv q _ Hd.
    destruct q as [|c q]; [done|].
    rewrite node_at_remove_entry by done. case_decide; [congruence|done].
Qed.

Lemma tree_ready t :
  tree t → is_dir (output_dir self) t = true → ready self t.
Proof.
  intros Ht Hd a Ha. unfold is_dir in Hd.
  destruct (node_at (output_dir self) t) as [[|d]|] eqn:Hn; try done.
  destruct (decide (a = output_dir self)) as [->|Hne]; [done|].
  by eapply tree_above.
Qed.

End Calls.

(** *** The staging directory at the end *)

Section Cleanup.
Context {value : Type} `{!Libraries value}.
Variable self : config.
Implicit Types (st : state value) (t : fs).

(** When the staging directory cannot be made, the file system is as
    it was, or without the staging directory of an earlier run. *)
Lemma prepare_staging_raise_files st e st' :
  prepare_staging self st = (Raise e, st') →
  files st' = files st ∨ files st' = remove_tree (temp_dir self) (files st).
Proof.
  unfold prepare_staging. mnorm. unfold bind at 1, get_files.
  destruct (exists_ (temp_dir self) (files st)).
  - rewrite bind_run. unfold fs_call at 1.
    destruct (rmtree (temp_dir self) (files st)) as [t0|] eqn:Hr.
    + apply rmtree_inv in Hr as (-> & _). unfold fs_call.
      cbn [files]. destruct (mkdir_parents false _ _); [done|].
      intros [= <- <-]. by right.
    + intros [= <- <-]. by left.
  - rewrite bind_run, ret_run. unfold fs_call.
    destruct (mkdir_parents false _ _); [done|]. intros [= <- <-]. by left.
Qed.

Lemma cleanup_file st data :
  dry_run self = false →
  node_at (temp_dir self) (files st) = Some (File data) →
  cleanup self st = (Raise (NotADirectoryError (temp_dir self)), st).
Proof.
  intros Hdry Hf. unfold cleanup. mnorm. unfold bind, get_files.
  unfold exists_, fs_call, rmtree. rewrite Hdry, Hf. cbn. by rewrite Hf.
Qed.

Lemma cleanup_absent st :
  node_at (temp_dir self) (files st) = None → cleanup self st = (Ok tt, st).
Proof.
  intros Hf. unfold cleanup. mnorm. unfold bind, get_files.
  unfold exists_. by rewrite Hf.
Qed.

(** After the [finally] block of a run that is not a dry run, if it does
    not raise, nothing is left of the staging directory. *)
Lemma cleanup_leaves_nothing st st' :
  dry_run self = false →
  (node_at (temp_dir self) (files st) = None →
   ∀ p, under (temp_dir self) p = true → node_at p (files st) = None) →
  cleanup self st = (Ok tt, st') →
  ∀ p, under (temp_dir self) p = true → node_at p (files st') = None.
Proof.
  intros Hdry Habsent Hclean p Hp.
  destruct (node_at (temp_dir self) (files st)) as [[|data]|] eqn:Hn.
  - rewrite (cleanup_staging _ _ Hdry Hn) in Hclean.
    injection Hclean as <-. cbn [files].
    destruct p as [|c p]; [by destruct (temp_dir_not_nil self)
                                 ; destruct (temp_dir self)|].
    by rewrite node_at_remove_tree, Hp.
  - by rewrite (cleanup_file _ _ Hdry Hn) in Hclean.
  - rewrite (cleanup_absent _ Hn) in Hclean. injection Hclean as <-.
    by apply Habsent.
Qed.

End Cleanup.

(** *** What is archived *)

Section Archived.
Context {value : Type} `{!Libraries value}.
Variable self : config.
Implicit Types (st : state value) (t : fs).


(** The members of the archive are the regular files of the converted
    directory. *)
Lemma archive_is_what_is_staged stb z stc :
  dry_run self = false →
  skill_name self ≠ ""%string →
  create_zip self (temp_dir self) stb = (Ok z, stc) →
  ∃ members,
    node_at (zip_path self) (files stc) = Some (File (zip_bytes members)) ∧
    ∀ k data, k ≠ [] →
      ((skill_name self :: k, data) ∈ members ↔
       node_at (converted_dir self ++ k) (files stb) = Some (File data)).
Proof.
  intros Hdry Hname Hzip.
  assert (converted_dir self = temp_dir self ++ [skill_name self]) as Hcd
    by (by apply joinpath_name).
  destruct (create_zip_ok _ _ _ _ Hdry Hzip)
    as (-> & t & members & -> & Hfiles & Hsame & Hglob & _).
  eexists. split.
  { rewrite Hfiles. apply node_at_put_eq, zip_path_not_nil. }
  intros k data Hk. rewrite elem_of_archive_members. split.
  - intros (q & Hq & Hnode & Hrel%strip_prefix_Some). subst q.
    rewrite Hsame in Hnode by apply starts_with_app.
    by rewrite Hcd, <-app_assoc.
  - intros Hnode. exists (converted_dir self ++ k). split_and!.
    + rewrite Hglob. apply elem_of_rglob. split_and!.
      * apply starts_with_app.
      * intros Heq. rewrite <-(app_nil_r (converted_dir self)) in Heq at 2.
        by apply app_inv_head in Heq.
      * destruct (converted_dir self ++ k) eqn:Hp;
          [by destruct (converted_dir self), k|].
        by eapply find_entry_Some_elem.
    + rewrite Hsame; [done|].
      apply (starts_with_trans _ _ _ (under_temp_dir_converted self)),
        starts_with_app.
    + rewrite Hcd, <-app_assoc. apply strip_prefix_app.
Qed.

(** The archive is not touched after it is written. *)
Lemma archive_stays stc st2 st' :
  report self stc = (Ok tt, st2) →
  cleanup self st2 = (Ok tt, st') →
  node_at (zip_path self) (files st') = node_at (zip_path self) (files stc).
Proof.
  intros Hreport Hclean.
  rewrite (cleanup_outside _ _ _ _ Hclean (zip_path_outside self)).
  pose proof (preserves_files_report eq self stc) as Hrep.
  rewrite Hreport in Hrep. unfold on_files in Hrep. cbn in Hrep.
  by rewrite <-Hrep.
Qed.

End Archived.

(** *** What is copied *)

Lemma under_app_inv (a x y : path) :
  under (a ++ x) (a ++ y) = true → under x y = true.
Proof.
  intros [k Hk]%starts_with_inv. rewrite <-app_assoc in Hk.
  apply app_inv_head in Hk as ->. apply starts_with_app.
Qed.

Lemma under_antisym (p q : path) :
  under p q = true → under q p = true → p = q.
Proof.
  intros [k ->]%starts_with_inv Hqp. apply starts_with_length in Hqp.
  rewrite length_app in Hqp. destruct k; [by rewrite app_nil_r|].
  simpl in Hqp. lia.
Qed.

Section Copies.
Context {value : Type} `{!Libraries value}.
Variable self : config.
Implicit Types (st : state value) (t : fs).

Local Abbreviation skill := (skill_path self).
Local Abbreviation refs := (joinpath (skill_path self) "references").
Local Abbreviation out := (converted_dir self).

(** A staging directory made in a tree holds its two directories and
    nothing else. *)
Lemma prepare_staging_fresh st st' q n :
  tree (files st) →
  prepare_staging self st = (Ok tt, st') →
  under (temp_dir self) q = true →
  node_at q (files st') = Some n →
  n = Dir ∧ (q = temp_dir self ∨ q = converted_dir self).
Proof.
  intros Htree (t0 & Ht0 & Hmk & _)%prepare_staging_ok Hq Hn.
  assert (node_at q t0 = None) as Hnone.
  { destruct Ht0 as [[He ->]|[_ ->]].
    - apply (tree_nothing_under _ (temp_dir self)); [done| |done].
      unfold exists_ in He. by destruct (node_at (temp_dir self) (files st)).
    - destruct q as [|c q]; [by destruct (temp_dir_not_nil self)
                                  ; destruct (temp_dir self)|].
      by rewrite node_at_remove_tree, Hq. }
  destruct (mkdir_parents_new _ _ _ _ _ _ Hmk Hn) as [?|(-> & _ & Hu)];
    [congruence|].
  split; [done|]. unfold converted_dir, joinpath in Hu |- *.
  case_bool_decide; [left; by apply under_antisym|].
  apply under_snoc in Hu as [->|Hu]; [by right|].
  left. by apply under_antisym.
Qed.

Lemma prepare_staging_untouched st st' :
  apart refs (temp_dir self) →
  prepare_staging self st = (Ok tt, st') →
  untouched refs (files st) (files st').
Proof.
  intros Hapart (t0 & Ht0 & Hmk & _)%prepare_staging_ok.
  transitivity t0.
  - destruct Ht0 as [[_ ->]|[_ ->]]; [done|].
    by apply untouched_remove_tree.
  - eapply untouched_mkdir_parents; [|exact Hmk].
    apply (apart_under (temp_dir self)).
    + destruct Hapart. by split.
    + apply under_temp_dir_converted.
Qed.

Section Loop.
Variable t0 : fs.
Hypothesis Hdry : dry_run self = false.
Hypothesis Htree : tree t0.
Hypothesis Hout : ∀ r, under out r = true → under refs r = false.

(** The copies made so far are still there, and what is staged follows
    the bundle. *)
Definition staged t : Prop :=
  untouched refs t0 t ∧ mirrors skill out t0 t.

Definition copies_kept t t' : Prop :=
  ∀ rel data, node_at (skill ++ rel) t0 = Some (File data) →
              node_at (out ++ rel) t = Some (File data) →
              node_at (out ++ rel) t' = Some (File data).

Lemma bundle_one_copies acc p st a st' :
  p ∈ rglob refs t0 →
  staged (files st) →
  bundle_one self out acc p st = (Ok a, st') →
  staged (files st') ∧ copies_kept (files st) (files st') ∧
  (bundled skill t0 p = true →
   ∀ rel data, relative_to p skill = Some rel →
               node_at p t0 = Some (File data) →
               node_at (out ++ rel) (files st') = Some (File data)).
Proof.
  intros Hin [Hun Hmirror].
  assert (under refs p = true) as Hp by (by apply elem_of_rglob in Hin as []).
  assert (∀ st1 : state value, files st1 = files st →
            staged (files st1) ∧ copies_kept (files st) (files st1)) as Hsame.
  { intros st1 ->. split; [by split|]. by intros rel data. }
  unfold bundle_one. mnorm. unfold bind at 1, get_files.
  rewrite (proj2 Hun p Hp).
  destruct (node_at p t0) as [[|data]|] eqn:Hnode.
  { rewrite ret_run. intros [= <- <-]. destruct (Hsame st eq_refl).
    split_and!; [done..|]. unfold bundled. by rewrite Hnode. }
  2: { rewrite ret_run. intros [= <- <-]. destruct (Hsame st eq_refl).
       split_and!; [done..|]. unfold bundled. by rewrite Hnode. }
  destruct (relative_to p skill) as [rel|] eqn:Hrel; [|done].
  destruct (reference_relative_path self _ _ _ Hin Hrel) as (c & k & Hshape).
  destruct (should_exclude rel) eqn:Hex.
  { intros (_ & Hf & _)%log_then_ret_inv. destruct (Hsame st' Hf).
    split_and!; [done..|]. unfold bundled. by rewrite Hnode, Hrel, Hex. }
  cbv zeta. destruct (MAX_SINGLE_FILE <? size_of data)%N eqn:Hbig.
  { rewrite bind_run, warn_run, ret_run. intros [= <- <-].
    destruct (Hsame (State (files st) (changes st)
                       (warnings st ++ [FileTooLarge (size_of data) rel])
                       (stdout st ++ echo self
                          [FileTooLarge (size_of data) rel])) eq_refl).
    split_and!; [done..|]. unfold bundled.
    by rewrite Hnode, Hrel, Hex, Hbig. }
  rewrite Hdry.
  intros ([] & st2 & Hcopy & (_ & Hf & _)%log_then_ret_inv)%bind_inv_ok.
  apply bind_inv_ok in Hcopy
    as ([] & st1 & (Hmk & _)%fs_call_inv & (Hcp & _)%fs_call_inv).
  rewrite Hf. clear Hf Hsame.
  apply strip_prefix_Some in Hrel as Hpath.
  (* the directories made *)
  assert (mirrors skill out t0 (files st1)) as Hmirror1.
  { intros k' Hk' Hd.
    destruct (mkdir_parents_new _ _ _ _ _ _ Hmk Hd) as [Hold|(_ & _ & Hu)];
      [by apply Hmirror|].
    unfold parent in Hu. rewrite Hshape, removelast_app in Hu by done.
    apply under_app_inv in Hu.
    apply (tree_above t0 p _ (File data)); [done|done| |].
    - rewrite Hpath, Hshape.
      apply starts_with_inv in Hu as [x Hx].
      rewrite (app_removelast_last (l := "references"%string :: c :: k) ""%string)
        by done.
      rewrite Hx, <-!app_assoc, app_assoc. apply starts_with_app.
    - rewrite Hpath, Hshape. intros Heq. apply app_inv_head in Heq.
      apply starts_with_length in Hu. rewrite Heq in Hu.
      assert (length (removelast ("references"%string :: c :: k))
              < length ("references"%string :: c :: k)); [|lia].
      rewrite (app_removelast_last (l := "references"%string :: c :: k)
                 ""%string) at 2 by done.
      rewrite length_app. simpl. lia. }
  assert (node_at (out ++ rel) (files st1) ≠ Some Dir) as Hnodir.
  { intros Hd. apply Hmirror1 in Hd; [|by rewrite Hshape].
    rewrite <-Hpath in Hd. congruence. }
  assert (node_at p (files st1) = Some (File data)) as Hsrc.
  { apply (mkdir_parents_keeps _ _ _ _ _ _ Hmk). by rewrite (proj2 Hun p Hp). }
  unfold copy2, read_text, is_dir in Hcp. rewrite Hsrc in Hcp.
  destruct (node_at (out ++ rel) (files st1)) as [[|d]|] eqn:Hdest; [done|..];
    apply write_file_inv in Hcp as (Hput & _ & Hne).
  all: assert (untouched refs t0 (files st2)) as Hun2
      by (transitivity (files st); [done|];
          transitivity (files st1);
          [eapply untouched_mkdir_parents; [|exact Hmk];
           apply Hout; unfold parent;
           rewrite Hshape, removelast_app by done; apply starts_with_app
          |rewrite Hput; apply untouched_put, Hout, starts_with_app]).
  all: assert (mirrors skill out t0 (files st2)) as Hmirror2
      by (intros k' Hk' Hd; rewrite Hput in Hd;
          destruct (decide (out ++ rel = out ++ k')) as [Heq|Hneq];
          [rewrite <-Heq, node_at_put_eq in Hd by done; done
          |rewrite node_at_put_ne in Hd by done; by apply Hmirror1]).
  all: split_and!; [by split| |].
  all: try (intros rel1 d1 Hs1 Hd1; rewrite Hput;
            destruct (decide (out ++ rel = out ++ rel1)) as [Heq|Hneq];
            [rewrite <-Heq, node_at_put_eq by done;
             apply app_inv_head in Heq as <-; rewrite <-Hpath in Hs1;
             congruence
            |rewrite node_at_put_ne by done;
             by apply (mkdir_parents_keeps _ _ _ _ _ _ Hmk)]).
  all: intros _ rel' data' [= <-] [= <-]; rewrite Hput;
    by apply node_at_put_eq.
Qed.

Lemma bundle_loop_copies paths : ∀ acc st a st',
  (∀ p, p ∈ paths → p ∈ rglob refs t0) →
  staged (files st) →
  for_each paths (bundle_one self out) acc st = (Ok a, st') →
  staged (files st') ∧ copies_kept (files st) (files st') ∧
  ∀ p, p ∈ paths → bundled skill t0 p = true →
       ∀ rel data, relative_to p skill = Some rel →
                   node_at p t0 = Some (File data) →
                   node_at (out ++ rel) (files st') = Some (File data).
Proof.
  induction paths as [|p paths IH]; intros acc st a st' Hall Hst.
  { rewrite for_each_nil, ret_run. intros [= <- <-].
    split_and!; [done|by intros rel data|]. by intros p Hp%elem_of_nil. }
  rewrite for_each_cons.
  intros (a1 & st1 & Hone & Hrest)%bind_inv_ok.
  destruct (bundle_one_copies _ _ _ _ _ (Hall p ltac:(left)) Hst Hone)
    as (Hst1 & Hkept1 & Hcopy1).
  destruct (IH _ _ _ _ (λ q Hq, Hall q ltac:(by right)) Hst1 Hrest)
    as (Hst' & Hkept & Hcopies).
  split_and!; [done| |].
  - intros rel data Hs Hd. by apply Hkept, Hkept1.
  - intros q [->|Hq]%elem_of_cons Hb rel data Hrel Hnode; [|by eauto].
    apply Hkept.
    + apply strip_prefix_Some in Hrel. by rewrite <-Hrel.
    + by eapply Hcopy1.
Qed.

(** A turn of the loop that returns leaves the file system as it was,
    or has made the directories for a counted file and put its copy
    there. *)
Lemma bundle_one_step acc p st a st' :
  p ∈ rglob refs t0 →
  staged (files st) →
  bundle_one self out acc p st = (Ok a, st') →
  files st' = files st ∨
  ∃ rel data t1,
    bundled skill t0 p = true ∧ p = skill ++ rel ∧
    node_at p t0 = Some (File data) ∧
    mkdir_parents true (parent (out ++ rel)) (files st) = Ok t1 ∧
    files st' = put (out ++ rel) (File data) t1.
Proof.
  intros Hin [Hun Hmirror].
  assert (under refs p = true) as Hp by (by apply elem_of_rglob in Hin as []).
  unfold bundle_one. mnorm. unfold bind at 1, get_files.
  rewrite (proj2 Hun p Hp).
  destruct (node_at p t0) as [[|data]|] eqn:Hnode;
    [rewrite ret_run; intros [= <- <-]; by left| |
     rewrite ret_run; intros [= <- <-]; by left].
  destruct (relative_to p skill) as [rel|] eqn:Hrel; [|done].
  destruct (reference_relative_path self _ _ _ Hin Hrel) as (c & k & Hshape).
  destruct (should_exclude rel) eqn:Hex.
  { intros (_ & Hf & _)%log_then_ret_inv. by left. }
  cbv zeta. destruct (MAX_SINGLE_FILE <? size_of data)%N eqn:Hbig.
  { rewrite bind_run, warn_run, ret_run. intros [= <- <-]. by left. }
  rewrite Hdry.
  intros ([] & st2 & Hcopy & (_ & Hf & _)%log_then_ret_inv)%bind_inv_ok.
  apply bind_inv_ok in Hcopy
    as ([] & st1 & (Hmk & _)%fs_call_inv & (Hcp & _)%fs_call_inv).
  rewrite Hf. clear Hf. right.
  apply strip_prefix_Some in Hrel as Hpath.
  assert (mirrors skill out t0 (files st1)) as Hmirror1.
  { intros k' Hk' Hd.
    destruct (mkdir_parents_new _ _ _ _ _ _ Hmk Hd) as [Hold|(_ & _ & Hu)];
      [by apply Hmirror|].
    unfold parent in Hu. rewrite Hshape, removelast_app in Hu by done.
    apply under_app_inv in Hu.
    apply (tree_above t0 p _ (File data)); [done|done| |].
    - rewrite Hpath, Hshape.
      apply starts_with_inv in Hu as [x Hx].
      rewrite (app_removelast_last (l := "references"%string :: c :: k) ""%string)
        by done.
      rewrite Hx, <-!app_assoc, app_assoc. apply starts_with_app.
    - rewrite Hpath, Hshape. intros Heq. apply app_inv_head in Heq.
      apply starts_with_length in Hu. rewrite Heq in Hu.
      assert (length (removelast ("references"%string :: c :: k))
              < length ("references"%string :: c :: k)); [|lia].
      rewrite (app_removelast_last (l := "references"%string :: c :: k)
                 ""%string) at 2 by done.
      rewrite length_app. simpl. lia. }
  assert (node_at (out ++ rel) (files st1) ≠ Some Dir) as Hnodir.
  { intros Hd. apply Hmirror1 in Hd; [|by rewrite Hshape].
    rewrite <-Hpath in Hd. congruence. }
  assert (node_at p (files st1) = Some (File data)) as Hsrc.
  { apply (mkdir_parents_keeps _ _ _ _ _ _ Hmk). by rewrite (proj2 Hun p Hp). }
  unfold copy2, read_text, is_dir in Hcp. rewrite Hsrc in Hcp.
  exists rel, data, (files st1). split_and!; [|done..|].
  { unfold bundled. by rewrite Hnode, Hrel, Hex, Hbig. }
  destruct (node_at (out ++ rel) (files st1)) as [[|d]|] eqn:Hdest; [done|..];
    by apply write_file_inv in Hcp as (Hput & _ & Hne).
Qed.

(** The regular files staged under [references] are copies of counted
    files of the bundle. *)
Definition sourced t : Prop :=
  ∀ k data, node_at (out ++ "references"%string :: k) t = Some (File data) →
            k ≠ [] ∧
            node_at (skill ++ "references"%string :: k) t0 = Some (File data)
            ∧ bundled skill t0 (skill ++ "references"%string :: k) = true.

Lemma bundle_loop_sourced paths : ∀ acc st a st',
  (∀ p, p ∈ paths → p ∈ rglob refs t0) →
  staged (files st) → sourced (files st) →
  for_each paths (bundle_one self out) acc st = (Ok a, st') →
  sourced (files st').
Proof.
  induction paths as [|p paths IH]; intros acc st a st' Hall Hst Hsrc.
  { rewrite for_each_nil, ret_run. by intros [= <- <-]. }
  rewrite for_each_cons.
  intros (a1 & st1 & Hone & Hrest)%bind_inv_ok.
  destruct (bundle_one_copies _ _ _ _ _ (Hall p ltac:(left)) Hst Hone)
    as (Hst1 & _).
  eapply (IH a1 st1 a st');
    [intros q Hq; apply Hall; by right|done| |done].
  destruct (bundle_one_step _ _ _ _ _ (Hall p ltac:(left)) Hst Hone)
    as [->|(rel & data & t1 & Hb & -> & Hnode & Hmk & ->)]; [done|].
  intros k d Hd.
  destruct (decide (rel = "references"%string :: k)) as [->|Hneq].
  - rewrite node_at_put_eq in Hd by (by destruct out).
    injection Hd as <-. split; [|done].
    pose proof (Hall _ ltac:(left)) as (_ & Hne & _)%elem_of_rglob.
    intros ->. by rewrite joinpath_name in Hne.
  - rewrite node_at_put_ne in Hd by (by intros ?%app_inv_head).
    destruct (mkdir_parents_new _ _ _ _ _ _ Hmk Hd) as [Hold|[? _]]; [|done].
    by apply Hsrc.
Qed.

Lemma bundle_references_sourced st st' :
  staged (files st) → sourced (files st) →
  bundle_references self out st = (Ok tt, st') →
  sourced (files st').
Proof.
  intros Hst Hsrc. unfold bundle_references. mnorm.
  unfold bind at 1, get_files.
  destruct (exists_ refs (files st)); cbn [negb].
  - rewrite (proj1 (proj1 Hst)).
    intros (acc & st1 & Hloop & Hrest)%bind_inv_ok.
    assert (files st' = files st1) as ->.
    { eapply (yields_inv _ st1) in Hrest as (_ & Hf & _); [exact Hf|].
      eapply yields_bind;
        [apply yields_warn_total|intros st2 <-; apply yields_add_change| |].
      + reflexivity.
      + symmetry. apply app_nil_r. }
    by apply (bundle_loop_sourced _ _ _ _ _ (λ q Hq, Hq) Hst Hsrc Hloop).
  - intros Hlog. destruct (yields_inv _ _ _ _ _ _ _ _
                             (yields_log self LogNoReferences st) Hlog)
      as (_ & -> & _). done.
Qed.

(** After [bundle_references] every walked file that is counted has its
    copy in the staging directory, at its path from the bundle. *)
Lemma bundle_references_copies st st' p rel data :
  staged (files st) →
  bundle_references self out st = (Ok tt, st') →
  p ∈ rglob refs t0 →
  node_at p t0 = Some (File data) →
  relative_to p skill = Some rel →
  bundled skill t0 p = true →
  node_at (out ++ rel) (files st') = Some (File data).
Proof.
  intros Hst Hrun Hin Hnode Hrel Hb.
  assert (under refs p = true) as Hp by (by apply elem_of_rglob in Hin as []).
  assert (p ≠ refs) as Hne by (by apply elem_of_rglob in Hin as (_ & ? & _)).
  revert Hrun. unfold bundle_references. mnorm. unfold bind at 1, get_files.
  destruct Hst as [Hun Hmirror].
  unfold exists_. rewrite (proj2 Hun refs) by apply under_refl.
  destruct (node_at refs t0) as [n|] eqn:Hrefs; cbn [negb].
  - rewrite (proj1 Hun).
    intros (acc & st1 & Hloop & Hrest)%bind_inv_ok.
    destruct (bundle_loop_copies _ _ _ _ _ (λ q Hq, Hq)
                (conj Hun Hmirror) Hloop) as (_ & _ & Hcopies).
    assert (files st' = files st1) as ->; [|by eapply Hcopies].
    eapply (yields_inv _ st1) in Hrest as (_ & Hf & _); [exact Hf|].
    eapply yields_bind;
      [apply yields_warn_total|intros st2 <-; apply yields_add_change| |].
    + reflexivity.
    + symmetry. apply app_nil_r.
  - intros _.
    pose proof (tree_nothing_under _ _ _ Htree Hrefs Hp). congruence.
Qed.

End Loop.

End Copies.

(** *** Texts that the rules do not touch *)

Lemma chars_append (a b : string) : chars (a +:+ b) = chars a ++ chars b.
Proof.
  induction a as [|c a IH]; [done|].
  change (chars (String c a +:+ b)) with (c :: chars (a +:+ b)).
  by rewrite IH.
Qed.

Lemma occurs_suffix m t s :
  t `suffix_of` s → occurs m t = true → occurs m s = true.
Proof.
  intros [k ->]. induction k as [|c k IH]; [done|]. intros Ht.
  cbn [app]. rewrite occurs_cons, (IH Ht). apply orb_true_r.
Qed.

Lemma occurs_app_l m w rest :
  occurs m w = true → occurs m (w ++ rest) = true.
Proof.
  induction w as [|c w IH].
  - cbn. rewrite orb_false_r. destruct m; [|done]. intros _.
    by destruct rest.
  - rewrite occurs_cons. intros [Hs|Ho]%orb_true_iff.
    + apply starts_with_inv in Hs as [k Hk].
      change ((c :: w) ++ rest) with (c :: (w ++ rest)).
      rewrite occurs_cons. apply orb_true_iff. left.
      change (c :: (w ++ rest)) with ((c :: w) ++ rest).
      rewrite Hk, <-app_assoc. apply starts_with_app.
    + change ((c :: w) ++ rest) with (c :: (w ++ rest)).
      rewrite occurs_cons, (IH Ho). apply orb_true_r.
Qed.

Lemma occurs_starts_with m s : starts_with m s = true → occurs m s = true.
Proof. destruct s; cbn; intros ->; done. Qed.

(** A pattern whose matches all contain [m] has no match in a text in
    which [m] does not occur. *)
Lemma no_match_without r m s :
  (∀ w, lang r w → occurs m w = true) →
  occurs m s = false → no_match r s.
Proof.
  intros Hr Hocc t Hsuf. destruct (matcher r t) as [rest|] eqn:Hm; [|done].
  apply matcher_sound in Hm as (w & -> & Hw).
  apply Hr in Hw. apply (occurs_app_l _ _ rest) in Hw.
  apply (occurs_suffix _ _ _ Hsuf) in Hw. congruence.
Qed.

Lemma lang_lit_prefix (p : string) r w :
  lang (lit p ++ r) w → starts_with (chars p) w = true.
Proof.
  intros (w1 & w2 & -> & ->%lang_lit & _)%lang_app. apply starts_with_app.
Qed.

Lemma findall_without r m s :
  (∀ w, lang r w → occurs m w = true) → m ≠ [] →
  occurs m s = false → findall r s = [].
Proof.
  intros Hr Hm Hocc. apply findall_no_match.
  - intros Hnil%Hr. by destruct m.
  - by apply (no_match_without _ m).
Qed.

Lemma findall_without_prefix (p : string) r s :
  chars p ≠ [] → occurs (chars p) s = false → findall (lit p ++ r) s = [].
Proof.
  intros Hp. apply findall_without; [|done].
  intros w Hw. by apply occurs_starts_with, (lang_lit_prefix p r).
Qed.

(** *** A conversion that goes through *)






Section Succeeds.
Context {value : Type} `{!Libraries value}.
Variable self : config.
Hypothesis Hname : skill_name self ≠ ""%string.
Implicit Types (st : state value) (t : fs).

Local Abbreviation skill := (skill_path self).
Local Abbreviation refs := (joinpath (skill_path self) "references").
Local Abbreviation out := (converted_dir self).
Local Abbreviation tmp := (temp_dir self).






Section Turns.
Variable t0 : fs.
Hypothesis Hdry : dry_run self = false.
Hypothesis Htree : tree t0.
Hypothesis Hapart : apart refs tmp.








End Turns.

End Succeeds.

(** *** Verbose and quiet runs *)

Section Agree.
Context {value : Type}.
Implicit Types (st : state value).

Lemma agree_ret {A} (a : A) : agree (value := value) (ret a) (ret a).
Proof. by intros st st' H. Qed.

Lemma agree_raise {A} e : agree (value := value) (raise (A := A) e) (raise e).
Proof. by intros st st' H. Qed.

Lemma agree_bind {A B} (c c' : M value A) (k k' : A → M value B) :
  agree c c' → (∀ a, agree (k a) (k' a)) → agree (bind c k) (bind c' k').
Proof.
  intros Hc Hk st st' H. rewrite !bind_run. destruct (Hc st st' H) as [Hr Hs].
  destruct (c st) as [[a|e] s1], (c' st') as [[a'|e'] s1']; simpl in *;
    simplify_eq; [|done]. by apply Hk.
Qed.

Lemma agree_get_files : agree (value := value) get_files get_files.
Proof.
  intros st st' H. unfold get_files. simpl. split; [|done].
  destruct H as (Hf & _). by rewrite Hf.
Qed.

Lemma agree_fs_call (op : fs → outcome fs) :
  agree (value := value) (fs_call op) (fs_call op).
Proof.
  intros st st' (Hf & Hc & Hw). unfold fs_call. rewrite Hf.
  by destruct (op (files st')).
Qed.

Lemma agree_fs_read {A} (op : fs → outcome A) :
  agree (value := value) (fs_read op) (fs_read op).
Proof. intros st st' (Hf & Hc & Hw). unfold fs_read. simpl. by rewrite Hf. Qed.

Lemma agree_add_change (c : change value) : agree (add_change c) (add_change c).
Proof.
  intros st st' (Hf & Hc & Hw). unfold add_change, same_outcome. simpl.
  by rewrite Hc.
Qed.

Lemma agree_add_warning w :
  agree (value := value) (add_warning w) (add_warning w).
Proof.
  intros st st' (Hf & Hc & Hw). unfold add_warning, same_outcome. simpl.
  by rewrite Hw.
Qed.

Lemma agree_silent (c c' : M value unit) : silent c → silent c' → agree c c'.
Proof.
  intros Hc Hc' st st' (Hf & Hch & Hw).
  destruct (Hc st) as (-> & Hf1 & Hch1 & Hw1).
  destruct (Hc' st') as (-> & Hf2 & Hch2 & Hw2).
  split; [done|]. unfold same_outcome. by rewrite <-Hf1, <-Hch1, <-Hw1, <-Hf2, <-Hch2, <-Hw2.
Qed.

Lemma silent_ret : silent (value := value) (ret tt).
Proof. by intros st. Qed.

Lemma silent_print (e : event value) : silent (print e).
Proof. by intros st. Qed.

Lemma silent_log self m : silent (value := value) (log self m).
Proof. unfold log. destruct (verbose self); [apply silent_print|apply silent_ret]. Qed.

Lemma silent_bind (c : M value unit) (k : unit → M value unit) :
  silent c → (∀ x, silent (k x)) → silent (bind c k).
Proof.
  intros Hc Hk st. rewrite bind_run. destruct (Hc st) as (Hr & Hf & Hch & Hw).
  destruct (c st) as [[[]|e] s1]; simpl in *; [|done].
  destruct (Hk tt s1) as (-> & Hf1 & Hch1 & Hw1). split; [done|].
  unfold same_outcome. by rewrite Hf, Hch, Hw.
Qed.

Lemma silent_yields (c : M value unit) :
  (∀ st, yields c st (Ok tt) (files st) [] []) → silent c.
Proof.
  intros Hc st. destruct (Hc st) as (st' & -> & Hf & Hch & Hw).
  rewrite app_nil_r in Hch, Hw. by split.
Qed.

Lemma agree_yields {A} (c c' : M value A) r cs ws :
  (∀ st, yields c st r (files st) cs ws) →
  (∀ st, yields c' st r (files st) cs ws) → agree c c'.
Proof.
  intros Hc Hc' st st' (Hf & Hch & Hw).
  destruct (Hc st) as (s1 & -> & Hf1 & Hch1 & Hw1).
  destruct (Hc' st') as (s2 & -> & Hf2 & Hch2 & Hw2).
  split; [done|]. unfold same_outcome. simpl. by rewrite Hf1, Hch1, Hw1, Hf2, Hch2, Hw2, Hf, Hch, Hw.
Qed.

Lemma agree_for_each {A B} (l : list A) (body body' : B → A → M value B) :
  (∀ acc x, agree (body acc x) (body' acc x)) →
  ∀ acc, agree (for_each l body acc) (for_each l body' acc).
Proof.
  intros Hb. induction l as [|x l IH]; intros acc; simpl.
  - apply agree_ret.
  - by apply agree_bind.
Qed.

Lemma agree_try {A} (body body' : M value A) handler handler' final final' :
  agree body body' → (∀ e, agree (handler e) (handler' e)) →
  agree final final' →
  agree (try_except_finally body handler final)
        (try_except_finally body' handler' final').
Proof.
  intros Hb Hh Hf st st' H. unfold try_except_finally.
  destruct (Hb st st' H) as [Hr Hs].
  destruct (body st) as [[a|e] s1], (body' st') as [[a'|e'] s1'];
    simpl in *; simplify_eq.
  - destruct (Hf s1 s1' Hs) as [Hr1 Hs1].
    destruct (final s1) as [[[]|e] s2], (final' s1') as [[[]|e'] s2'];
      simpl in *; by simplify_eq.
  - destruct (Hh e' s1 s1' Hs) as [Hr1 Hs1].
    destruct (handler e' s1) as [r s2], (handler' e' s1') as [r' s2'].
    simpl in *. subst r'.
    destruct (Hf s2 s2' Hs1) as [Hr2 Hs2].
    destruct (final s2) as [[[]|e] s3], (final' s2') as [[[]|e''] s3'];
      simpl in *; by simplify_eq.
Qed.

Lemma agree_log self self' m :
  agree (value := value) (log self m) (log self' m).
Proof. apply agree_silent; apply silent_log. Qed.

Lemma agree_print (e : event value) : agree (print e) (print e).
Proof. apply agree_silent; apply silent_print. Qed.

Lemma agree_warn self self' w :
  agree (value := value) (warn self w) (warn self' w).
Proof.
  intros st st' (Hf & Hch & Hw). rewrite !warn_run. unfold same_outcome.
  simpl. by rewrite Hf, Hch, Hw.
Qed.

End Agree.

Ltac agree_step :=
  lazymatch goal with
  | |- agree (bind _ _) _ => apply agree_bind; [|intros ?]
  | |- agree (ret _) _ => apply agree_ret
  | |- agree (raise _) _ => apply agree_raise
  | |- agree get_files _ => apply agree_get_files
  | |- agree (fs_call _) _ => apply agree_fs_call
  | |- agree (fs_read _) _ => apply agree_fs_read
  | |- agree (add_change _) _ => apply agree_add_change
  | |- agree (add_warning _) _ => apply agree_add_warning
  | |- agree (print _) _ => apply agree_print
  | |- agree (log _ _) _ => apply agree_log
  | |- agree (warn _ _) _ => apply agree_warn
  | |- agree (for_each _ _ _) _ => apply agree_for_each; intros ??
  | |- agree (if ?b then _ else _) _ => destruct b eqn:?
  | |- agree (match ?x with _ => _ end) _ => destruct x eqn:?
  end.

Ltac quieten :=
  repeat match goal with
    | |- context [skill_path (with_verbose ?b ?s)] =>
        change (skill_path (with_verbose b s)) with (skill_path s)
    | |- context [output_dir (with_verbose ?b ?s)] =>
        change (output_dir (with_verbose b s)) with (output_dir s)
    | |- context [dry_run (with_verbose ?b ?s)] =>
        change (dry_run (with_verbose b s)) with (dry_run s)
    | |- context [keep_tools (with_verbose ?b ?s)] =>
        change (keep_tools (with_verbose b s)) with (keep_tools s)
    | |- context [skill_name (with_verbose ?b ?s)] =>
        change (skill_name (with_verbose b s)) with (skill_name s)
    | |- context [temp_dir (with_verbose ?b ?s)] =>
        change (temp_dir (with_verbose b s)) with (temp_dir s)
    | |- context [converted_dir (with_verbose ?b ?s)] =>
        change (converted_dir (with_verbose b s)) with (converted_dir s)
    end.

Section Verbose.
Context {value : Type} `{!Libraries value}.
Variables (self : config) (b : bool).

Local Abbreviation other := (with_verbose b self).

Lemma agree_validate_skill :
  agree (value := value) (validate_skill self) (validate_skill other).
Proof. unfold validate_skill. mnorm. quieten. repeat agree_step. Qed.

Lemma agree_convert_skill_md out :
  agree (convert_skill_md self out) (convert_skill_md other out).
Proof.
  unfold convert_skill_md. mnorm. quieten.
  agree_step; [agree_step|].
  agree_step.
  { eapply agree_yields; intros st; apply yields_parse_frontmatter. }
  agree_step.
  { unfold clean_frontmatter. destruct a0.1 as [h| |]; [|agree_step..].
    eapply agree_yields; intros st.
    - apply yields_strip_fields.
    - assert (stripped_header self REMOVE_YAML_FIELDS h
              = stripped_header other REMOVE_YAML_FIELDS h) as -> by done.
      assert (header_changes (value := value) self REMOVE_YAML_FIELDS h
              = header_changes other REMOVE_YAML_FIELDS h) as -> by done.
      apply yields_strip_fields. }
  agree_step.
  { eapply agree_yields; intros st; apply yields_clean_content. }
  repeat agree_step.
Qed.

Lemma agree_bundle_references out :
  agree (value := value) (bundle_references self out) (bundle_references other out).
Proof.
  unfold bundle_references, bundle_one. mnorm. quieten. repeat agree_step.
Qed.

Lemma agree_create_zip tmp :
  agree (create_zip self tmp) (create_zip other tmp).
Proof.
  unfold create_zip, zip_one. mnorm. quieten. repeat agree_step.
Qed.

Lemma agree_report : agree (value := value) (report self) (report other).
Proof. apply agree_silent; apply silent_yields, yields_report. Qed.

Lemma agree_convert : agree (convert self) (convert other).
Proof.
  unfold convert. mnorm. quieten.
  agree_step; [agree_step|].
  agree_step; [apply agree_validate_skill|].
  agree_step; [agree_step|].
  apply agree_try.
  - unfold convert_body, transform_copy_archive, prepare_staging. mnorm.
    quieten.
    agree_step; [repeat agree_step|].
    agree_step; [apply agree_convert_skill_md|].
    agree_step; [apply agree_bundle_references|].
    agree_step; [apply agree_create_zip|].
    agree_step; [apply agree_report|]. agree_step.
  - intros e. repeat agree_step.
  - unfold cleanup. mnorm. quieten. repeat agree_step.
Qed.

Lemma agree_main : agree (main self) (main other).
Proof.
  unfold main. mnorm. quieten.
  agree_step; [agree_step|]. agree_step; [apply agree_convert|].
  repeat agree_step.
Qed.

End Verbose.

End Further.

Section Properties.
Context {value : Type} `{!Libraries value}.
Implicit Types (self : config) (st : state value).
Import ReFacts PatternFacts FsFacts Run Steps Further.

(** The header of a document is the text between the opening marker
    line and the first closing marker line: what follows is the body,
    further marker lines included.  The header is handed to the YAML
    loader; a falsy document counts as the empty mapping and an
    exception of the loader is passed on. *)
Theorem header_ends_at_first_closing_marker (h b : text) st :
  occurs closing_marker (h ++ nl :: chars "---") = false →
  parse_frontmatter
    (str_of (chars "---" ++ [nl] ++ h ++ closing_marker ++ b)) st =
  (match yaml_load (str_of h) with
   | Ok frontmatter => Ok (or_empty frontmatter, str_of b)
   | Raise e => Raise e
   end, st).
Proof.
  intros Hocc. unfold parse_frontmatter, match_frontmatter.
  rewrite chars_str_of.
  rewrite (app_assoc (chars "---") [nl]), strip_prefix_app.
  rewrite (split_at_first_marker _ _ Hocc). mnorm.
  rewrite bind_run. unfold fs_read.
  by destruct (yaml_load (str_of h)).
Qed.

(** A document that begins with an empty header block, the closing
    marker line right after the opening one, has no header for the
    script: unless a closing marker line comes later, the whole content
    is the body and the header is the empty mapping. *)
Theorem empty_header_block_is_body (b : text) st :
  occurs closing_marker (chars "---" ++ nl :: b) = false →
  parse_frontmatter (str_of (chars "---" ++ nl :: chars "---" ++ nl :: b)) st
  = (Ok (YMapping ∅,
         str_of (chars "---" ++ nl :: chars "---" ++ nl :: b)), st).
Proof.
  intros Hocc. unfold parse_frontmatter, match_frontmatter.
  rewrite chars_str_of.
  change (chars "---" ++ nl :: chars "---" ++ nl :: b)
    with ((chars "---" ++ [nl]) ++ (chars "---" ++ nl :: b)).
  rewrite strip_prefix_app.
  destruct (split_at_marker (chars "---" ++ nl :: b)) as [[h' b']|] eqn:Hs;
    [|done].
  apply split_at_marker_Some in Hs.
  assert (occurs closing_marker (h' ++ closing_marker ++ b') = true) as Hin.
  { clear. induction h' as [|c h' IH].
    - change ([] ++ closing_marker ++ b') with (closing_marker ++ b').
      destruct (closing_marker ++ b') eqn:Heq; [done|].
      rewrite occurs_cons, <-Heq, starts_with_app. done.
    - change ((c :: h') ++ closing_marker ++ b')
        with (c :: h' ++ closing_marker ++ b').
      rewrite occurs_cons, IH. apply orb_true_r. }
  congruence.
Qed.

(** What [should_exclude] excludes: the relative paths that begin with
    [scripts] or [__pycache__] (the rule without its slash, so that a
    path such as [scripts.md] is excluded too), the files whose name ends
    in [.pyc], [.env], [.key] or [.pem], and [.DS_Store]. *)
Theorem should_exclude_rules (rel : path) :
  should_exclude rel =
    startswith (path_str rel) "scripts"
    || endswith (name_of rel) ".pyc"
    || startswith (path_str rel) "__pycache__"
    || (bool_decide (path_str rel = ".DS_Store"%string)
        || bool_decide (name_of rel = ".DS_Store"%string))
    || endswith (name_of rel) ".env"
    || endswith (name_of rel) ".key"
    || endswith (name_of rel) ".pem".
Proof.
  assert (∀ lit : string,
            Forall (λ c, c ≠ "*"%char ∧ c ≠ "?"%char) (chars lit) →
            ends_with_slash (String "*" lit) = false →
            rule_excludes rel (String "*" lit) = endswith (name_of rel) lit)
    as Hglob.
  { intros lit Hlit Hslash. rewrite <-(fnmatch_star_literal _ _ Hlit).
    unfold rule_excludes. rewrite Hslash.
    assert (has_star (String "*" lit) = true) as ->; [|done].
    apply bool_decide_eq_true. left. }
  unfold should_exclude, EXCLUDE_PATTERNS. cbn [existsb].
  rewrite (Hglob ".pyc"), (Hglob ".env"), (Hglob ".key"), (Hglob ".pem")
    by (first [by vm_compute | repeat constructor; done]).
  assert (∀ rule : string,
            ends_with_slash rule = true →
            rule_excludes rel rule = startswith (path_str rel) (drop_last rule))
    as Hdir.
  { intros rule Hslash. unfold rule_excludes. by rewrite Hslash. }
  rewrite (Hdir "scripts/"), (Hdir "__pycache__/") by (by vm_compute).
  change (drop_last "scripts/") with "scripts"%string.
  change (drop_last "__pycache__/") with "__pycache__"%string.
  assert (rule_excludes rel ".DS_Store" =
            bool_decide (path_str rel = ".DS_Store"%string)
            || bool_decide (name_of rel = ".DS_Store"%string)) as ->.
  { unfold rule_excludes.
    assert (ends_with_slash ".DS_Store" = false) as -> by (by vm_compute).
    assert (has_star ".DS_Store" = false) as -> by (by vm_compute).
    done. }
  by rewrite orb_false_r, !orb_assoc.
Qed.

(** For a file that the walk of the references directory comes to, the
    path tested begins with [references], so the two directory rules
    never apply: the file is excluded exactly when its name ends in
    [.pyc], [.env], [.key] or [.pem] or is [.DS_Store]. *)
Theorem excluded_reference_files self ref_file rel t :
  ref_file ∈ rglob (joinpath (skill_path self) "references") t →
  relative_to ref_file (skill_path self) = Some rel →
  should_exclude rel =
    endswith (name_of ref_file) ".pyc"
    || bool_decide (name_of ref_file = ".DS_Store"%string)
    || endswith (name_of ref_file) ".env"
    || endswith (name_of ref_file) ".key"
    || endswith (name_of ref_file) ".pem".
Proof.
  intros Hin Hrel.
  destruct (reference_relative_path self _ _ _ Hin Hrel) as (c & k & ->).
  apply strip_prefix_Some in Hrel as ->.
  assert (name_of (skill_path self ++ "references"%string :: c :: k)
          = name_of ("references"%string :: c :: k)) as ->.
  { by apply name_of_app. }
  rewrite should_exclude_rules.
  assert (∀ pre : string,
            String.get 0 pre ≠ Some "r"%char → String.get 0 pre ≠ None →
            startswith (path_str ("references"%string :: c :: k)) pre = false)
    as Hpre.
  { intros pre Hr Hn. unfold startswith, path_str.
    destruct pre as [|x pre]; [done|]. cbn.
    apply andb_false_iff. left. apply bool_decide_eq_false_2.
    intros ->. done. }
  rewrite !Hpre by done.
  assert (path_str ("references"%string :: c :: k) ≠ ".DS_Store"%string)
    as Hne by done.
  rewrite (bool_decide_eq_false_2 _ Hne). cbn [orb].
  by rewrite orb_false_r.
Qed.


(** The limit on the size of one file is strict.  A reference file that
    no rule excludes and that is larger than [MAX_SINGLE_FILE] is passed
    over with one warning that names it: it is not counted and the file
    system is left as it was.  A file of at most that size gives no
    warning: when the turn of the loop returns, the file is counted with
    its size and, unless the run is a dry run, a file with its content is
    at or under its place in the staging directory. *)
Theorem size_limit_of_a_reference_file
    self out acc ref_file data rel st :
  node_at ref_file (files st) = Some (File data) →
  relative_to ref_file (skill_path self) = Some rel →
  should_exclude rel = false →
  ((MAX_SINGLE_FILE < size_of data)%N →
   ∃ st', bundle_one self out acc ref_file st = (Ok acc, st') ∧
          files st' = files st ∧ changes st' = changes st ∧
          warnings st' = warnings st ++ [FileTooLarge (size_of data) rel]) ∧
  ((size_of data ≤ MAX_SINGLE_FILE)%N →
   ∀ a st', bundle_one self out acc ref_file st = (Ok a, st') →
     a = ((acc.1 + size_of data)%N, S acc.2) ∧
     changes st' = changes st ∧ warnings st' = warnings st ∧
     if dry_run self then files st' = files st
     else ∃ target, under (out ++ rel) target = true ∧
                    node_at target (files st') = Some (File data)).
Proof.
  intros Hnode Hrel Hex. split.
  - intros Hbig%N.ltb_lt. unfold bundle_one. mnorm.
    unfold bind at 1, get_files. rewrite Hnode, Hrel, Hex. cbv zeta.
    rewrite Hbig, bind_run, warn_run, ret_run. eauto.
  - intros Hsmall%N.ltb_ge a st'. unfold bundle_one. mnorm.
    unfold bind at 1, get_files. rewrite Hnode, Hrel, Hex. cbv zeta.
    rewrite Hsmall. destruct (dry_run self).
    + rewrite bind_run, ret_run. intros Hlog%log_then_ret_inv. tauto.
    + intros ([] & st2 & Hcopy & Hlog%log_then_ret_inv)%bind_inv_ok.
      apply bind_inv_ok in Hcopy
        as ([] & st1 & (Hmk & Hc1 & Hw1 & _)%fs_call_inv
               & (Hcp & Hc2 & Hw2 & _)%fs_call_inv).
      destruct Hlog as (-> & Hf & Hc & Hw).
      split_and!; [done|congruence..|].
      apply copy2_inv in Hcp as (copied & target & Hsrc & Ht & Hu & _ & Hne).
      rewrite (mkdir_parents_keeps _ _ _ _ _ _ Hmk Hnode) in Hsrc.
      injection Hsrc as <-. exists target. split; [done|].
      rewrite Hf, Ht. by apply node_at_put_eq.
Qed.

(** What [report] prints: the heading and the change list in its order,
    the warning list with its count when there is a warning, and, unless
    the run is a dry run, the path of the archive and where to upload it.
    Nothing but the output changes, and [report] does not raise. *)
Theorem report_prints self st :
  report self st =
  (Ok tt,
   State (files st) (changes st) (warnings st)
     (stdout st ++ printed_report self st)).
Proof.
  unfold report, printed_report. mnorm.
  rewrite bind_run. cbn [print]. rewrite bind_run.
  rewrite bind_run, print_each_run. cbn [files changes warnings stdout].
  rewrite bind_run.
  destruct (warnings st) as [|w ws] eqn:Hws.
  - rewrite ret_run. destruct (dry_run self).
    + rewrite ret_run, <-!app_assoc. cbn [app]. by rewrite app_nil_r.
    + rewrite bind_run. unfold print. cbn [files changes warnings stdout].
      rewrite <-!app_assoc. reflexivity.
  - rewrite bind_run. cbn [print]. rewrite print_each_run.
    cbn [files changes warnings stdout]. destruct (dry_run self).
    + rewrite ret_run, <-!app_assoc. cbn [app]. by rewrite app_nil_r.
    + rewrite bind_run. unfold print. cbn [files changes warnings stdout].
      rewrite <-!app_assoc. reflexivity.
Qed.

(** The summary of [bundle_references].  When there is no references
    directory nothing is added to the two lists.  Otherwise one entry is
    added to the change list: it counts the walked files that are regular
    files, that no rule excludes and that are not over the limit for one
    file, with the sum of their sizes; each walked file over the limit
    gives one warning, in the order of the walk, and a last warning
    follows when the sum is over [WARN_TOTAL_SIZE].  This is so in a dry
    run as in a run that copies the files. *)
Theorem bundle_summary self st st' :
  apart (joinpath (skill_path self) "references") (temp_dir self) →
  bundle_references self (converted_dir self) st = (Ok tt, st') →
  let refs_dir := joinpath (skill_path self) "references" in
  let walked := rglob refs_dir (files st) in
  let kept := filter (λ p, bundled (skill_path self) (files st) p = true)
                walked in
  let total := sizes (files st) kept in
  if exists_ refs_dir (files st) then
    changes st' = changes st ++ [BundledFiles (length kept) total] ∧
    warnings st' =
      warnings st ++ omap (too_large (skill_path self) (files st)) walked
      ++ (if (WARN_TOTAL_SIZE <? total)%N then [TotalSizeExceeds total]
          else [])
  else changes st' = changes st ∧ warnings st' = warnings st.
Proof.
  intros Hapart Hrun refs_dir walked kept total.
  assert (∀ r, under (converted_dir self) r = true →
               under refs_dir r = false) as Hout.
  { intros r Hr. apply (apart_under (temp_dir self)).
    - destruct Hapart. by split.
    - eapply starts_with_trans; [apply under_temp_dir_converted|exact Hr]. }
  destruct (ok_yields_bundle_references self _ st Hout _ _ Hrun)
    as (_ & _ & Hc & Hw).
  unfold bundle_report in Hc, Hw. fold refs_dir in Hc, Hw.
  destruct (exists_ refs_dir (files st)); cbn [fst snd] in Hc, Hw.
  - cbv zeta in Hc, Hw. fold walked in Hc, Hw.
    rewrite scan_counts in Hc, Hw. cbn [fst snd] in Hc, Hw.
    fold kept in Hc, Hw. fold total in Hc, Hw.
    rewrite N.add_0_l in Hc, Hw. by rewrite Hc, Hw.
  - by rewrite Hc, Hw, !app_nil_r.
Qed.


(** Whatever its outcome, a conversion leaves every path as it was
    except the staging directory, what lies under it, and the archive:
    the bundle is not changed (when it does not lie in the staging
    directory), and no other file of the output directory is. *)
Theorem conversion_touches_only_staging_and_archive self st q :
  tree (files st) →
  is_dir (output_dir self) (files st) = true →
  under (temp_dir self) q = false →
  q ≠ zip_path self →
  node_at q (files (convert self st).2) = node_at q (files st).
Proof.
  intros Htree Hdir Hq Hzip.
  pose proof (convert_only_touches self
                (λ p, under (temp_dir self) p
                      || bool_decide (p = zip_path self))) as Hframe.
  destruct (Hframe) with (st := st) as [_ Hsame].
  - intros p Hp. by rewrite Hp.
  - intros p [Hp| ->%bool_decide_eq_true]%orb_true_iff.
    + by apply temp_dir_below.
    + apply zip_path_below.
  - intros _. rewrite bool_decide_eq_true_2 by done. apply orb_true_r.
  - by apply tree_ready.
  - apply Hsame. rewrite Hq. by apply bool_decide_eq_false_2.
Qed.


(** What a dry run does to the file system, whatever its outcome:
    outside the staging directory nothing changes, so that an archive
    of an earlier run stays as it is, and no regular file is made or
    rewritten anywhere (the staging directory of an earlier run is
    emptied). *)
Theorem dry_run_writes_no_file self st :
  dry_run self = true →
  tree (files st) →
  is_dir (output_dir self) (files st) = true →
  (∀ q, under (temp_dir self) q = false →
        node_at q (files (convert self st).2) = node_at q (files st)) ∧
  (∀ q data, node_at q (files (convert self st).2) = Some (File data) →
             node_at q (files st) = Some (File data)).
Proof.
  intros Hdry Htree Hdir. split.
  - intros q Hq.
    destruct (convert_only_touches self (under (temp_dir self)))
      with (st := st) as [_ Hsame]; [done| |congruence| |by apply Hsame].
    + intros p Hp. by apply temp_dir_below.
    + by apply tree_ready.
  - apply (convert_no_new_file self Hdry st).
Qed.

(** A run that is not a dry run and returns, with an archive or without,
    leaves nothing at or under the staging path: the directory is
    removed after a success as after a failure that was caught. *)
Theorem staging_directory_is_removed self st r st' :
  dry_run self = false →
  valid self (files st) = true →
  tree (files st) →
  convert self st = (Ok r, st') →
  ∀ p, under (temp_dir self) p = true → node_at p (files st') = None.
Proof.
  intros Hdry Hvalid Htree. rewrite (convert_valid _ _ Hvalid).
  unfold try_except_finally, convert_body. mnorm. rewrite bind_run.
  destruct (prepare_staging self (started self st)) as [[[]|e] st1] eqn:Hprep.
  - (* the staging directory is made, and is a directory at the end *)
    destruct (prepare_staging_dir _ _ _ Hprep) as [Htemp _].
    pose proof (transform_copy_archive_keeps_dirs self st1) as Hkeep.
    destruct (transform_copy_archive self st1) as [[z|e] st2] eqn:Htca;
      cbn [snd] in Hkeep; apply Hkeep in Htemp.
    + destruct (cleanup self st2) as [[[]|e] st3] eqn:Hclean; [|done].
      intros [= <- <-]. eapply cleanup_leaves_nothing; [done| |done].
      congruence.
    + rewrite bind_run. cbn [print]. rewrite ret_run.
      match goal with
      | |- context [cleanup self ?s] =>
          destruct (cleanup self s) as [[[]|e'] st3] eqn:Hclean; [|done]
      end.
      intros [= <- <-]. eapply cleanup_leaves_nothing; [done| |done].
      cbn [files]. congruence.
  - (* it is not made *)
    rewrite bind_run. cbn [print]. rewrite ret_run.
    match goal with
    | |- context [cleanup self ?s] =>
        destruct (cleanup self s) as [[[]|e'] st3] eqn:Hclean; [|done]
    end.
    intros [= <- <-]. eapply cleanup_leaves_nothing; [done| |done].
    cbn [files]. intros Habsent p Hp.
    destruct (prepare_staging_raise_files _ _ _ _ Hprep) as [Hf|Hf];
      rewrite Hf in Habsent |- *.
    + by apply (tree_nothing_under _ (temp_dir self)).
    + destruct p as [|c p]; [by destruct (temp_dir_not_nil self)
                                   ; destruct (temp_dir self)|].
      by rewrite node_at_remove_tree, Hp.
Qed.

(** When the staging path is a regular file, the staging directory
    cannot be made.  A dry run reports the exception and returns without
    an archive; a run that is not a dry run tries to remove the staging
    directory in its [finally] block, and the exception of that call is
    not caught: [convert] raises.  The file system is left as it was and
    [main] ends with exit status 1. *)
Theorem staging_path_is_a_file self st data :
  valid self (files st) = true →
  node_at (temp_dir self) (files st) = Some (File data) →
  convert self st =
    (if dry_run self then Ok None
     else Raise (NotADirectoryError (temp_dir self)),
     State (files st) (changes st) (warnings st)
       (stdout st ++ [PConverting (skill_name self);
                      PConversionError
                        (NotADirectoryError (temp_dir self))])) ∧
  ∀ st0, fs_call (mkdir_parents true (output_dir self)) st0 = (Ok tt, st) →
         exit_status (main self st0) = 1.
Proof.
  intros Hvalid Hfile.
  assert (convert self st =
    (if dry_run self then Ok None
     else Raise (NotADirectoryError (temp_dir self)),
     State (files st) (changes st) (warnings st)
       (stdout st ++ [PConverting (skill_name self);
                      PConversionError
                        (NotADirectoryError (temp_dir self))]))) as Hconv.
  { rewrite (convert_valid _ _ Hvalid).
    unfold try_except_finally, convert_body, prepare_staging. mnorm.
    rewrite bind_run. unfold bind at 1, get_files.
    unfold exists_ at 1. cbn [started files]. rewrite Hfile.
    rewrite bind_run. unfold fs_call at 1, rmtree at 1.
    cbn [started files]. rewrite Hfile.
    rewrite bind_run. cbn [print]. rewrite ret_run.
    destruct (dry_run self) eqn:Hdry.
    - rewrite cleanup_dry_run by done. cbn [started stdout files changes
                                              warnings].
      by rewrite <-app_assoc.
    - erewrite cleanup_file; [|done|exact Hfile].
      cbn [started stdout files changes warnings]. by rewrite <-app_assoc. }
  split; [done|]. intros st0 Hmk. unfold main. mnorm.
  rewrite (bind_ok _ _ _ _ _ Hmk), bind_run, Hconv.
  by destruct (dry_run self).
Qed.

(** When the path of the archive is a directory, a run that is not a
    dry run never returns an archive path: removing what is there raises
    in [create_zip] if the run gets there.  The directory is still
    there afterwards. *)
Theorem archive_path_is_a_directory self st :
  dry_run self = false →
  node_at (zip_path self) (files st) = Some Dir →
  (∀ z, (convert self st).1 ≠ Ok (Some z)) ∧
  node_at (zip_path self) (files (convert self st).2) = Some Dir.
Proof.
  intros Hdry Hzipdir. split.
  - intros z Hres. destruct (convert self st) as [r st'] eqn:Hconv.
    cbn [fst] in Hres. subst r.
    apply convert_ok_inv in Hconv
      as (Hvalid & st1 & st2 & Hprep & Htca & Hclean).
    apply transform_copy_archive_ok_inv in Htca
      as (sta & stb & stc & Hmd & Hbundle & Hzip & Hreport).
    assert (node_at (zip_path self) (files stb) = Some Dir) as Hd.
    { pose proof (prepare_staging_keeps_dir _ _ _ _ Hprep
                    (zip_path_outside self) Hzipdir) as H1.
      pose proof (convert_skill_md_keeps_dirs self (converted_dir self) st1)
        as H2. rewrite Hmd in H2. apply H2 in H1.
      pose proof (bundle_references_keeps_dirs self (converted_dir self) sta)
        as H3. rewrite Hbundle in H3. by apply H3 in H1. }
    revert Hzip. unfold create_zip. rewrite Hdry. fold (zip_path self).
    mnorm. unfold bind at 1, get_files. unfold exists_. rewrite Hd.
    rewrite bind_run. unfold fs_call at 1, unlink. by rewrite Hd.
  - apply (convert_outer_dirs_kept self st); [|done].
    apply zip_path_outside.
Qed.

(** [main] makes the output directory before anything else.  When the
    output path is a regular file, [main] ends there with an exception
    that nothing catches.  When the directory is there or can be made,
    it is a directory at the end, whatever the conversion does, and the
    exit status is 0 exactly when the conversion has returned the path
    of an archive. *)
Theorem main_makes_the_output_directory self st0 :
  (∀ data, node_at (output_dir self) (files st0) = Some (File data) →
           main self st0 = (Raise (FileExistsError (output_dir self)), st0)) ∧
  (∀ st, fs_call (mkdir_parents true (output_dir self)) st0 = (Ok tt, st) →
         is_dir (output_dir self) (files (main self st0).2) = true ∧
         (exit_status (main self st0) = 0 ↔
          ∃ z, (convert self st).1 = Ok (Some z))).
Proof.
  split.
  - intros data Hfile. unfold main. mnorm. rewrite bind_run.
    unfold fs_call, mkdir_parents. by rewrite Hfile.
  - intros st Hmk. split.
    + assert (node_at (output_dir self) (files st) = Some Dir) as Hd.
      { apply fs_call_inv in Hmk as (Hmk & _).
        by apply mkdir_parents_dir in Hmk. }
      assert (under (temp_dir self) (output_dir self) = false) as Hout.
      { apply temp_dir_below, under_refl. }
      unfold main. mnorm. rewrite (bind_ok _ _ _ _ _ Hmk), bind_run.
      pose proof (convert_outer_dirs_kept self st _ Hout Hd) as Hkept.
      unfold is_dir.
      destruct (convert self st) as [[[z|]|e] st1]; cbn [snd] in Hkept;
        rewrite ?bind_run; cbn [print ret snd files]; by rewrite Hkept.
    + unfold main. mnorm. rewrite (bind_ok _ _ _ _ _ Hmk), bind_run.
      destruct (convert self st) as [[[z|]|e] st1]; cbn [fst];
        rewrite ?bind_run; cbn [print]; unfold exit_status; cbn.
      * split; [eauto|done].
      * split; [done|]. by intros [z [=]].
      * split; [done|]. by intros [z [=]].
Qed.




(** The reference files in the archive.  When a conversion returns the
    path of an archive, the members of the archive under
    [<skill_name>/references] are the regular files under the references
    directory of the bundle that no rule excludes and that are not over
    the limit for one file, each with its content and under its path
    from the bundle: no other file of the bundle is archived, and none
    of these is left out.  (The file system is a tree and the staging
    directory is apart from the references directory.) *)
Theorem archive_reference_members self st z st' :
  dry_run self = false →
  skill_name self ≠ ""%string →
  tree (files st) →
  apart (joinpath (skill_path self) "references") (temp_dir self) →
  convert self st = (Ok (Some z), st') →
  ∃ members,
    node_at (zip_path self) (files st') = Some (File (zip_bytes members)) ∧
    ∀ k data,
      (skill_name self :: "references"%string :: k, data) ∈ members ↔
      k ≠ [] ∧
      node_at (skill_path self ++ "references"%string :: k) (files st)
        = Some (File data) ∧
      should_exclude ("references"%string :: k) = false ∧
      (size_of data ≤ MAX_SINGLE_FILE)%N.
Proof.
  intros Hdry Hname Htree Hapart Hconv.
  apply convert_ok_inv in Hconv as (Hvalid & st1 & st2 & Hprep & Htca & Hclean).
  apply transform_copy_archive_ok_inv in Htca
    as (sta & stb & stc & Hmd & Hbundle & Hzip & Hreport).
  assert (∀ r, under (temp_dir self) r = true →
               under (joinpath (skill_path self) "references") r = false)
    as Houtside.
  { intros r. apply apart_under. destruct Hapart. by split. }
  assert (∀ r, under (converted_dir self) r = true →
               under (joinpath (skill_path self) "references") r = false)
    as Hout.
  { intros r Hr. apply Houtside.
    eapply starts_with_trans; [apply under_temp_dir_converted|exact Hr]. }
  (* what is staged when the copying begins *)
  destruct (convert_skill_md_ok _ _ _ _ Hmd)
    as (content & h & body & Hread & Hparsed).
  destruct (yields_inv _ _ _ _ _ _ _ _
              (yields_convert_skill_md self _ st1 content h body
                 Hread Hparsed) Hmd) as (Hr & Hfa & _).
  rewrite Hdry in Hr, Hfa.
  destruct (write_file _ _ (files st1)) as [ta|] eqn:Hw; [|done].
  apply write_file_inv in Hw as (-> & _ & Hne).
  assert (∀ k, k ≠ ["SKILL.md"%string] →
               node_at (converted_dir self ++ k) (files sta)
               = node_at (converted_dir self ++ k) (files st1)) as Hsta.
  { intros k Hk. rewrite Hfa, node_at_put_ne; [done|].
    rewrite joinpath_name by done. by intros ?%app_inv_head. }
  assert (staged self (files st) (files sta)) as Hstaged.
  { split.
    - transitivity (files st1).
      + apply (prepare_staging_untouched self (started self st) _ Hapart Hprep).
      + rewrite Hfa. apply untouched_put, Houtside.
        eapply starts_with_trans;
          [apply under_temp_dir_converted|apply under_joinpath].
    - intros k Hk Hd. exfalso.
      assert (node_at (converted_dir self ++ k) (files st1) = Some Dir)
        as Hd1.
      { destruct (decide (k = ["SKILL.md"%string])) as [->|Hneq];
          [|by rewrite <-Hsta].
        rewrite Hfa, <-(joinpath_name (converted_dir self) "SKILL.md"),
          node_at_put_eq in Hd by done. done. }
      destruct (prepare_staging_fresh self (started self st) _ _ _
                  Htree Hprep
                  (starts_with_trans _ _ _ (under_temp_dir_converted self)
                     (starts_with_app _ k)) Hd1) as [_ [Heq|Heq]].
      + apply (f_equal length) in Heq.
        pose proof (starts_with_length _ _ (under_temp_dir_converted self)).
        rewrite length_app in Heq. destruct k; [done|]. simpl in Heq. lia.
      + rewrite <-(app_nil_r (converted_dir self)) in Heq at 2.
        by apply app_inv_head in Heq. }
  assert (sourced self (files st) (files sta)) as Hsourced.
  { intros k data Hfile. exfalso. rewrite Hsta in Hfile by done.
    pose proof (prepare_staging_empty self (started self st) _ Htree Hprep
                  _ _ Hfile) as Hempty.
    rewrite (starts_with_trans _ _ _ (under_temp_dir_converted self)
               (starts_with_app _ _)) in Hempty. done. }
  pose proof (bundle_references_sourced self (files st) Hdry Htree Hout
                _ _ Hstaged Hsourced Hbundle) as Hfrom.
  (* the archive *)
  destruct (archive_is_what_is_staged self _ _ _ Hdry Hname Hzip)
    as (members & Harchive & Hmembers).
  exists members. split.
  { by rewrite (archive_stays self _ _ _ Hreport Hclean). }
  intros k data. rewrite Hmembers by done. split.
  - intros (Hk & Hnode & Hb)%Hfrom. split_and!; [done..| |];
      unfold bundled in Hb; rewrite Hnode in Hb;
      unfold relative_to in Hb; rewrite strip_prefix_app in Hb;
      apply andb_true_iff in Hb as [Hex%negb_true_iff Hsize%negb_true_iff];
      [done|by apply N.ltb_ge].
  - intros (Hk & Hnode & Hex & Hsize).
    apply (bundle_references_copies self (files st) Hdry Htree Hout
             _ _ (skill_path self ++ "references"%string :: k) _ _
             Hstaged Hbundle).
    + apply elem_of_rglob. rewrite joinpath_name by done. split_and!.
      * change ("references"%string :: k)
          with (["references"%string] ++ k).
        rewrite app_assoc. apply starts_with_app.
      * intros Heq. apply app_inv_head in Heq. destruct k; done.
      * destruct (skill_path self ++ "references"%string :: k) eqn:Hp;
          [by destruct (skill_path self)|].
        by eapply find_entry_Some_elem.
    + done.
    + apply strip_prefix_app.
    + unfold bundled, relative_to.
      rewrite Hnode, strip_prefix_app, Hex.
      by rewrite (proj2 (N.ltb_ge _ _) Hsize).
Qed.


(** A body in which none of the texts [mcp__], [Bash(], [scripts/],
    [```bash] and [```python] occurs is left alone: [clean_content]
    returns it as it is and adds nothing to the change list, to the
    warning list or to the output. *)
Theorem unrelated_body_is_left_alone self body st :
  occurs (chars "mcp__") (chars body) = false →
  occurs (chars "Bash(") (chars body) = false →
  occurs (chars "scripts/") (chars body) = false →
  occurs (chars "```bash") (chars body) = false →
  occurs (chars "```python") (chars body) = false →
  clean_content self body st = (Ok body, st).
Proof.
  intros Hmcp Hbash Hscripts Hfence_bash Hfence_python.
  assert (Forall (λ rule, findall (compiled rule.1) (chars body) = [])
            CC_PATTERNS) as Hremoval.
  { unfold CC_PATTERNS.
    repeat apply Forall_cons_2; [..|apply Forall_nil_2]; cbn [compiled fst].
    - apply (findall_without _ (chars "mcp__")); [|done..].
      intros w (w1 & w2 & -> & ->%lang_lit & Hw)%(lang_app (lit "`")).
      change (chars "`" ++ w2) with ("`"%char :: w2).
      rewrite occurs_cons. apply orb_true_iff. right.
      apply (lang_app mcp_call (lit "`")) in Hw as (w3 & w4 & -> & Hw & _).
      apply occurs_app_l, occurs_starts_with.
      by apply (lang_lit_prefix "mcp__" _ _ Hw).
    - by apply (findall_without_prefix "mcp__").
    - by apply (findall_without_prefix "mcp__").
    - by apply (findall_without_prefix "Bash("). }
  assert (warning_pass WARNING_PATTERNS body = []) as Hwarn.
  { unfold WARNING_PATTERNS, warning_pass. cbn [compiled fst].
    rewrite (findall_without_prefix "scripts/") by done.
    rewrite (findall_without_prefix "scripts/") by done.
    rewrite (findall_without_prefix "```bash") by done.
    by rewrite (findall_without_prefix "```python") by done. }
  rewrite clean_content_run. cbv zeta.
  rewrite (removal_text_clean _ _ Hremoval), (removal_changes_clean _ _ Hremoval).
  rewrite Hwarn. unfold echo. destruct (verbose self); cbn [fmap list_fmap];
    by rewrite !app_nil_r, state_eta.
Qed.


(** Converting a converted document changes nothing.  When the document
    of a bundle is one that [convert_skill_md] has written, and the YAML
    library reads back the header it has written (its text ends with a
    line break and has no marker line), the document written for it is
    the same document and no entry is added to the change list: the
    restricted fields are gone, or kept, already, and the removal rules
    find nothing in a cleaned body. *)
Theorem converted_document_is_stable
    self out (h : gmap string value) body d st :
  let cleaned_header := stripped_header self REMOVE_YAML_FIELDS h in
  let document := rendered cleaned_header (removal_text CC_PATTERNS body) in
  dry_run self = false →
  chars (yaml_dump cleaned_header) = d ++ [nl] →
  occurs closing_marker (d ++ nl :: chars "---") = false →
  yaml_load (str_of d) = Ok (YMapping cleaned_header) →
  node_at (joinpath (skill_path self) "SKILL.md") (files st)
    = Some (File document) →
  node_at out (files st) = Some Dir →
  node_at (joinpath out "SKILL.md") (files st) ≠ Some Dir →
  ∃ st',
    convert_skill_md self out st = (Ok tt, st') ∧
    node_at (joinpath out "SKILL.md") (files st') = Some (File document) ∧
    changes st' = changes st.
Proof.
  intros cleaned_header document Hdry Hdump Hocc Hload Hread Hout Hnodir.
  set (cleaned := removal_text CC_PATTERNS body) in *.
  (* the document is read back as it was written *)
  assert (parsed document = Ok (YMapping cleaned_header, cleaned)) as Hparsed.
  { unfold parsed, match_frontmatter, document, rendered.
    rewrite !chars_append, Hdump, chars_str_of.
    rewrite (app_assoc (chars "---") [nl]), strip_prefix_app.
    assert ((d ++ [nl]) ++ chars "---" ++ [nl] ++ chars cleaned
            = d ++ closing_marker ++ chars cleaned) as ->
      by (by rewrite <-app_assoc).
    rewrite (split_at_first_marker _ _ Hocc), Hload. cbn [or_empty].
    by rewrite str_of_chars. }
  (* nothing is left to remove *)
  assert (stripped_header self REMOVE_YAML_FIELDS cleaned_header
          = cleaned_header ∧
          header_changes self REMOVE_YAML_FIELDS cleaned_header = [])
    as [Hheader Hnone].
  { unfold cleaned_header, REMOVE_YAML_FIELDS.
    cbn [stripped_header header_changes].
    destruct (h !! "allowed-tools"%string) as [v|] eqn:Hfield;
      [destruct (keep_tools self) eqn:Hkeep|];
      cbn [stripped_header header_changes];
      rewrite ?Hfield, ?Hkeep, ?lookup_delete_eq; done. }
  assert (Forall (λ rule, findall (compiled rule.1) (chars cleaned) = [])
            CC_PATTERNS) as Hclean.
  { apply Forall_forall. intros rule Hrule.
    apply findall_no_match; [by apply nonempty_removal|].
    unfold cleaned. rewrite removal_text_clean_text.
    by apply clean_text_no_match. }
  destruct (yields_convert_skill_md self out st document cleaned_header
              cleaned Hread Hparsed) as (st' & Hrun & Hfiles & Hchanges & _).
  rewrite Hdry in Hrun, Hfiles.
  rewrite Hheader, Hnone, (removal_text_clean _ _ Hclean),
    (removal_changes_clean _ _ Hclean), app_nil_r in *.
  fold document in Hrun, Hfiles.
  assert (write_file (joinpath out "SKILL.md") document (files st)
          = Ok (put (joinpath out "SKILL.md") (File document) (files st)))
    as Hwrite.
  { unfold write_file.
    destruct (node_at (joinpath out "SKILL.md") (files st)) as [[|x]|];
      [done..|].
    by rewrite joinpath_name, parent_snoc, Hout by done. }
  rewrite Hwrite in Hrun, Hfiles. exists st'. split_and!; [done| |done].
  rewrite Hfiles. apply node_at_put_eq. rewrite joinpath_name by done.
  by destruct out.
Qed.



(** The verbose flag changes only what is printed: with it set either
    way, [main] ends with the same exit status or exception and leaves
    the same file system, the same change list and the same warning
    list. *)
Theorem verbose_changes_only_what_is_printed self b st :
  (main (with_verbose b self) st).1 = (main self st).1 ∧
  files (main (with_verbose b self) st).2 = files (main self st).2 ∧
  changes (main (with_verbose b self) st).2 = changes (main self st).2 ∧
  warnings (main (with_verbose b self) st).2 = warnings (main self st).2.
Proof.
  destruct (agree_main self b st st) as (Hr & Hf & Hc & Hw); [done|].
  by rewrite Hr, Hf, Hc, Hw.
Qed.

End Properties.

Lemma header_ends_at_first_closing_marker_witness :
  parse_frontmatter
    (Demo.lines ["---"; "title: Demo"; "---"; "Body"; "---"; "more"])
    (Demo.start []) =
  (Ok (YMapping {[ "title"%string := "Demo"%string ]},
       Demo.lines ["Body"; "---"; "more"]), Demo.start []).
Proof.
  pose proof (header_ends_at_first_closing_marker (value := string)
                (chars "title: Demo")
                (chars (Demo.lines ["Body"; "---"; "more"]))
                (Demo.start [])) as H.
  vm_compute in H. vm_compute. apply H. reflexivity.
Defined.

Lemma empty_header_block_is_body_witness :
  parse_frontmatter (Demo.lines ["---"; "---"; "Body"]) (Demo.start []) =
  (Ok (YMapping ∅, Demo.lines ["---"; "---"; "Body"]), Demo.start []).
Proof.
  apply (empty_header_block_is_body (value := string)
           (chars (Demo.lines ["Body"])) (Demo.start [])).
  vm_compute. reflexivity.
Defined.

Lemma excluded_reference_files_witness :
  should_exclude ["references"; "cache.pyc"]%string = true.
Proof.
  rewrite (excluded_reference_files (Demo.demo_cfg false)
             ["home"; "skills"; "demo"; "references"; "cache.pyc"]%string
             ["references"; "cache.pyc"]%string Demo.demo_fs).
  - reflexivity.
  - vm_compute. set_solver.
  - reflexivity.
Defined.

Lemma size_limit_of_a_reference_file_witness :
  ∃ st',
    bundle_one (Demo.demo_cfg true) ["home"; "out"; ".demo_temp"; "demo"]%string
      (0%N, 0) ["home"; "skills"; "demo"; "references"; "guide.md"]%string
      (Demo.start Demo.demo_fs) = (Ok (5%N, 1), st') ∧
    warnings st' = [].
Proof.
  eexists. split; [vm_compute; reflexivity|].
  edestruct (size_limit_of_a_reference_file (Demo.demo_cfg true)
               ["home"; "out"; ".demo_temp"; "demo"]%string (0%N, 0)
               ["home"; "skills"; "demo"; "references"; "guide.md"]%string
               "guide" ["references"; "guide.md"]%string
               (Demo.start Demo.demo_fs)) as [_ Hsmall].
  - reflexivity.
  - reflexivity.
  - reflexivity.
  - edestruct Hsmall as (_ & _ & Hw & _).
    + vm_compute. discriminate.
    + vm_compute. reflexivity.
    + exact Hw.
Defined.

Lemma bundle_summary_witness :
  ∃ st',
    bundle_references (Demo.demo_cfg true)
      (converted_dir (Demo.demo_cfg true)) (Demo.start Demo.demo_fs)
    = (Ok tt, st') ∧
    changes st' = [BundledFiles 2 13].
Proof.
  eexists. split; [vm_compute; reflexivity|].
  pose proof (bundle_summary (Demo.demo_cfg true) (Demo.start Demo.demo_fs) _
                ltac:(vm_compute; split; reflexivity)
                ltac:(vm_compute; reflexivity)) as Hsum.
  vm_compute in Hsum. exact (proj1 Hsum).
Defined.

Lemma conversion_touches_only_staging_and_archive_witness :
  node_at ["home"; "out"; "notes.txt"]%string
    (files (convert (Demo.demo_cfg false) (Demo.start with_output_fs)).2)
  = Some (File "keep").
Proof.
  rewrite (conversion_touches_only_staging_and_archive
             (Demo.demo_cfg false) (Demo.start with_output_fs)).
  - reflexivity.
  - apply FsFacts.tree_b_tree. vm_compute. reflexivity.
  - reflexivity.
  - reflexivity.
  - vm_compute. discriminate.
Defined.

Lemma dry_run_writes_no_file_witness :
  node_at ["home"; "out"; "demo.zip"]%string
    (files (convert (Demo.demo_cfg true) (Demo.start with_output_fs)).2)
  = Some (File "old").
Proof.
  destruct (dry_run_writes_no_file (Demo.demo_cfg true)
              (Demo.start with_output_fs)) as [Houtside _].
  - reflexivity.
  - apply FsFacts.tree_b_tree. vm_compute. reflexivity.
  - reflexivity.
  - rewrite Houtside; reflexivity.
Defined.

Lemma staging_directory_is_removed_witness :
  ∃ z st',
    convert (Demo.demo_cfg false) (Demo.start with_output_fs)
    = (Ok (Some z), st') ∧
    node_at ["home"; "out"; ".demo_temp"; "demo"; "SKILL.md"]%string (files st')
    = None.
Proof.
  eexists _, _. split; [vm_compute; reflexivity|].
  eapply (staging_directory_is_removed (Demo.demo_cfg false)
            (Demo.start with_output_fs)).
  - reflexivity.
  - reflexivity.
  - apply FsFacts.tree_b_tree. vm_compute. reflexivity.
  - vm_compute. reflexivity.
  - reflexivity.
Defined.

Lemma staging_path_is_a_file_witness :
  (convert (Demo.demo_cfg false) (Demo.start staging_file_fs)).1
  = Raise (NotADirectoryError ["home"; "out"; ".demo_temp"]%string).
Proof.
  destruct (staging_path_is_a_file (Demo.demo_cfg false)
              (Demo.start staging_file_fs) "x") as [Hconv _].
  - reflexivity.
  - reflexivity.
  - rewrite Hconv. reflexivity.
Defined.

Lemma archive_path_is_a_directory_witness :
  node_at ["home"; "out"; "demo.zip"]%string
    (files (convert (Demo.demo_cfg false) (Demo.start archive_dir_fs)).2)
  = Some Dir.
Proof.
  apply (archive_path_is_a_directory (Demo.demo_cfg false)
           (Demo.start archive_dir_fs)).
  - reflexivity.
  - reflexivity.
Defined.


Lemma archive_reference_members_witness :
  ∃ members,
    node_at ["home"; "out"; "demo.zip"]%string
      (files (convert (Demo.demo_cfg false) (Demo.start Demo.demo_fs)).2)
    = Some (File (zip_bytes members)) ∧
    (["demo"; "references"; "guide.md"]%string, "guide"%string) ∈ members ∧
    (["demo"; "references"; "cache.pyc"]%string, "xx"%string) ∉ members.
Proof.
  edestruct (archive_reference_members (Demo.demo_cfg false)
               (Demo.start Demo.demo_fs)) as (members & Hzip & Hmembers).
  - reflexivity.
  - vm_compute. discriminate.
  - apply FsFacts.tree_b_tree. vm_compute. reflexivity.
  - vm_compute. split; reflexivity.
  - vm_compute. reflexivity.
  - exists members. split_and!; [exact Hzip| |].
    + apply (Hmembers ["guide.md"]%string). split_and!; [done|reflexivity..|].
      vm_compute. discriminate.
    + intros (_ & _ & Hex & _)%(Hmembers ["cache.pyc"]%string).
      vm_compute in Hex. discriminate.
Defined.

Lemma unrelated_body_is_left_alone_witness :
  clean_content (Demo.demo_cfg false) "See the guide in references/."
    (Demo.start [])
  = (Ok "See the guide in references/."%string, Demo.start []).
Proof.
  apply (unrelated_body_is_left_alone (value := string)); reflexivity.
Defined.

Lemma converted_document_is_stable_witness :
  ∃ st',
    convert_skill_md (Demo.demo_cfg false) ["home"; "out"]%string
      (Demo.start converted_fs) = (Ok tt, st') ∧
    node_at ["home"; "out"; "SKILL.md"]%string (files st')
    = Some (File (Demo.lines ["---"; "title: Demo"; "---";
                              "Run [CLI command] now."])) ∧
    changes st' = [].
Proof.
  destruct (converted_document_is_stable (Demo.demo_cfg false)
              ["home"; "out"]%string
              {[ "allowed-tools"%string := "Bash"%string;
                 "title"%string := "Demo"%string ]}
              (Demo.lines ["Run Bash(ls) now."])
              (chars "title: Demo") (Demo.start converted_fs))
    as (st' & Hrun & Hdocument & Hchanges).
  - reflexivity.
  - vm_compute. reflexivity.
  - vm_compute. reflexivity.
  - vm_compute. reflexivity.
  - vm_compute. reflexivity.
  - reflexivity.
  - vm_compute. discriminate.
  - exists st'. split_and!; [exact Hrun| |exact Hchanges].
    etrans; [exact Hdocument|]. vm_compute. reflexivity.
Defined.

